(** * Portfolio valuation engine: a shallow embedding of
      [src/lib/portfolioCalculations.ts]

    The TypeScript module computes holdings, cost basis, profit and loss and a
    growth curve from a trade ledger and a map of live quotes.  Every function
    of the module that the valuation engine is made of is transcribed below,
    statement by statement, and the properties of the engine are proved about
    the transcription.  The formatting helpers of the module are left out.

    Numbers.  A JavaScript [number] is modelled by [number]: an exact rational,
    or one of the three special values [Infinity], [-Infinity] and [NaN], with
    the arithmetic of IEEE 754 on the extended rationals.  The model is exact
    on finite values: the rounding of binary64, the overflow to infinity and
    the sign of zero are outside it.  The statements proved on it are worded
    on what the code does: which numbers it adds, multiplies, divides,
    compares and rounds, and in which order.  Where the rounding of binary64
    decides a statement, it is evaluated on [Binary64], the same functions
    transcribed on the binary64 floats themselves.

    Maps.  A JavaScript [Map] iterates in insertion order, [set] on a present
    key keeps the key's place, and [delete] followed by [set] moves the key to
    the end.  [JsMap] is therefore an association list with exactly these
    operations. *)

From Stdlib Require Import QArith Qround Qabs Lqa Lia ZArith.
From Stdlib Require Import List String Ascii Bool.
From Stdlib Require Import Permutation Sorted Morphisms Setoid.
From Stdlib Require Import Floats.

#[local] Set Warnings "-inexact-float".
Import ListNotations.

Local Open Scope Q_scope.

(* ================================================================== *)
(** ** JavaScript numbers *)
(* ================================================================== *)

Inductive number : Type :=
| Fin (q : Q)
| PosInf
| NegInf
| NaN.

Declare Scope num_scope.
Delimit Scope num_scope with num.
Bind Scope num_scope with number.

(** The literal [n] of the source, for integer literals. *)
Definition lit (z : Z) : number := Fin (inject_Z z).

(** [x + y]. *)
Definition add (x y : number) : number :=
  match x, y with
  | NaN, _ | _, NaN => NaN
  | Fin a, Fin b => Fin (a + b)
  | PosInf, NegInf | NegInf, PosInf => NaN
  | PosInf, _ | _, PosInf => PosInf
  | NegInf, _ | _, NegInf => NegInf
  end.

(** Unary minus. *)
Definition neg (x : number) : number :=
  match x with
  | Fin a => Fin (- a)
  | PosInf => NegInf
  | NegInf => PosInf
  | NaN => NaN
  end.

(** [x - y]. *)
Definition sub (x y : number) : number := add x (neg y).

(** An infinity of the sign of [s] (the comparison of a finite factor with
    zero), [NaN] when the factor is zero. *)
Definition signedInf (s : comparison) (positive : bool) : number :=
  match s with
  | Eq => NaN
  | Gt => if positive then PosInf else NegInf
  | Lt => if positive then NegInf else PosInf
  end.

(** [x * y]. *)
Definition mul (x y : number) : number :=
  match x, y with
  | NaN, _ | _, NaN => NaN
  | Fin a, Fin b => Fin (a * b)
  | Fin a, PosInf | PosInf, Fin a => signedInf (a ?= 0) true
  | Fin a, NegInf | NegInf, Fin a => signedInf (a ?= 0) false
  | PosInf, PosInf | NegInf, NegInf => PosInf
  | PosInf, NegInf | NegInf, PosInf => NegInf
  end.

(** [x / y].  A finite value divided by zero is an infinity of the sign of the
    numerator, and [0 / 0] is [NaN]. *)
Definition div (x y : number) : number :=
  match x, y with
  | NaN, _ | _, NaN => NaN
  | Fin a, Fin b =>
      match b ?= 0 with
      | Eq => signedInf (a ?= 0) true
      | _ => Fin (a / b)
      end
  | Fin _, (PosInf | NegInf) => Fin 0
  | PosInf, Fin b => match b ?= 0 with Lt => NegInf | _ => PosInf end
  | NegInf, Fin b => match b ?= 0 with Lt => PosInf | _ => NegInf end
  | (PosInf | NegInf), (PosInf | NegInf) => NaN
  end.

(** [x > y]: false as soon as one side is [NaN]. *)
Definition gt (x y : number) : bool :=
  match x, y with
  | Fin a, Fin b => match a ?= b with Gt => true | _ => false end
  | PosInf, (Fin _ | NegInf) => true
  | Fin _, NegInf => true
  | _, _ => false
  end.

(** [x < y]. *)
Definition lt (x y : number) : bool := gt y x.

(** [Math.round(x)]: the integer nearest to [x], a tie going to the larger
    one, that is [floor (x + 1/2)]; the special values are returned as they
    are. *)
Definition Math_round (x : number) : number :=
  match x with
  | Fin a => Fin (inject_Z (Qfloor (a + (1 # 2))))
  | _ => x
  end.

Infix "+" := add : num_scope.
Infix "-" := sub : num_scope.
Infix "*" := mul : num_scope.
Infix "/" := div : num_scope.
Infix ">?" := gt (at level 70, no associativity) : num_scope.
Infix "<?" := lt (at level 70, no associativity) : num_scope.

(** The idiom [Math.round(x * 100) / 100] that the module applies to every
    figure it outputs. *)
Definition roundCents (x : number) : number :=
  (Math_round (x * lit 100) / lit 100)%num.

(** Two numbers denote the same value. *)
Definition num_eq (x y : number) : Prop :=
  match x, y with
  | Fin a, Fin b => a == b
  | PosInf, PosInf | NegInf, NegInf | NaN, NaN => True
  | _, _ => False
  end.

Definition num_eqb (x y : number) : bool :=
  match x, y with
  | Fin a, Fin b => Qeq_bool a b
  | PosInf, PosInf | NegInf, NegInf | NaN, NaN => true
  | _, _ => false
  end.

Infix "=n=" := num_eq (at level 70, no associativity).

(** A number that is neither [NaN] nor an infinity. *)
Definition finite (x : number) : Prop :=
  match x with Fin _ => True | _ => False end.

(** A finite number that is strictly positive. *)
Definition isPositive (x : number) : Prop :=
  match x with Fin a => 0 < a | _ => False end.

(** The rational a finite number stands for ([0] for the special values, which
    the statements below exclude before they use it). *)
Definition toQ (x : number) : Q :=
  match x with Fin a => a | _ => 0 end.

(* ================================================================== *)
(** ** JavaScript [Map] with string keys *)
(* ================================================================== *)

Section JsMap.
Context {V : Type}.

Definition JsMap : Type := list (string * V).

(** [m.get(k)], [None] standing for [undefined]. *)
Fixpoint mapGet (k : string) (m : JsMap) : option V :=
  match m with
  | [] => None
  | (k', v) :: m' => if String.eqb k k' then Some v else mapGet k m'
  end.

(** [m.set(k, v)]: a present key keeps its place, a new key goes last. *)
Fixpoint mapSet (k : string) (v : V) (m : JsMap) : JsMap :=
  match m with
  | [] => [(k, v)]
  | (k', v') :: m' =>
      if String.eqb k k' then (k, v) :: m' else (k', v') :: mapSet k v m'
  end.

(** [m.delete(k)]. *)
Fixpoint mapDelete (k : string) (m : JsMap) : JsMap :=
  match m with
  | [] => []
  | (k', v') :: m' =>
      if String.eqb k k' then m' else (k', v') :: mapDelete k m'
  end.

(** [Array.from(m.keys())]. *)
Definition mapKeys (m : JsMap) : list string := map fst m.
End JsMap.

Arguments JsMap V : clear implicits.

(* ================================================================== *)
(** ** Data model ([src/types/portfolio.ts]) *)
(* ================================================================== *)

Inductive TransactionType : Type := buy | sell.

Record TradeRecord : Type := mkTrade {
  date : string;
  symbol : string;
  quantity : number;
  price : number;
  transactionType : TransactionType
}.

Record StockPrice : Type := mkStockPrice {
  sp_symbol : string;
  sp_price : number;
  change : number;
  changePercent : number;
  timestamp : number
}.

Record Holding : Type := mkHolding {
  h_symbol : string;
  h_quantity : number;
  averagePrice : number;
  investedValue : number;
  currentValue : number;
  pnl : number;
  pnlPercent : number
}.

Record PortfolioSummary : Type := mkSummary {
  totalInvested : number;
  totalCurrentValue : number;
  totalPnL : number;
  totalPnLPercent : number;
  holdings : list Holding
}.

(** The accumulator object [{ quantity, totalCost, trades }] of
    [calculateHoldings]. *)
Record Position : Type := mkPosition {
  pos_quantity : number;
  totalCost : number;
  trades : list TradeRecord
}.

(** The object [{ absolute, percentage }] returned by [calculatePnL]. *)
Record PnL : Type := mkPnL {
  absolute : number;
  percentage : number
}.

(* ================================================================== *)
(** ** Holdings aggregation ([calculateHoldings], lines 3-40) *)
(* ================================================================== *)

(** [existing.quantity > 0 ? existing.totalCost / existing.quantity : 0]
    (lines 15 and 154). *)
Definition avgCostPerShare (heldQuantity heldCost : number) : number :=
  if (heldQuantity >? lit 0)%num then (heldCost / heldQuantity)%num else lit 0.

(** The effect of one trade on the pair (quantity, totalCost) of the position
    of its symbol: the body of the [if]/[else] at lines 9-25, which lines
    150-159 repeat word for word. *)
Definition accountTrade (heldQuantity heldCost : number) (trade : TradeRecord)
  : number * number :=
  match transactionType trade with
  | buy =>
      ((heldQuantity + quantity trade)%num,
       (heldCost + quantity trade * price trade)%num)
  | sell =>
      let avg := avgCostPerShare heldQuantity heldCost in
      let costToReduce := (quantity trade * avg)%num in
      ((heldQuantity - quantity trade)%num, (heldCost - costToReduce)%num)
  end.

(** The text of the [console.warn] at line 23. *)
Definition negativeQuantityWarning (sym : string) : string :=
  ("Warning: Negative quantity for " ++ sym
   ++ ". This might indicate short selling or data issues.")%string.

(** [holdings.get(trade.symbol) || { quantity: 0, totalCost: 0, trades: [] }] *)
Definition existingPosition (holdings : JsMap Position) (sym : string)
  : Position :=
  match mapGet sym holdings with
  | Some p => p
  | None => mkPosition (lit 0) (lit 0) []
  end.

(** One turn of [tradeHistory.forEach] (lines 6-29).  The state is the map
    under construction together with what has been written to the console.
    [existing] is the object stored in the map when the symbol is present, so
    mutating it and storing it again leaves the key where it was.  The
    [sellValue] of line 14 is computed and never read. *)
Definition holdingsStep (st : JsMap Position * list string)
    (trade : TradeRecord) : JsMap Position * list string :=
  let '(hs, console) := st in
  let existing := existingPosition hs (symbol trade) in
  let '(q, c) :=
    accountTrade (pos_quantity existing) (totalCost existing) trade in
  let console' :=
    match transactionType trade with
    | sell =>
        if (q <? lit 0)%num
        then console ++ [negativeQuantityWarning (symbol trade)]
        else console
    | buy => console
    end in
  (mapSet (symbol trade) (mkPosition q c (trades existing ++ [trade])) hs,
   console').

(** The raw accumulator after the first loop, with the console output. *)
Definition accumulateHoldings (tradeHistory : list TradeRecord)
  : JsMap Position * list string :=
  fold_left holdingsStep tradeHistory ([], []).

(** The second loop (lines 32-37): copy the entries of positive quantity into
    a fresh map. *)
Definition filterHoldings (hs : JsMap Position) : JsMap Position :=
  fold_left
    (fun filtered kv =>
       if (pos_quantity (snd kv) >? lit 0)%num
       then mapSet (fst kv) (snd kv) filtered
       else filtered)
    hs [].

Definition calculateHoldings (tradeHistory : list TradeRecord)
  : JsMap Position :=
  filterHoldings (fst (accumulateHoldings tradeHistory)).

(** What [calculateHoldings] writes to the console. *)
Definition calculateHoldings_console (tradeHistory : list TradeRecord)
  : list string :=
  snd (accumulateHoldings tradeHistory).

(* ================================================================== *)
(** ** Valuation (lines 42-121) *)
(* ================================================================== *)

Definition isBuy (trade : TradeRecord) : bool :=
  match transactionType trade with buy => true | sell => false end.

(** [calculateAveragePrice] (lines 42-51). *)
Definition calculateAveragePrice (sym : string) (ts : list TradeRecord)
  : number :=
  let symbolTrades :=
    filter (fun trade => String.eqb (symbol trade) sym && isBuy trade) ts in
  if Nat.eqb (List.length symbolTrades) 0 then lit 0 else
  let totalQuantity :=
    fold_left (fun sum trade => (sum + quantity trade)%num)
              symbolTrades (lit 0) in
  let totalValue :=
    fold_left (fun sum trade => (sum + quantity trade * price trade)%num)
              symbolTrades (lit 0) in
  if (totalQuantity >? lit 0)%num
  then (totalValue / totalQuantity)%num
  else lit 0.

(** [calculateInvestedValue] (lines 53-57). *)
Definition calculateInvestedValue (tradeHistory : list TradeRecord) : number :=
  fold_left (fun total trade => (total + quantity trade * price trade)%num)
            (filter isBuy tradeHistory) (lit 0).

(** [calculateCurrentValue] (lines 59-70). *)
Definition calculateCurrentValue (livePrices : JsMap StockPrice)
    (hs : JsMap Position) : number :=
  fold_left
    (fun totalValue kv =>
       match mapGet (fst kv) livePrices with
       | Some currentPrice =>
           if (pos_quantity (snd kv) >? lit 0)%num
           then (totalValue + pos_quantity (snd kv) * sp_price currentPrice)%num
           else totalValue
       | None => totalValue
       end)
    hs (lit 0).

(** [calculatePnL] (lines 72-80). *)
Definition calculatePnL (invested current : number) : PnL :=
  let abs := (current - invested)%num in
  let pct :=
    if (invested >? lit 0)%num then (abs / invested * lit 100)%num else lit 0 in
  mkPnL (roundCents abs) (roundCents pct).

(** A stable sort driven by a JavaScript comparator: [cmp a b > 0] moves [b]
    in front of [a], any other result (negative, zero or [NaN]) leaves the two
    in the order they came in.  [Array.prototype.sort] is stable, so for a
    consistent comparator this is its result.  For a comparator that is not
    consistent (one that returns [NaN] on some pair) the language leaves the
    order to the implementation: the statements below that depend on the
    order of the result are made for consistent comparators only. *)
Section SortBy.
Context {A : Type} (cmp : A -> A -> number).

Fixpoint insertBy (x : A) (l : list A) : list A :=
  match l with
  | [] => [x]
  | y :: l' =>
      if (cmp x y >? lit 0)%num then y :: insertBy x l' else x :: y :: l'
  end.

Definition sortBy (l : list A) : list A := fold_right insertBy [] l.
End SortBy.

(** The unrounded figures of one holding (lines 94-97). *)
Definition rawAveragePrice (p : Position) : number :=
  if (pos_quantity p >? lit 0)%num
  then (totalCost p / pos_quantity p)%num
  else lit 0.

Definition rawCurrentValue (livePrices : JsMap StockPrice) (sym : string)
    (p : Position) : number :=
  match mapGet sym livePrices with
  | Some currentPrice => (pos_quantity p * sp_price currentPrice)%num
  | None => lit 0
  end.

(** One turn of [holdings.forEach] (lines 93-109): the [Holding] pushed. *)
Definition makeHolding (livePrices : JsMap StockPrice) (kv : string * Position)
  : Holding :=
  let '(sym, holding) := kv in
  let avgPrice := rawAveragePrice holding in
  let curValue := rawCurrentValue livePrices sym holding in
  let invValue := totalCost holding in
  let stockPnL := calculatePnL invValue curValue in
  mkHolding sym (pos_quantity holding)
            (roundCents avgPrice) (roundCents invValue) (roundCents curValue)
            (absolute stockPnL) (percentage stockPnL).

(** [calculatePortfolioSummary] (lines 82-121). *)
Definition calculatePortfolioSummary (tradeHistory : list TradeRecord)
    (livePrices : JsMap StockPrice) : PortfolioSummary :=
  let hs := calculateHoldings tradeHistory in
  let invested := calculateInvestedValue tradeHistory in
  let current := calculateCurrentValue livePrices hs in
  let total := calculatePnL invested current in
  let holdingsArray := map (makeHolding livePrices) hs in
  mkSummary (roundCents invested) (roundCents current)
            (absolute total) (percentage total)
            (sortBy (fun a b => (currentValue b - currentValue a)%num)
                    holdingsArray).

(* ================================================================== *)
(** ** Growth reconstruction ([calculatePortfolioGrowthOverTime],
       lines 123-184) *)
(* ================================================================== *)

(** An element [{ date, value }] of the series. *)
Record GrowthPoint : Type := mkGrowthPoint {
  gp_date : string;
  gp_value : number
}.

(** The object [{ quantity, totalCost }] of the running map. *)
Record Lot : Type := mkLot {
  lot_quantity : number;
  lot_totalCost : number
}.

(** [Array.prototype.sort()] without a comparator, on strings: ascending in
    the order of the code units, which [String.compare] is for the ASCII
    strings dates are made of. *)
Fixpoint insertString (x : string) (l : list string) : list string :=
  match l with
  | [] => [x]
  | y :: l' => if String.ltb y x then y :: insertString x l' else x :: y :: l'
  end.

Definition sortStrings (l : list string) : list string :=
  fold_right insertString [] l.

(** [tradesByDate.get(k) || []], and the same for the days of the loop. *)
Definition tradesOn (tradesByDate : JsMap (list TradeRecord)) (d : string)
  : list TradeRecord :=
  match mapGet d tradesByDate with Some l => l | None => [] end.

(** Lines 133-138. *)
Definition groupByDate (sortedTrades : list TradeRecord)
  : JsMap (list TradeRecord) :=
  fold_left
    (fun byDate trade =>
       mapSet (date trade) (tradesOn byDate (date trade) ++ [trade]) byDate)
    sortedTrades [].

(** [holdings.get(trade.symbol) || { quantity: 0, totalCost: 0 }] *)
Definition existingLot (hs : JsMap Lot) (sym : string) : Lot :=
  match mapGet sym hs with
  | Some l => l
  | None => mkLot (lit 0) (lit 0)
  end.

(** One turn of [dayTrades.forEach] (lines 147-166). *)
Definition growthTrade (hs : JsMap Lot) (trade : TradeRecord) : JsMap Lot :=
  let existing := existingLot hs (symbol trade) in
  let '(q, c) :=
    accountTrade (lot_quantity existing) (lot_totalCost existing) trade in
  if (q >? lit 0)%num
  then mapSet (symbol trade) (mkLot q c) hs
  else mapDelete (symbol trade) hs.

(** Lines 169-175. *)
Definition portfolioValueOf (livePrices : JsMap StockPrice) (hs : JsMap Lot)
  : number :=
  fold_left
    (fun portfolioValue kv =>
       match mapGet (fst kv) livePrices with
       | Some currentPrice =>
           if (lot_quantity (snd kv) >? lit 0)%num
           then (portfolioValue
                 + lot_quantity (snd kv) * sp_price currentPrice)%num
           else portfolioValue
       | None => portfolioValue
       end)
    hs (lit 0).

(** One turn of [dates.forEach] (lines 143-181); the state is the running map
    and the series built so far. *)
Definition growthDay (tradesByDate : JsMap (list TradeRecord))
    (livePrices : JsMap StockPrice)
    (st : JsMap Lot * list GrowthPoint) (d : string)
  : JsMap Lot * list GrowthPoint :=
  let dayTrades := tradesOn tradesByDate d in
  let hs := fold_left growthTrade dayTrades (fst st) in
  (hs,
   snd st
   ++ [mkGrowthPoint d (roundCents (portfolioValueOf livePrices hs))]).

Section Growth.
(** [new Date(s).getTime()], a built-in of the language that the module
    only calls: a number, or [NaN] for a date it cannot read. *)
Variable getTime : string -> number.

(** Line 127. *)
Definition sortTradesByDate (tradeHistory : list TradeRecord)
  : list TradeRecord :=
  sortBy (fun a b => (getTime (date a) - getTime (date b))%num) tradeHistory.

(** Line 141. *)
Definition growthDates (tradeHistory : list TradeRecord) : list string :=
  sortStrings (mapKeys (groupByDate (sortTradesByDate tradeHistory))).

(** The loop of lines 143-181 over the dates [ds], from the empty running
    map and the empty series. *)
Definition growthLoop (tradeHistory : list TradeRecord)
    (livePrices : JsMap StockPrice) (ds : list string)
  : JsMap Lot * list GrowthPoint :=
  fold_left
    (growthDay (groupByDate (sortTradesByDate tradeHistory)) livePrices)
    ds ([], []).

Definition calculatePortfolioGrowthOverTime
    (tradeHistory : list TradeRecord) (livePrices : JsMap StockPrice)
  : list GrowthPoint :=
  if Nat.eqb (List.length tradeHistory) 0 then [] else
  snd (growthLoop tradeHistory livePrices (growthDates tradeHistory)).
End Growth.

(* ================================================================== *)
(** ** The ledger of the worked example *)
(* ================================================================== *)

Definition dec (n : Z) (d : positive) : number := Fin (n # d).

Definition quote (sym : string) (p : number) : string * StockPrice :=
  (sym, mkStockPrice sym p (lit 0) (lit 0) (lit 0)).

Definition exampleLedger : list TradeRecord :=
  [ mkTrade "2024-01-15" "AAPL" (lit 100) (dec 15050 100) buy;
    mkTrade "2024-02-01" "AAPL" (lit 50) (lit 155) sell ].

Definition examplePrices : JsMap StockPrice := [ quote "AAPL" (lit 160) ].

(* ================================================================== *)
(** ** Vocabulary of the statements *)
(* ================================================================== *)

(** *** Sums *)


(** The sum of a list of rationals. *)
Definition sumQ (l : list Q) : Q := fold_right Qplus 0 l.

(** *** The order of strings *)

Definition strLt (a b : string) : Prop := String.ltb a b = true.

Definition strLe (a b : string) : Prop := String.leb a b = true.

(** *** Invariants of the maps *)

Definition heldPositive (kv : string * Position) : bool :=
  (pos_quantity (snd kv) >? lit 0)%num.

Definition lotPositive (kv : string * Lot) : Prop :=
  (lot_quantity (snd kv) >? lit 0)%num = true.

(** What the running map satisfies between any two trades. *)
Definition runningInv (hs : JsMap Lot) : Prop :=
  Forall lotPositive hs /\ NoDup (mapKeys hs).

(** The running map after the dates [ds], which the quotes play no part
    in. *)
Definition runningMapAfter (tradesByDate : JsMap (list TradeRecord))
    (hs : JsMap Lot) (ds : list string) : JsMap Lot :=
  fold_left (fun m d => fold_left growthTrade (tradesOn tradesByDate d) m)
            ds hs.

(** *** Finite inputs and outputs *)


Definition finiteQuote (kv : string * StockPrice) : Prop :=
  finite (sp_price (snd kv)).




(** *** Valid ledgers *)

(** A trade as the ingestion layer is said to deliver it: a finite, positive
    quantity and a finite, positive price. *)
Definition validTrade (t : TradeRecord) : Prop :=
  isPositive (quantity t) /\ isPositive (price t).




(** *** The weighted mean of the prices of a symbol *)

(** The trades of a symbol, in the order of the ledger. *)
Definition tradesOf (sym : string) (ts : list TradeRecord) : list TradeRecord :=
  filter (fun t => String.eqb (symbol t) sym) ts.

(** The sum of the quantities of the trades of [sym]. *)
Definition tradedQuantity (sym : string) (ts : list TradeRecord) : Q :=
  sumQ (map (fun t => toQ (quantity t)) (tradesOf sym ts)).

(** The sum of [quantity * price] over the trades of [sym]. *)
Definition tradedValue (sym : string) (ts : list TradeRecord) : Q :=
  sumQ (map (fun t => toQ (quantity t) * toQ (price t)) (tradesOf sym ts)).

(** The quantity-weighted mean of the prices of the trades of [sym]. *)
Definition weightedMeanPrice (sym : string) (ts : list TradeRecord) : Q :=
  tradedValue sym ts / tradedQuantity sym ts.

(** Every trade of [sym] in the ledger is a buy, at a positive quantity and
    price. *)
Definition onlyBought (sym : string) (ts : list TradeRecord) : Prop :=
  Forall (fun t => symbol t = sym -> transactionType t = buy /\ validTrade t)
         ts.

(** The running sums of [calculateAveragePrice] and of the position of
    [sym], as the code takes them: from 0, over the trades of [sym] in the
    order of the ledger. *)
Definition boughtQuantity (sym : string) (ts : list TradeRecord) : number :=
  fold_left (fun sum trade => (sum + quantity trade)%num)
            (tradesOf sym ts) (lit 0).

Definition boughtValue (sym : string) (ts : list TradeRecord) : number :=
  fold_left (fun sum trade => (sum + quantity trade * price trade)%num)
            (tradesOf sym ts) (lit 0).

(** *** Rules in the words of the specification *)

(** The sell rule as the specification words it: the average cost is
    [costBasis / quantity], and [0] if the quantity is 0. *)
Definition spec_avgCostPerShare (heldQuantity heldCost : number) : number :=
  if num_eqb heldQuantity (lit 0) then lit 0
  else (heldCost / heldQuantity)%num.

(** Rounding to the cent, half away from zero, as the specification words it:
    the magnitude is rounded to the nearest cent, a half cent going up, and
    the sign is put back. *)
Definition spec_roundHalfAwayFromZero (a : Q) : Q :=
  let cents :=
    inject_Z (Qfloor (Qabs a * inject_Z 100 + (1 # 2))) / inject_Z 100 in
  if Qle_bool 0 a then cents else - cents.

(** Rounding to a whole number, half away from zero, as the specification
    words it: the magnitude is rounded to the nearest whole number, a half
    going up, and the sign is put back. *)
Definition spec_roundHalfAwayFromZeroZ (y : Q) : Z :=
  if Qle_bool 0 y then Qfloor (y + (1 # 2))
  else (- Qfloor (- y + (1 # 2)))%Z.

(** *** Further ledgers *)

Definition oversoldLedger : list TradeRecord :=
  [ mkTrade "2024-01-02" "X" (lit 10) (lit 5) buy;
    mkTrade "2024-01-03" "X" (lit 20) (lit 5) sell ].

Definition reboughtLedger : list TradeRecord :=
  oversoldLedger ++ [ mkTrade "2024-01-05" "X" (lit 20) (lit 1) buy ].

Definition halfCentLedger : list TradeRecord :=
  [ mkTrade "2024-03-01" "X" (lit 1) (dec 125 1000) buy ].

Definition unquotedLedger : list TradeRecord :=
  [ mkTrade "2024-01-02" "X" (lit 10) (lit 5) buy ].

Definition twoBuysLedger : list TradeRecord :=
  [ mkTrade "2024-01-02" "X" (lit 1) (lit 1) buy;
    mkTrade "2024-01-03" "X" (lit 2) (lit 2) buy ].

(** [new Date(s).getTime()] on the two dates of the worked example (midnight
    UTC, in milliseconds); the example needs no other date. *)
Definition exampleGetTime (s : string) : number :=
  if String.eqb s "2024-01-15" then lit 1705276800000
  else if String.eqb s "2024-02-01" then lit 1706745600000
  else NaN.

(* ================================================================== *)
(** ** Sector allocation ([calculateSectorAllocation], lines 186-231) *)
(* ================================================================== *)

(** Whether a number is truthy: every number but [0] and [NaN]. *)
Definition truthy (x : number) : bool :=
  match x with
  | Fin a => negb (Qeq_bool a 0)
  | NaN => false
  | PosInf | NegInf => true
  end.

(** [x || 0] for [x] a number or [undefined] ([None]). *)
Definition orZero (x : option number) : number :=
  match x with
  | Some v => if truthy v then v else lit 0
  | None => lit 0
  end.

(** What indexing [sectorMap] with a symbol can yield and [|| 'Other'] lets
    through: a string, or, the object literal inheriting from
    [Object.prototype], the member of the prototype that bears the symbol's
    name (a function or an object, truthy, compared by identity). *)
Inductive SectorKey : Type :=
| SectorString (s : string)
| PrototypeMember (member : string).

Definition sector_eqb (a b : SectorKey) : bool :=
  match a, b with
  | SectorString s, SectorString s' => String.eqb s s'
  | PrototypeMember m, PrototypeMember m' => String.eqb m m'
  | _, _ => false
  end.




(** The [Map] of the sector totals, keyed by whatever [sectorOf] yields. *)
Definition SectorTotals : Type := list (SectorKey * number).

Fixpoint sectorGet (k : SectorKey) (m : SectorTotals) : option number :=
  match m with
  | [] => None
  | (k', v) :: m' => if sector_eqb k k' then Some v else sectorGet k m'
  end.

Fixpoint sectorSet (k : SectorKey) (v : number) (m : SectorTotals)
  : SectorTotals :=
  match m with
  | [] => [(k, v)]
  | (k', v') :: m' =>
      if sector_eqb k k' then (k, v) :: m' else (k', v') :: sectorSet k v m'
  end.





(** *** Vocabulary of the statements on the allocation *)



(** The order in which [sort((a, b) => key(b) - key(a))] leaves its
    elements: no element is followed by one of a larger key. *)
Definition descending {A : Type} (key : A -> number) (a b : A) : Prop :=
  toQ (key b) <= toQ (key a).

(** Every holding has a finite current value. *)
Definition finiteValues (hs : list Holding) : Prop :=
  Forall (fun h => finite (currentValue h)) hs.

(** *** Values that are not negative *)

(** A finite number that is not negative. *)
Definition nonneg (x : number) : Prop :=
  match x with Fin a => 0 <= a | _ => False end.

(** A quote at a finite price that is not negative. *)
Definition nonnegQuote (kv : string * StockPrice) : Prop :=
  nonneg (sp_price (snd kv)).

(* ================================================================== *)
(** ** The charts (src/components/Charts) *)
(* ================================================================== *)

(** [x >= y]: false as soon as one side is [NaN]. *)
Definition ge (x y : number) : bool :=
  match x, y with
  | Fin a, Fin b => match a ?= b with Lt => false | _ => true end
  | PosInf, (Fin _ | PosInf | NegInf) => true
  | (Fin _ | NegInf), NegInf => true
  | _, _ => false
  end.

(** [x === y] on numbers: [NaN] is equal to nothing, itself included. *)
Definition strictEq (x y : number) : bool :=
  match x, y with
  | Fin a, Fin b => Qeq_bool a b
  | PosInf, PosInf | NegInf, NegInf => true
  | _, _ => false
  end.

Definition isNaN (x : number) : bool :=
  match x with NaN => true | _ => false end.

(** [array.map((x, index) => f(x, index))], counting from [index]. *)
Fixpoint mapIndexed {A B : Type} (f : A -> nat -> B) (index : nat)
    (l : list A) : list B :=
  match l with
  | [] => []
  | x :: l' => f x index :: mapIndexed f (S index) l'
  end.

(** *** The allocation pie ([PieChartAllocation.tsx], lines 15-42) *)

Definition COLORS : list string :=
  [ "#0088FE"; "#00C49F"; "#FFBB28"; "#FF8042"; "#8884D8";
    "#82CA9D"; "#FFC658"; "#FF7C7C"; "#8DD1E1"; "#D084D0";
    "#87D068"; "#FFA07A"; "#98D8C8"; "#F7DC6F"; "#BB8FCE" ]%string.

(** An element of [chartData]; [pie_color] is [None] where indexing [COLORS]
    would give [undefined]. *)
Record PieSlice : Type := mkPieSlice {
  pie_name : string;
  pie_value : number;
  pie_percentage : number;
  pie_color : option string;
  pie_quantity : number;
  pie_avgPrice : number
}.

(** The slice of one holding (lines 33-40). *)
Definition makePieSlice (totalValue : number) (holding : Holding)
    (index : nat) : PieSlice :=
  mkPieSlice (h_symbol holding) (currentValue holding)
    (if (totalValue >? lit 0)%num
     then (currentValue holding / totalValue * lit 100)%num
     else lit 0)
    (nth_error COLORS (index mod List.length COLORS))
    (h_quantity holding) (averagePrice holding).

(** [chartData] (lines 26-42). *)
Definition pieChartData (holdings : list Holding) : list PieSlice :=
  if Nat.eqb (List.length holdings) 0 then [] else
  let totalValue :=
    fold_left (fun sum holding => (sum + currentValue holding)%num)
              holdings (lit 0) in
  sortBy (fun a b => (pie_value b - pie_value a)%num)
    (mapIndexed (makePieSlice totalValue) 0
       (filter (fun holding => (currentValue holding >? lit 0)%num)
               holdings)).

(** *** The profit and loss bars ([BarChartPnL.tsx], lines 21-72) *)

(** The property [sortBy] of the component. *)
Inductive SortKey : Type := ByPnl | ByPnlPercent | BySymbol.

Record BarDatum : Type := mkBarDatum {
  bar_symbol : string;
  bar_pnl : number;
  bar_pnlPercent : number;
  bar_invested : number;
  bar_current : number;
  bar_quantity : number;
  bar_avgPrice : number;
  bar_isProfit : bool
}.

Record BarStats : Type := mkBarStats {
  st_totalPnL : number;
  st_winners : nat;
  st_losers : nat;
  st_breakeven : nat;
  st_winRate : number;
  st_biggestWinner : option BarDatum;
  st_biggestLoser : option BarDatum
}.

(** Lines 39-49. *)
Definition makeBarDatum (holding : Holding) : BarDatum :=
  mkBarDatum (h_symbol holding) (pnl holding) (pnlPercent holding)
    (investedValue holding) (currentValue holding) (h_quantity holding)
    (averagePrice holding) (ge (pnl holding) (lit 0)).

(** [array.reduce(f)] without an initial value, on an array known not to be
    empty: the first element starts the fold. *)
Definition reduceFrom {A : Type} (f : A -> A -> A) (first : A)
    (rest : list A) : A :=
  fold_left f rest first.

(** [stats] (lines 52-72); [None] is [null]. *)
Definition barStats (chartData : list BarDatum) : option BarStats :=
  if Nat.eqb (List.length chartData) 0 then None else
  let totalPnL :=
    fold_left (fun sum item => (sum + bar_pnl item)%num) chartData (lit 0) in
  let winners := filter (fun item => (bar_pnl item >? lit 0)%num) chartData in
  let losers := filter (fun item => (bar_pnl item <? lit 0)%num) chartData in
  let breakeven :=
    filter (fun item => strictEq (bar_pnl item) (lit 0)) chartData in
  let biggestWinner :=
    match winners with
    | first :: rest =>
        Some (reduceFrom
                (fun max item =>
                   if (bar_pnl item >? bar_pnl max)%num then item else max)
                first rest)
    | [] => None
    end in
  let biggestLoser :=
    match losers with
    | first :: rest =>
        Some (reduceFrom
                (fun min item =>
                   if (bar_pnl item <? bar_pnl min)%num then item else min)
                first rest)
    | [] => None
    end in
  Some (mkBarStats totalPnL (List.length winners) (List.length losers)
          (List.length breakeven)
          (if Nat.ltb 0 (List.length chartData)
           then (lit (Z.of_nat (List.length winners))
                 / lit (Z.of_nat (List.length chartData)) * lit 100)%num
           else lit 0)
          biggestWinner biggestLoser).

Section BarChart.
(** [a.localeCompare(b)], a built-in that depends on the locale of the
    browser: the development holds for whatever it returns. *)
Variable localeCompare : string -> string -> number.

(** [chartData] (lines 21-50). *)
Definition barChartData (holdings : list Holding) (sortKey : SortKey)
  : list BarDatum :=
  if Nat.eqb (List.length holdings) 0 then [] else
  let sortedHoldings :=
    match sortKey with
    | ByPnl => sortBy (fun a b => (pnl b - pnl a)%num) holdings
    | ByPnlPercent =>
        sortBy (fun a b => (pnlPercent b - pnlPercent a)%num) holdings
    | BySymbol =>
        sortBy (fun a b => localeCompare (h_symbol a) (h_symbol b)) holdings
    end in
  map makeBarDatum sortedHoldings.
End BarChart.

(** *** The growth line ([LineChartPortfolioGrowth.tsx], lines 20-56) *)

Record LinePoint : Type := mkLinePoint {
  lp_date : string;
  lp_value : number;
  lp_formattedDate : string
}.

Record LineStats : Type := mkLineStats {
  ls_firstValue : number;
  ls_lastValue : number;
  ls_maxValue : number;
  ls_minValue : number;
  ls_totalGrowth : number;
  ls_totalGrowthPercent : number;
  ls_dataPoints : nat
}.

(** [Math.max(...values)]: [NaN] as soon as one value is, [-Infinity] on no
    value at all. *)
Definition max2 (x y : number) : number :=
  match x, y with
  | NaN, _ | _, NaN => NaN
  | _, _ => if (y >? x)%num then y else x
  end.

Definition Math_max (values : list number) : number :=
  fold_left max2 values NegInf.

(** [Math.min(...values)]. *)
Definition min2 (x y : number) : number :=
  match x, y with
  | NaN, _ | _, NaN => NaN
  | _, _ => if (y <? x)%num then y else x
  end.

Definition Math_min (values : list number) : number :=
  fold_left min2 values PosInf.

(** [portfolioStats] (lines 36-56); [None] is [null]. *)
Definition portfolioStats (chartData : list LinePoint) : option LineStats :=
  if Nat.eqb (List.length chartData) 0 then None else
  let firstValue := orZero (option_map lp_value (nth_error chartData 0)) in
  let lastValue :=
    orZero (option_map lp_value
              (nth_error chartData (List.length chartData - 1))) in
  let maxValue := Math_max (map lp_value chartData) in
  let minValue := Math_min (map lp_value chartData) in
  let totalGrowth := (lastValue - firstValue)%num in
  let totalGrowthPercent :=
    if (firstValue >? lit 0)%num
    then (totalGrowth / firstValue * lit 100)%num
    else lit 0 in
  Some (mkLineStats firstValue lastValue maxValue minValue totalGrowth
          totalGrowthPercent (List.length chartData)).

Section LineChart.
Variable getTime : string -> number.
(** [new Date(s).toLocaleDateString('en-US', ...)], a built-in. *)
Variable formatDate : string -> string.

(** [chartData] (lines 20-34). *)
Definition lineChartData (tradeHistory : list TradeRecord)
    (livePrices : JsMap StockPrice) : list LinePoint :=
  if Nat.eqb (List.length tradeHistory) 0 then [] else
  let growthData :=
    calculatePortfolioGrowthOverTime getTime tradeHistory livePrices in
  map (fun item =>
         mkLinePoint (gp_date item) (gp_value item) (formatDate (gp_date item)))
      growthData.
End LineChart.

(** *** Vocabulary of the statements on the charts *)

(** How many elements of a list pass a test. *)
Definition countIf {A : Type} (test : A -> bool) (l : list A) : nat :=
  List.length (filter test l).

Definition finitePnl (hs : list Holding) : Prop :=
  Forall (fun h => finite (pnl h)) hs.


(** The holdings the pie shows. *)
Definition shownInPie (hs : list Holding) : list Holding :=
  filter (fun h => (currentValue h >? lit 0)%num) hs.

(* ================================================================== *)
(** ** The price feed (lines 253-503 and [app/dashboard/page.tsx]) *)
(* ================================================================== *)

(** *** Reconnection of [WebSocketManager] (lines 255-364) *)

(** The fields of the manager that the reconnection reads and writes (lines
    257-260).  They hold whole numbers far below [2^53], which [Z]
    represents as the language does. *)
Record Manager : Type := mkManager {
  reconnectAttempts : Z;
  maxReconnectAttempts : Z;
  reconnectDelay : Z;
  isConnecting : bool
}.

(** The manager as its constructor leaves it. *)
Definition newManager : Manager := mkManager 0 5 1000 false.

Inductive Status : Type :=
  Connecting | Connected | Disconnected | ErrorStatus.

(** What a handler does beside updating the fields. *)
Inductive Effect : Type :=
| NotifyStatus (status : Status)
| NotifyError (message : string)
| SetTimeout (delay : Z).

(** What happens to the manager. *)
Inductive SocketEvent : Type :=
| Connect (socketOpen : bool)
| Open
| Close (wasClean : bool)
| SocketError.

(** [connect] up to the creation of the socket (lines 267-280);
    [socketOpen] is whether [this.ws?.readyState === WebSocket.OPEN]. *)
Definition connect (socketOpen : bool) (m : Manager) : Manager * list Effect :=
  if socketOpen then (m, [])
  else if isConnecting m then (m, [])
  else (mkManager (reconnectAttempts m) (maxReconnectAttempts m)
                  (reconnectDelay m) true,
        [NotifyStatus Connecting]).

(** [onopen] (lines 285-292). *)
Definition onopen (m : Manager) : Manager * list Effect :=
  (mkManager 0 (maxReconnectAttempts m) 1000 false, [NotifyStatus Connected]).

(** [scheduleReconnect] (lines 348-364), up to the arming of the timer.
    [Math.pow(2, n)] is [2 ^ n] for the whole numbers [n >= 0] that reach
    it. *)
Definition scheduleReconnect (m : Manager) : Manager * list Effect :=
  let attempts := (reconnectAttempts m + 1)%Z in
  let delay := Z.min (reconnectDelay m * 2 ^ (attempts - 1)) 30000 in
  (mkManager attempts (maxReconnectAttempts m) (reconnectDelay m)
             (isConnecting m),
   [SetTimeout delay]).

(** [onclose] (lines 304-312). *)
Definition onclose (wasClean : bool) (m : Manager) : Manager * list Effect :=
  let m1 := mkManager (reconnectAttempts m) (maxReconnectAttempts m)
                      (reconnectDelay m) false in
  if negb wasClean
     && (reconnectAttempts m1 <? maxReconnectAttempts m1)%Z
  then
    let '(m2, effects) := scheduleReconnect m1 in
    (m2, NotifyStatus Disconnected :: effects)
  else (m1, [NotifyStatus Disconnected]).

(** [onerror] (lines 314-320). *)
Definition onerror (m : Manager) : Manager * list Effect :=
  (mkManager (reconnectAttempts m) (maxReconnectAttempts m)
             (reconnectDelay m) false,
   [NotifyStatus ErrorStatus; NotifyError "WebSocket connection error"]).

Definition handle (m : Manager) (e : SocketEvent) : Manager * list Effect :=
  match e with
  | Connect socketOpen => connect socketOpen m
  | Open => onopen m
  | Close wasClean => onclose wasClean m
  | SocketError => onerror m
  end.

(** The manager after a sequence of events, with all the effects in order. *)
Definition runEvents (m : Manager) (events : list SocketEvent)
  : Manager * list Effect :=
  fold_left
    (fun st e =>
       let '(m', effects) := handle (fst st) e in (m', snd st ++ effects))
    events (m, []).

(** *** The mock feed ([generateMockStockData], lines 454-471) *)

Definition mockSymbols : list string :=
  [ "AAPL"; "GOOGL"; "MSFT"; "AMZN"; "TSLA"; "META"; "NVDA"; "NFLX" ]%string.

Definition basePrice : JsMap number :=
  [ ("AAPL", lit 150); ("GOOGL", lit 2800); ("MSFT", lit 300);
    ("AMZN", lit 3200); ("TSLA", lit 800); ("META", lit 350);
    ("NVDA", lit 900); ("NFLX", lit 400) ]%string.

(** [basePrice[symbol] || 100] (line 459), for the symbols of the list above,
    which are own properties of the literal. *)
Definition baseOf (symbol : string) : number :=
  match mapGet symbol basePrice with
  | Some base => if truthy base then base else lit 100
  | None => lit 100
  end.

(** The quote built for one symbol (lines 459-470), from what
    [Math.random()] and [Date.now()] return there. *)
Definition mockQuote (random now : number) (symbol : string) : StockPrice :=
  let base := baseOf symbol in
  let change := ((random - dec 5 10) * lit 10)%num in
  let price := (base + change)%num in
  mkStockPrice symbol (roundCents price) (roundCents change)
    (Math_round (change / base * lit 10000) / lit 100)%num
    now.

(** [generateMockStockData]; [random i] and [now i] are what the [i]-th call
    of [Math.random()] and of [Date.now()] returns. *)
Definition generateMockStockData (random now : nat -> number)
  : list StockPrice :=
  mapIndexed (fun symbol i => mockQuote (random i) (now i) symbol)
             0 mockSymbols.

(** *** The prices the dashboard keeps (page.tsx, lines 48-51) *)

(** [new Map(prev.set(stockPrice.symbol, stockPrice))]. *)
Definition onPriceUpdate (prev : JsMap StockPrice) (stockPrice : StockPrice)
  : JsMap StockPrice :=
  mapSet (sp_symbol stockPrice) stockPrice prev.

(** One turn of the interval of [MockWebSocketManager] (lines 487-490), for
    the dashboard as only subscriber. *)
Definition mockTick (random now : nat -> number) (prev : JsMap StockPrice)
  : JsMap StockPrice :=
  fold_left onPriceUpdate (generateMockStockData random now) prev.

(** *** Vocabulary of the statements on the feed *)

(** The delays of the timers armed by a list of effects. *)
Definition timeouts (effects : list Effect) : list Z :=
  flat_map (fun e => match e with SetTimeout d => [d] | _ => [] end) effects.

(** What [Math.random()] may return: a finite number in [[0, 1)]. *)
Definition unitInterval (x : number) : Prop :=
  match x with Fin r => 0 <= r < 1 | _ => False end.

(** The figures of a holding that no price enters. *)
Definition costColumns (h : Holding) : string * number * number * number :=
  (h_symbol h, h_quantity h, averagePrice h, investedValue h).

(** What holds of the manager however the socket behaves. *)
Definition managerInv (m : Manager) : Prop :=
  (0 <= reconnectAttempts m <= 5)%Z
  /\ maxReconnectAttempts m = 5%Z
  /\ reconnectDelay m = 1000%Z.

(** The delays of the exponential backoff. *)
Definition backoffDelays : list Z := [1000; 2000; 4000; 8000; 16000]%Z.

(** *** Vocabulary of the statements on the growth series and the summary *)

(** The trades of the ledger dated [d] or before, in the order of the
    strings. *)
Definition tradesUpTo (d : string) (ts : list TradeRecord)
  : list TradeRecord :=
  filter (fun t => String.leb (date t) d) ts.

(** The ledger lists its trades in the order of their dates. *)
Definition inDateOrder (ts : list TradeRecord) : Prop :=
  StronglySorted (fun a b => strLe (date a) (date b)) ts.

(** After each trade of the ledger every position of the accumulator is
    above zero: no sale sells a position out, and none oversells. *)
Definition alwaysHeld (ts : list TradeRecord) : Prop :=
  forall n : nat,
    Forall (fun kv => heldPositive kv = true)
           (fst (accumulateHoldings (firstn n ts))).

(** The entry of the running map of the growth series that goes with an
    entry of the map of [calculateHoldings]. *)
Definition lotEntry (kv : string * Position) : string * Lot :=
  (fst kv, mkLot (pos_quantity (snd kv)) (totalCost (snd kv))).

(* ================================================================== *)
(** ** The engine on binary64 numbers *)
(* ================================================================== *)

(** The numbers of the language are IEEE 754 binary64 values.  [number]
    above leaves their rounding out; this module transcribes the same
    functions of lines 3-121 on the primitive floats, whose [+], [-], [*]
    and [/] round to the nearest value, ties to even, as the language's do.
    It is what the statements that depend on that rounding are evaluated
    on. *)
Module Binary64.

#[local] Set Warnings "-inexact-float".

Definition gt (x y : float) : bool := PrimFloat.ltb y x.

Definition lt (x y : float) : bool := PrimFloat.ltb x y.

(** A whole number below [2^53] as a float. *)
Definition ofZ (n : Z) : float :=
  if (n <? 0)%Z
  then PrimFloat.opp (PrimFloat.of_uint63 (Uint63.of_Z (- n)))
  else PrimFloat.of_uint63 (Uint63.of_Z n).

(** [Math.round(x)]: the special values, the zeros and the floats that are
    whole already (those of exponent 0 or more) are returned as they are; any
    other [x] is [m / 2^(-e)] up to its sign, and the result is
    [floor (x + 1/2)], computed on whole numbers, with the sign of [x] when
    it is zero. *)
Definition Math_round (x : float) : float :=
  match Prim2SF x with
  | S754_finite s m e =>
      if (0 <=? e)%Z then x
      else
        let d := (2 ^ (- e))%Z in
        let v := if s then Z.neg m else Z.pos m in
        let n := ((2 * v + d) / (2 * d))%Z in
        if (n =? 0)%Z && s then PrimFloat.opp PrimFloat.zero else ofZ n
  | _ => x
  end.

(** [Math.round(x * 100) / 100]. *)
Definition roundCents (x : float) : float :=
  PrimFloat.div (Math_round (PrimFloat.mul x 100)) 100.

Record TradeRecord : Type := mkTrade {
  date : string;
  symbol : string;
  quantity : float;
  price : float;
  transactionType : TransactionType
}.

Record StockPrice : Type := mkStockPrice {
  sp_symbol : string;
  sp_price : float;
  change : float;
  changePercent : float;
  timestamp : float
}.

Record Holding : Type := mkHolding {
  h_symbol : string;
  h_quantity : float;
  averagePrice : float;
  investedValue : float;
  currentValue : float;
  pnl : float;
  pnlPercent : float
}.

Record PortfolioSummary : Type := mkSummary {
  totalInvested : float;
  totalCurrentValue : float;
  totalPnL : float;
  totalPnLPercent : float;
  holdings : list Holding
}.

Record Position : Type := mkPosition {
  pos_quantity : float;
  totalCost : float;
  trades : list TradeRecord
}.

Record PnL : Type := mkPnL {
  absolute : float;
  percentage : float
}.

(** *** [calculateHoldings] (lines 3-40) *)

Definition avgCostPerShare (heldQuantity heldCost : float) : float :=
  if gt heldQuantity 0 then PrimFloat.div heldCost heldQuantity else 0%float.

Definition accountTrade (heldQuantity heldCost : float) (trade : TradeRecord)
  : float * float :=
  match transactionType trade with
  | buy =>
      (PrimFloat.add heldQuantity (quantity trade),
       PrimFloat.add heldCost (PrimFloat.mul (quantity trade) (price trade)))
  | sell =>
      let avg := avgCostPerShare heldQuantity heldCost in
      let costToReduce := PrimFloat.mul (quantity trade) avg in
      (PrimFloat.sub heldQuantity (quantity trade),
       PrimFloat.sub heldCost costToReduce)
  end.

Definition existingPosition (holdings : JsMap Position) (sym : string)
  : Position :=
  match mapGet sym holdings with
  | Some p => p
  | None => mkPosition 0 0 []
  end.

Definition holdingsStep (st : JsMap Position * list string)
    (trade : TradeRecord) : JsMap Position * list string :=
  let '(hs, console) := st in
  let existing := existingPosition hs (symbol trade) in
  let '(q, c) :=
    accountTrade (pos_quantity existing) (totalCost existing) trade in
  let console' :=
    match transactionType trade with
    | sell =>
        if lt q 0
        then console ++ [negativeQuantityWarning (symbol trade)]
        else console
    | buy => console
    end in
  (mapSet (symbol trade) (mkPosition q c (trades existing ++ [trade])) hs,
   console').

Definition accumulateHoldings (tradeHistory : list TradeRecord)
  : JsMap Position * list string :=
  fold_left holdingsStep tradeHistory ([], []).

Definition filterHoldings (hs : JsMap Position) : JsMap Position :=
  fold_left
    (fun filtered kv =>
       if gt (pos_quantity (snd kv)) 0
       then mapSet (fst kv) (snd kv) filtered
       else filtered)
    hs [].

Definition calculateHoldings (tradeHistory : list TradeRecord)
  : JsMap Position :=
  filterHoldings (fst (accumulateHoldings tradeHistory)).

Definition calculateHoldings_console (tradeHistory : list TradeRecord)
  : list string :=
  snd (accumulateHoldings tradeHistory).

(** *** Valuation (lines 42-121) *)

Definition isBuy (trade : TradeRecord) : bool :=
  match transactionType trade with buy => true | sell => false end.

Definition calculateAveragePrice (sym : string) (ts : list TradeRecord)
  : float :=
  let symbolTrades :=
    filter (fun trade => String.eqb (symbol trade) sym && isBuy trade) ts in
  if Nat.eqb (List.length symbolTrades) 0 then 0%float else
  let totalQuantity :=
    fold_left (fun sum trade => PrimFloat.add sum (quantity trade))
              symbolTrades 0%float in
  let totalValue :=
    fold_left
      (fun sum trade =>
         PrimFloat.add sum (PrimFloat.mul (quantity trade) (price trade)))
      symbolTrades 0%float in
  if gt totalQuantity 0
  then PrimFloat.div totalValue totalQuantity
  else 0%float.

Definition calculateInvestedValue (tradeHistory : list TradeRecord) : float :=
  fold_left
    (fun total trade =>
       PrimFloat.add total (PrimFloat.mul (quantity trade) (price trade)))
    (filter isBuy tradeHistory) 0%float.

Definition calculateCurrentValue (livePrices : JsMap StockPrice)
    (hs : JsMap Position) : float :=
  fold_left
    (fun totalValue kv =>
       match mapGet (fst kv) livePrices with
       | Some currentPrice =>
           if gt (pos_quantity (snd kv)) 0
           then PrimFloat.add totalValue
                  (PrimFloat.mul (pos_quantity (snd kv))
                                 (sp_price currentPrice))
           else totalValue
       | None => totalValue
       end)
    hs 0%float.

Definition calculatePnL (invested current : float) : PnL :=
  let abs := PrimFloat.sub current invested in
  let pct :=
    if gt invested 0
    then PrimFloat.mul (PrimFloat.div abs invested) 100
    else 0%float in
  mkPnL (roundCents abs) (roundCents pct).

(** The stable sort of [Array.prototype.sort(comparator)]. *)
Fixpoint insertBy {A : Type} (cmp : A -> A -> float) (x : A) (l : list A)
  : list A :=
  match l with
  | [] => [x]
  | y :: l' =>
      if gt (cmp x y) 0 then y :: insertBy cmp x l' else x :: y :: l'
  end.

Definition sortBy {A : Type} (cmp : A -> A -> float) (l : list A) : list A :=
  fold_right (insertBy cmp) [] l.

Definition rawAveragePrice (p : Position) : float :=
  if gt (pos_quantity p) 0
  then PrimFloat.div (totalCost p) (pos_quantity p)
  else 0%float.

Definition rawCurrentValue (livePrices : JsMap StockPrice) (sym : string)
    (p : Position) : float :=
  match mapGet sym livePrices with
  | Some currentPrice => PrimFloat.mul (pos_quantity p) (sp_price currentPrice)
  | None => 0%float
  end.

Definition makeHolding (livePrices : JsMap StockPrice) (kv : string * Position)
  : Holding :=
  let '(sym, holding) := kv in
  let avgPrice := rawAveragePrice holding in
  let curValue := rawCurrentValue livePrices sym holding in
  let invValue := totalCost holding in
  let stockPnL := calculatePnL invValue curValue in
  mkHolding sym (pos_quantity holding)
            (roundCents avgPrice) (roundCents invValue) (roundCents curValue)
            (absolute stockPnL) (percentage stockPnL).

Definition calculatePortfolioSummary (tradeHistory : list TradeRecord)
    (livePrices : JsMap StockPrice) : PortfolioSummary :=
  let hs := calculateHoldings tradeHistory in
  let invested := calculateInvestedValue tradeHistory in
  let current := calculateCurrentValue livePrices hs in
  let total := calculatePnL invested current in
  let holdingsArray := map (makeHolding livePrices) hs in
  mkSummary (roundCents invested) (roundCents current)
            (absolute total) (percentage total)
            (sortBy (fun a b => PrimFloat.sub (currentValue b) (currentValue a))
                    holdingsArray).

(** A quote at a price. *)
Definition quote (sym : string) (p : float) : string * StockPrice :=
  (sym, mkStockPrice sym p 0 0 0).

(** *** Ledgers that the rounding of binary64 shows on *)

(** [0.3 + 1.1] is [1.4000000000000001], a hair above the [1.4] then sold. *)
Definition cancellingLedger : list TradeRecord :=
  [ mkTrade "2024-01-02" "X" 0.3 1 buy;
    mkTrade "2024-01-03" "X" 1.1 7 buy;
    mkTrade "2024-01-04" "X" 1.4 7 sell ].

(** 199 shares at 1 and one at 2: a mean price of [201/200 = 1.005]. *)
Definition halfCentMeanLedger : list TradeRecord :=
  [ mkTrade "2024-01-02" "X" 199 1 buy;
    mkTrade "2024-01-03" "X" 1 2 buy ].

(** One share at [0.045], the float just below four cents and a half. *)
Definition belowHalfCentLedger : list TradeRecord :=
  [ mkTrade "2024-01-02" "X" 1 0.045 buy ].



End Binary64.

(* ================================================================== *)
(** * Properties *)
(* ================================================================== *)

(** ** Numbers *)

Lemma num_eq_refl (x : number) : x =n= x.
Proof. destruct x; simpl; auto with qarith. Qed.

Lemma num_eq_sym (x y : number) : x =n= y -> y =n= x.
Proof. destruct x, y; simpl; auto with qarith. Qed.

Lemma num_eq_trans (x y z : number) : x =n= y -> y =n= z -> x =n= z.
Proof.
  destruct x, y, z; simpl; try tauto.
  intros H1 H2. now rewrite H1.
Qed.

#[export] Instance num_eq_Equivalence : Equivalence num_eq.
Proof.
  split.
  - exact num_eq_refl.
  - exact num_eq_sym.
  - exact num_eq_trans.
Qed.

Lemma num_eqb_spec (x y : number) : num_eqb x y = true <-> x =n= y.
Proof.
  destruct x, y; simpl; try (split; [discriminate | tauto]); try tauto.
  apply Qeq_bool_iff.
Qed.

#[export] Instance signedInf_Proper :
  Proper (eq ==> eq ==> num_eq) signedInf.
Proof. intros s s' <- p p' <-. reflexivity. Qed.

#[export] Instance add_Proper : Proper (num_eq ==> num_eq ==> num_eq) add.
Proof.
  intros [a| | |] [a'| | |] Ha [b| | |] [b'| | |] Hb;
    simpl in *; try tauto.
  now rewrite Ha, Hb.
Qed.

#[export] Instance neg_Proper : Proper (num_eq ==> num_eq) neg.
Proof.
  intros [a| | |] [a'| | |] Ha; simpl in *; try tauto. now rewrite Ha.
Qed.

#[export] Instance sub_Proper : Proper (num_eq ==> num_eq ==> num_eq) sub.
Proof. intros x x' Hx y y' Hy. unfold sub. now rewrite Hx, Hy. Qed.

#[export] Instance mul_Proper : Proper (num_eq ==> num_eq ==> num_eq) mul.
Proof.
  intros [a| | |] [a'| | |] Ha [b| | |] [b'| | |] Hb;
    simpl in *; try tauto;
    try (rewrite Ha; reflexivity); try (rewrite Hb; reflexivity).
  now rewrite Ha, Hb.
Qed.

#[export] Instance div_Proper : Proper (num_eq ==> num_eq ==> num_eq) div.
Proof.
  intros [a| | |] [a'| | |] Ha [b| | |] [b'| | |] Hb;
    cbn [num_eq div] in *; try tauto;
    try (rewrite Hb; destruct (b' ?= 0); reflexivity);
    try exact (Qeq_refl 0).
  assert (Eb : (b ?= 0) = (b' ?= 0)) by now rewrite Hb.
  assert (Ea : (a ?= 0) = (a' ?= 0)) by now rewrite Ha.
  rewrite Eb, Ea.
  destruct (b' ?= 0); try reflexivity; cbn [num_eq]; now rewrite Ha, Hb.
Qed.

#[export] Instance gt_Proper : Proper (num_eq ==> num_eq ==> eq) gt.
Proof.
  intros [a| | |] [a'| | |] Ha [b| | |] [b'| | |] Hb;
    simpl in *; try tauto.
  now rewrite Ha, Hb.
Qed.

#[export] Instance lt_Proper : Proper (num_eq ==> num_eq ==> eq) lt.
Proof. intros x x' Hx y y' Hy. unfold lt. now rewrite Hx, Hy. Qed.

#[export] Instance Math_round_Proper : Proper (num_eq ==> num_eq) Math_round.
Proof.
  intros [a| | |] [a'| | |] Ha; cbn [num_eq Math_round] in *; try tauto.
  now rewrite Ha.
Qed.


Lemma gt_Fin (a b : Q) : (Fin a >? Fin b)%num = true <-> b < a.
Proof.
  cbn [gt]. rewrite Qlt_alt, <- (Qcompare_antisym a b).
  destruct (a ?= b); cbn [CompOpp]; split; intro H; congruence.
Qed.

Lemma gt_Fin_false (a b : Q) : (Fin a >? Fin b)%num = false <-> a <= b.
Proof.
  rewrite <- Bool.not_true_iff_false, gt_Fin. split; intro H.
  - now apply Qnot_lt_le.
  - now apply Qle_not_lt.
Qed.


Lemma div_Fin (a b : Q) : ~ b == 0 -> (Fin a / Fin b)%num = Fin (a / b).
Proof.
  intro Hb. simpl. destruct (b ?= 0) eqn:E; try reflexivity.
  apply Qeq_alt in E. contradiction.
Qed.

(** The cent-rounding idiom on a finite value. *)
Lemma roundCents_Fin (a : Q) :
  roundCents (Fin a)
  = Fin (inject_Z (Qfloor (a * inject_Z 100 + (1 # 2))) / inject_Z 100).
Proof. reflexivity. Qed.

Lemma finite_iff (x : number) : finite x <-> exists a, x = Fin a.
Proof.
  destruct x; simpl; split; try tauto; try (intros [a Ha]; discriminate).
  intros _. now exists q.
Qed.

Lemma finite_add (x y : number) : finite x -> finite y -> finite (x + y)%num.
Proof. destruct x, y; simpl; tauto. Qed.

Lemma finite_sub (x y : number) : finite x -> finite y -> finite (x - y)%num.
Proof. destruct x, y; simpl; tauto. Qed.

Lemma finite_mul (x y : number) : finite x -> finite y -> finite (x * y)%num.
Proof. destruct x, y; simpl; tauto. Qed.

(** A division is finite as soon as its divisor has passed the test [> 0]. *)
Lemma finite_div_guarded (x y : number) :
  finite x -> (y >? lit 0)%num = true -> finite (x / y)%num.
Proof.
  destruct x as [a| | |], y as [b| | |];
    cbn [finite gt div lit]; try tauto; try discriminate.
  intros _. change (inject_Z 0) with 0.
  destruct (b ?= 0); cbn [finite]; auto; discriminate.
Qed.

Lemma finite_roundCents (x : number) : finite x -> finite (roundCents x).
Proof. destruct x; simpl; tauto. Qed.

Lemma finite_lit (z : Z) : finite (lit z).
Proof. exact I. Qed.

Create HintDb finite.
#[export] Hint Resolve finite_add finite_sub finite_mul finite_div_guarded
  finite_roundCents finite_lit : finite.

(** ** Maps *)

Section JsMapFacts.
Context {V : Type}.
Implicit Types (m : JsMap V) (k : string) (v : V).

Lemma mapGet_mapSet_eq k v m : mapGet k (mapSet k v m) = Some v.
Proof.
  induction m as [|[k' v'] m IH]; simpl.
  - now rewrite String.eqb_refl.
  - destruct (String.eqb k k') eqn:E; simpl.
    + now rewrite String.eqb_refl.
    + now rewrite E.
Qed.

Lemma mapGet_mapSet_neq k k' v m :
  k <> k' -> mapGet k (mapSet k' v m) = mapGet k m.
Proof.
  intro Hne. apply String.eqb_neq in Hne.
  induction m as [|[k0 v0] m IH]; simpl.
  - now rewrite Hne.
  - destruct (String.eqb k' k0) eqn:E; simpl.
    + apply String.eqb_eq in E. subst k0. now rewrite Hne.
    + now rewrite IH.
Qed.

Lemma mapGet_None k m : mapGet k m = None <-> ~ In k (mapKeys m).
Proof.
  induction m as [|[k0 v0] m IH]; simpl.
  - tauto.
  - destruct (String.eqb k k0) eqn:E.
    + apply String.eqb_eq in E. subst. split; [discriminate | tauto].
    + apply String.eqb_neq in E. rewrite IH. split.
      * intros H [H0 | H0]; [now subst | tauto].
      * tauto.
Qed.

Lemma mapGet_Some_In k v m : mapGet k m = Some v -> In (k, v) m.
Proof.
  induction m as [|[k0 v0] m IH]; simpl; [discriminate|].
  destruct (String.eqb k k0) eqn:E.
  - apply String.eqb_eq in E. intros [= ->]. subst. now left.
  - auto.
Qed.

Lemma In_mapGet k v m : NoDup (mapKeys m) -> In (k, v) m -> mapGet k m = Some v.
Proof.
  induction m as [|[k0 v0] m IH]; simpl; [tauto|].
  intros Hnd [H | H]; inversion Hnd; subst.
  - injection H as -> ->. now rewrite String.eqb_refl.
  - destruct (String.eqb k k0) eqn:E; auto.
    apply String.eqb_eq in E. subst k0.
    exfalso. apply H2. change k with (fst (k, v)). now apply in_map.
Qed.

Lemma mapKeys_mapSet k v m :
  mapKeys (mapSet k v m)
  = match mapGet k m with
    | Some _ => mapKeys m
    | None => mapKeys m ++ [k]
    end.
Proof.
  induction m as [|[k0 v0] m IH]; simpl; auto.
  destruct (String.eqb k k0) eqn:E; simpl.
  - apply String.eqb_eq in E. now subst.
  - rewrite IH. now destruct (mapGet k m).
Qed.

Lemma mapSet_fresh k v m : mapGet k m = None -> mapSet k v m = m ++ [(k, v)].
Proof.
  induction m as [|[k0 v0] m IH]; simpl; auto.
  destruct (String.eqb k k0); [discriminate|].
  intro H. now rewrite IH.
Qed.

Lemma In_mapKeys_mapSet k k' v m :
  In k (mapKeys (mapSet k' v m)) <-> k = k' \/ In k (mapKeys m).
Proof.
  rewrite mapKeys_mapSet. destruct (mapGet k' m) eqn:E.
  - split; auto. intros [-> | H]; auto.
    apply mapGet_Some_In in E. change k' with (fst (k', v0)).
    now apply in_map.
  - rewrite in_app_iff. simpl. intuition.
Qed.

Lemma NoDup_mapKeys_mapSet k v m :
  NoDup (mapKeys m) -> NoDup (mapKeys (mapSet k v m)).
Proof.
  intro H. rewrite mapKeys_mapSet. destruct (mapGet k m) eqn:E; auto.
  apply mapGet_None in E.
  apply NoDup_rev in H. rewrite <- (rev_involutive (mapKeys m ++ [k])).
  apply NoDup_rev. rewrite rev_app_distr. simpl. constructor; auto.
  now rewrite <- in_rev.
Qed.

Lemma In_mapKeys_mapDelete k k' m :
  In k (mapKeys (mapDelete k' m)) -> In k (mapKeys m).
Proof.
  induction m as [|[k0 v0] m IH]; simpl; auto.
  destruct (String.eqb k' k0); simpl; tauto.
Qed.

Lemma NoDup_mapKeys_mapDelete k m :
  NoDup (mapKeys m) -> NoDup (mapKeys (mapDelete k m)).
Proof.
  induction m as [|[k0 v0] m IH]; simpl; auto.
  intro H. inversion H; subst.
  destruct (String.eqb k k0); simpl; auto.
  constructor; auto. intro Hin. apply H2.
  now apply In_mapKeys_mapDelete in Hin.
Qed.

Lemma mapGet_mapDelete_eq k m :
  NoDup (mapKeys m) -> mapGet k (mapDelete k m) = None.
Proof.
  induction m as [|[k0 v0] m IH]; simpl; auto.
  intro H. inversion H; subst.
  destruct (String.eqb k k0) eqn:E; simpl.
  - apply String.eqb_eq in E. subst. now apply mapGet_None.
  - rewrite E. auto.
Qed.
End JsMapFacts.

(** ** The holdings aggregator, trade by trade *)

Lemma accumulateHoldings_snoc (ts : list TradeRecord) (t : TradeRecord) :
  accumulateHoldings (ts ++ [t]) = holdingsStep (accumulateHoldings ts) t.
Proof. unfold accumulateHoldings. now rewrite fold_left_app. Qed.

Lemma fst_holdingsStep (st : JsMap Position * list string) (t : TradeRecord) :
  fst (holdingsStep st t)
  = let existing := existingPosition (fst st) (symbol t) in
    mapSet (symbol t)
      (mkPosition
         (fst (accountTrade (pos_quantity existing) (totalCost existing) t))
         (snd (accountTrade (pos_quantity existing) (totalCost existing) t))
         (trades existing ++ [t]))
      (fst st).
Proof.
  destruct st as [hs console]. unfold holdingsStep. cbn [fst].
  destruct (accountTrade _ _ t) as [q c]. reflexivity.
Qed.

(** C1, counterexample.  After buying 10 shares and selling 20, the position
    of X holds -10 shares at a cost of -50.  A further sale of 5 shares leaves
    the cost at -50 in the code, which takes the average cost to be 0 because
    the quantity held is not positive; the rule as the claim words it divides
    -50 by -10 and brings the cost to -75. *)
Lemma sell_below_zero_keeps_cost :
  let t := mkTrade "2024-01-04" "X" (lit 5) (lit 5) sell in
  let existing :=
    existingPosition (fst (accumulateHoldings oversoldLedger)) "X" in
  exists p',
    mapGet "X" (fst (accumulateHoldings (oversoldLedger ++ [t]))) = Some p'
    /\ pos_quantity existing =n= lit (-10)
    /\ totalCost existing =n= lit (-50)
    /\ totalCost p' =n= lit (-50)
    /\ (totalCost existing
        - quantity t * spec_avgCostPerShare (pos_quantity existing)
                                            (totalCost existing))%num
       =n= lit (-75)
    /\ num_eqb (totalCost p')
         (totalCost existing
          - quantity t * spec_avgCostPerShare (pos_quantity existing)
                                              (totalCost existing))%num
       = false.
Proof.
  eexists. split; [vm_compute; reflexivity|].
  repeat split; vm_compute; reflexivity.
Qed.

(** C1, as amended.  The aggregator takes the trades in the order given: the
    accumulator after [ts ++ [t]] is the accumulator after [ts] stepped by
    [t].  The step always records a position for the symbol of [t]
    (whatever the sign of the resulting quantity), computed from the position
    held before ([0], [0] for a symbol not seen yet): a buy adds
    [t.quantity] to the quantity and [t.quantity * t.price] to the cost; a
    sell takes the average cost per share to be [totalCost / quantity] when
    the quantity held is greater than 0 and 0 otherwise, subtracts
    [t.quantity] times that average from the cost and [t.quantity] from the
    quantity.  The positions of the other symbols are untouched.  A sell that
    leaves the quantity below 0 fails nothing: the position is recorded as
    computed and one warning is written to the console. *)
Theorem holdings_aggregator_step (ts : list TradeRecord) (t : TradeRecord) :
  let st := accumulateHoldings ts in
  let st' := accumulateHoldings (ts ++ [t]) in
  let existing := existingPosition (fst st) (symbol t) in
  st' = holdingsStep st t
  /\ (exists p',
        mapGet (symbol t) (fst st') = Some p'
        /\ trades p' = trades existing ++ [t]
        /\ match transactionType t with
           | buy =>
               pos_quantity p' = (pos_quantity existing + quantity t)%num
               /\ totalCost p'
                  = (totalCost existing + quantity t * price t)%num
           | sell =>
               let avg :=
                 if (pos_quantity existing >? lit 0)%num
                 then (totalCost existing / pos_quantity existing)%num
                 else lit 0 in
               pos_quantity p' = (pos_quantity existing - quantity t)%num
               /\ totalCost p' = (totalCost existing - quantity t * avg)%num
           end)
  /\ (forall s, s <> symbol t -> mapGet s (fst st') = mapGet s (fst st))
  /\ snd st'
     = match transactionType t with
       | buy => snd st
       | sell =>
           if (pos_quantity existing - quantity t <? lit 0)%num
           then snd st ++ [negativeQuantityWarning (symbol t)]
           else snd st
       end.
Proof.
  intros st st' existing. subst st'.
  rewrite accumulateHoldings_snoc. fold st.
  split; [reflexivity|]. rewrite fst_holdingsStep. cbv zeta. fold existing.
  split; [|split].
  - eexists. split; [apply mapGet_mapSet_eq|].
    cbn [trades pos_quantity totalCost].
    split; [reflexivity|].
    unfold accountTrade, avgCostPerShare.
    destruct (transactionType t); cbn [fst snd]; split; reflexivity.
  - intros s Hs. now apply mapGet_mapSet_neq.
  - subst existing. destruct st as [hs console].
    unfold holdingsStep, accountTrade. cbn [fst snd].
    destruct (transactionType t); reflexivity.
Qed.

(** ** The public view of the holdings *)

Lemma NoDup_holdingsStep (st : JsMap Position * list string) (t : TradeRecord) :
  NoDup (mapKeys (fst st)) -> NoDup (mapKeys (fst (holdingsStep st t))).
Proof. intro H. rewrite fst_holdingsStep. now apply NoDup_mapKeys_mapSet. Qed.

Lemma NoDup_accumulateHoldings (ts : list TradeRecord) :
  NoDup (mapKeys (fst (accumulateHoldings ts))).
Proof.
  induction ts as [|t ts IH] using rev_ind.
  - constructor.
  - rewrite accumulateHoldings_snoc. now apply NoDup_holdingsStep.
Qed.

Lemma filterHoldings_from (hs acc : JsMap Position) :
  NoDup (mapKeys hs) ->
  (forall k, In k (mapKeys hs) -> ~ In k (mapKeys acc)) ->
  fold_left
    (fun filtered kv =>
       if heldPositive kv then mapSet (fst kv) (snd kv) filtered else filtered)
    hs acc
  = acc ++ filter heldPositive hs.
Proof.
  revert acc. induction hs as [|[k p] hs IH]; intros acc Hnd Hdisj; simpl.
  - now rewrite app_nil_r.
  - inversion Hnd as [|? ? Hk Hnd']; subst.
    destruct (heldPositive (k, p)) eqn:E.
    + rewrite IH; auto.
      * rewrite mapSet_fresh.
        -- now rewrite <- app_assoc.
        -- apply mapGet_None. apply Hdisj. now left.
      * intros k' Hk' Hin. apply In_mapKeys_mapSet in Hin.
        destruct Hin as [-> | Hin]; [contradiction|].
        apply (Hdisj k'); [now right | assumption].
    + apply IH; auto. intros k' Hk'. apply Hdisj. now right.
Qed.

Lemma filterHoldings_filter (hs : JsMap Position) :
  NoDup (mapKeys hs) -> filterHoldings hs = filter heldPositive hs.
Proof.
  intro H. unfold filterHoldings.
  change (fold_left _ hs []) with
    (fold_left
       (fun filtered kv =>
          if heldPositive kv then mapSet (fst kv) (snd kv) filtered
          else filtered) hs []).
  now rewrite filterHoldings_from.
Qed.

Lemma calculateHoldings_filter (ts : list TradeRecord) :
  calculateHoldings ts = filter heldPositive (fst (accumulateHoldings ts)).
Proof. apply filterHoldings_filter, NoDup_accumulateHoldings. Qed.

Lemma mapGet_filter {V : Type} (P : string * V -> bool) (k : string)
    (m : JsMap V) :
  NoDup (mapKeys m) ->
  mapGet k (filter P m)
  = match mapGet k m with
    | Some v => if P (k, v) then Some v else None
    | None => None
    end.
Proof.
  induction m as [|[k0 v0] m IH]; simpl; auto.
  intro Hnd. inversion Hnd as [|? ? Hk Hnd']; subst.
  destruct (String.eqb k k0) eqn:E.
  - apply String.eqb_eq in E. subst k0.
    destruct (P (k, v0)) eqn:EP; simpl.
    + now rewrite String.eqb_refl.
    + apply mapGet_None. intro Hin. apply Hk.
      unfold mapKeys in *. apply in_map_iff in Hin.
      destruct Hin as [kv [Hkv Hin]]. apply filter_In in Hin.
      apply in_map_iff. exists kv. tauto.
  - destruct (P (k0, v0)); simpl; [rewrite E|]; auto.
Qed.

Lemma NoDup_mapKeys_filter {V : Type} (P : string * V -> bool) (m : JsMap V) :
  NoDup (mapKeys m) -> NoDup (mapKeys (filter P m)).
Proof.
  induction m as [|[k0 v0] m IH]; simpl; auto.
  intro Hnd. inversion Hnd as [|? ? Hk Hnd']; subst.
  destruct (P (k0, v0)); simpl; auto.
  constructor; auto. intro Hin. apply Hk.
  unfold mapKeys in *. apply in_map_iff in Hin.
  destruct Hin as [kv [Hkv Hin]]. apply filter_In in Hin.
  apply in_map_iff. exists kv. tauto.
Qed.

Lemma NoDup_calculateHoldings (ts : list TradeRecord) :
  NoDup (mapKeys (calculateHoldings ts)).
Proof.
  rewrite calculateHoldings_filter.
  apply NoDup_mapKeys_filter, NoDup_accumulateHoldings.
Qed.

Lemma calculateHoldings_positive (ts : list TradeRecord) :
  Forall (fun kv => heldPositive kv = true) (calculateHoldings ts).
Proof.
  rewrite calculateHoldings_filter. apply Forall_forall.
  intros kv Hin. now apply filter_In in Hin.
Qed.

(** ** The sort of the holdings *)

Lemma insertBy_Permutation {A : Type} (cmp : A -> A -> number) (x : A)
    (l : list A) :
  Permutation (insertBy cmp x l) (x :: l).
Proof.
  induction l as [|y l IH]; simpl; auto.
  destruct (cmp x y >? lit 0)%num; auto.
  rewrite IH. apply perm_swap.
Qed.

Lemma sortBy_Permutation {A : Type} (cmp : A -> A -> number) (l : list A) :
  Permutation (sortBy cmp l) l.
Proof.
  induction l as [|x l IH]; simpl; auto.
  rewrite insertBy_Permutation. now constructor.
Qed.

Lemma summary_holdings_Permutation (ts : list TradeRecord)
    (livePrices : JsMap StockPrice) :
  Permutation (holdings (calculatePortfolioSummary ts livePrices))
              (map (makeHolding livePrices) (calculateHoldings ts)).
Proof. apply sortBy_Permutation. Qed.

Lemma summary_holding_inv (ts : list TradeRecord)
    (livePrices : JsMap StockPrice) (h : Holding) :
  In h (holdings (calculatePortfolioSummary ts livePrices)) ->
  exists sym p,
    mapGet sym (calculateHoldings ts) = Some p
    /\ h = makeHolding livePrices (sym, p).
Proof.
  intro Hin.
  apply (Permutation_in _ (summary_holdings_Permutation ts livePrices)) in Hin.
  apply in_map_iff in Hin. destruct Hin as [[sym p] [<- Hin]].
  exists sym, p. split; auto.
  apply In_mapGet; auto. apply NoDup_calculateHoldings.
Qed.

(** C6.  Every entry of the map that [calculateHoldings] returns, and every
    [Holding] of the summary, has a quantity greater than 0; the view is the
    raw accumulator without the symbols whose final quantity is not greater
    than 0. *)
Theorem holdings_view_quantity_positive (ts : list TradeRecord)
    (livePrices : JsMap StockPrice) :
  Forall (fun kv => (pos_quantity (snd kv) >? lit 0)%num = true)
         (calculateHoldings ts)
  /\ Forall (fun h => (h_quantity h >? lit 0)%num = true)
            (holdings (calculatePortfolioSummary ts livePrices))
  /\ forall sym,
       mapGet sym (calculateHoldings ts)
       = match mapGet sym (fst (accumulateHoldings ts)) with
         | Some p => if (pos_quantity p >? lit 0)%num then Some p else None
         | None => None
         end.
Proof.
  split; [exact (calculateHoldings_positive ts)|]. split.
  - apply Forall_forall. intros h Hin.
    destruct (summary_holding_inv _ _ _ Hin) as [sym [p [Hget ->]]].
    apply mapGet_Some_In in Hget.
    pose proof (calculateHoldings_positive ts) as Hpos.
    rewrite Forall_forall in Hpos. exact (Hpos _ Hget).
  - intro sym. rewrite calculateHoldings_filter.
    apply (mapGet_filter heldPositive), NoDup_accumulateHoldings.
Qed.

(** ** The worked example *)

(** C3.  On the ledger (buy 100 AAPL at 150.50, sell 50 AAPL at 155.00) and
    the quote AAPL = 160.00, the view holds one position, of quantity 50 and
    cost 7525, and the summary holds one [Holding], with [averagePrice] 150.50,
    [investedValue] 7525.00, [currentValue] 8000.00, [pnl] 475.00 and
    [pnlPercent] 6.31. *)
Theorem worked_example :
  exists p h,
    calculateHoldings exampleLedger = [("AAPL"%string, p)]
    /\ pos_quantity p =n= lit 50
    /\ totalCost p =n= lit 7525
    /\ holdings (calculatePortfolioSummary exampleLedger examplePrices) = [h]
    /\ h_symbol h = "AAPL"%string
    /\ h_quantity h =n= lit 50
    /\ averagePrice h =n= dec 15050 100
    /\ investedValue h =n= lit 7525
    /\ currentValue h =n= lit 8000
    /\ pnl h =n= lit 475
    /\ pnlPercent h =n= dec 631 100.
Proof.
  do 2 eexists. split; [vm_compute; reflexivity|].
  split; [vm_compute; reflexivity|].
  split; [vm_compute; reflexivity|].
  split; [vm_compute; reflexivity|].
  repeat split; vm_compute; reflexivity.
Qed.

(** ** Rounding to the cent *)


Lemma Qfloor_unique (z : Q) (k : Z) :
  inject_Z k <= z -> z < inject_Z k + 1 -> Qfloor z = k.
Proof.
  intros H1 H2.
  pose proof (Qfloor_le z) as H3. pose proof (Qlt_floor z) as H4.
  rewrite inject_Z_plus in H4. change (inject_Z 1) with 1 in H4.
  assert (A : inject_Z (Qfloor z) < inject_Z (k + 1)).
  { rewrite inject_Z_plus. change (inject_Z 1) with 1. lra. }
  assert (B : inject_Z k < inject_Z (Qfloor z + 1)).
  { rewrite inject_Z_plus. change (inject_Z 1) with 1. lra. }
  rewrite <- Zlt_Qlt in A, B. lia.
Qed.

(** [Math.round] returns the whole number nearest to its argument, the
    larger of the two on a tie. *)
Lemma Math_round_nearest (y : Q) :
  exists n : Z,
    Math_round (Fin y) = Fin (inject_Z n)
    /\ y - (1 # 2) < inject_Z n
    /\ inject_Z n <= y + (1 # 2).
Proof.
  exists (Qfloor (y + (1 # 2))).
  split; [reflexivity|]. split.
  - pose proof (Qlt_floor (y + (1 # 2))) as H.
    rewrite inject_Z_plus in H. change (inject_Z 1) with 1 in H. lra.
  - apply Qfloor_le.
Qed.

Lemma Math_round_nonneg_spec (y : Q) :
  0 <= y ->
  Math_round (Fin y) = Fin (inject_Z (spec_roundHalfAwayFromZeroZ y)).
Proof.
  intro H. unfold spec_roundHalfAwayFromZeroZ.
  now rewrite (proj2 (Qle_bool_iff 0 y) H).
Qed.

Lemma Math_round_neg_spec (y : Q) :
  y < 0 ->
  let x := y + (1 # 2) in
  (inject_Z (Qfloor x) < x ->
   Math_round (Fin y) = Fin (inject_Z (spec_roundHalfAwayFromZeroZ y)))
  /\ (inject_Z (Qfloor x) == x ->
      Math_round (Fin y)
      = Fin (inject_Z (spec_roundHalfAwayFromZeroZ y + 1))).
Proof.
  intros Hy x.
  assert (Hb : Qle_bool 0 y = false).
  { apply Bool.not_true_iff_false. rewrite Qle_bool_iff. lra. }
  pose proof (Qfloor_le x) as H1. pose proof (Qlt_floor x) as H2.
  rewrite inject_Z_plus in H2. change (inject_Z 1) with 1 in H2.
  unfold spec_roundHalfAwayFromZeroZ. rewrite Hb. cbn [Math_round]. fold x.
  split; intro Hx.
  - rewrite (Qfloor_unique (- y + (1 # 2)) (- Qfloor x)).
    + now rewrite Z.opp_involutive.
    + rewrite inject_Z_opp. subst x. lra.
    + rewrite inject_Z_opp. subst x. lra.
  - rewrite (Qfloor_unique (- y + (1 # 2)) (- Qfloor x + 1)).
    + do 2 f_equal. lia.
    + rewrite inject_Z_plus, inject_Z_opp. change (inject_Z 1) with 1.
      subst x. lra.
    + rewrite inject_Z_plus, inject_Z_opp. change (inject_Z 1) with 1.
      subst x. lra.
Qed.

(** C9, counterexample.  One share bought at 0.125 and no quote: the holding
    has an invested value of 0.125 and a current value of 0, so its profit is
    -0.125, half way between -0.13 and -0.12.  The code reports -0.12;
    rounding half away from zero gives -0.13.  And on binary64, one share
    bought at the float [0.045], which lies below four cents and a half, has
    an invested value of 0.05, not of 0.04: [0.045 * 100] is the float
    [4.5]. *)
Lemma negative_half_cent_rounds_up :
  (exists h,
     holdings (calculatePortfolioSummary halfCentLedger []) = [h]
     /\ (rawCurrentValue [] "X" (mkPosition (lit 1) (dec 125 1000) [])
         - dec 125 1000)%num =n= dec (-125) 1000
     /\ pnl h =n= dec (-12) 100
     /\ spec_roundHalfAwayFromZero (-125 # 1000) == -13 # 100
     /\ num_eqb (pnl h) (Fin (spec_roundHalfAwayFromZero (-125 # 1000)))
        = false)
  /\ exists h,
       Binary64.holdings
         (Binary64.calculatePortfolioSummary Binary64.belowHalfCentLedger [])
       = [h]
       /\ Prim2SF (Binary64.totalCost
                     (Binary64.existingPosition
                        (Binary64.calculateHoldings
                           Binary64.belowHalfCentLedger) "X"))
          = S754_finite false 6485183463413514 (-57)
       /\ (6485183463413514 * 1000 < 45 * 2 ^ 57)%Z
       /\ PrimFloat.mul 0.045 100 = 4.5%float
       /\ Binary64.investedValue h = 0.05%float.
Proof.
  split.
  - eexists. split; [vm_compute; reflexivity|].
    repeat split; vm_compute; reflexivity.
  - eexists. split; [vm_compute; reflexivity|].
    repeat split; vm_compute; reflexivity.
Qed.

(** C9, as amended.  Every figure of the summary is the unrounded figure put
    through [Math.round(x * 100) / 100]: per holding the average price, the
    cost basis, the current value, the profit and the profit percentage, and
    in aggregate the two totals, the total profit and its percentage.
    [Math.round] returns the whole number nearest to the product it is given,
    a half going to the larger neighbour (towards plus infinity).  On a
    product that is not negative this is rounding half away from zero; so it
    is on a negative product off the halves, while a negative product on a
    half comes out one above what rounding half away from zero gives.  The
    product [x * 100] is the one the code computes: on binary64 it is rounded
    itself, so that the figure shown is not always the cent nearest to
    [x]. *)
Theorem outputs_rounded_half_up (ts : list TradeRecord)
    (livePrices : JsMap StockPrice) :
  let s := calculatePortfolioSummary ts livePrices in
  let invested := calculateInvestedValue ts in
  let current := calculateCurrentValue livePrices (calculateHoldings ts) in
  Forall
    (fun h =>
       exists sym p,
         mapGet sym (calculateHoldings ts) = Some p
         /\ h_symbol h = sym
         /\ averagePrice h = roundCents (rawAveragePrice p)
         /\ investedValue h = roundCents (totalCost p)
         /\ currentValue h = roundCents (rawCurrentValue livePrices sym p)
         /\ pnl h
            = roundCents (rawCurrentValue livePrices sym p - totalCost p)%num
         /\ pnlPercent h
            = roundCents
                (if (totalCost p >? lit 0)%num
                 then ((rawCurrentValue livePrices sym p - totalCost p)
                       / totalCost p * lit 100)%num
                 else lit 0))
    (holdings s)
  /\ totalInvested s = roundCents invested
  /\ totalCurrentValue s = roundCents current
  /\ totalPnL s = roundCents (current - invested)%num
  /\ totalPnLPercent s
     = roundCents
         (if (invested >? lit 0)%num
          then ((current - invested) / invested * lit 100)%num
          else lit 0)
  /\ (forall x, roundCents x = (Math_round (x * lit 100) / lit 100)%num)
  /\ (forall y : Q,
        exists n : Z,
          Math_round (Fin y) = Fin (inject_Z n)
          /\ y - (1 # 2) < inject_Z n
          /\ inject_Z n <= y + (1 # 2))
  /\ (forall y : Q,
        0 <= y ->
        Math_round (Fin y) = Fin (inject_Z (spec_roundHalfAwayFromZeroZ y)))
  /\ (forall y : Q,
        y < 0 ->
        let x := y + (1 # 2) in
        (inject_Z (Qfloor x) < x ->
         Math_round (Fin y) = Fin (inject_Z (spec_roundHalfAwayFromZeroZ y)))
        /\ (inject_Z (Qfloor x) == x ->
            Math_round (Fin y)
            = Fin (inject_Z (spec_roundHalfAwayFromZeroZ y + 1)))).
Proof.
  intros s invested current. subst s invested current.
  split; [|split; [|split; [|split; [|split; [|split; [|split; [|split]]]]]]];
    try reflexivity.
  - apply Forall_forall. intros h Hin.
    destruct (summary_holding_inv _ _ _ Hin) as [sym [p [Hget ->]]].
    exists sym, p. repeat split; auto.
  - exact Math_round_nearest.
  - exact Math_round_nonneg_spec.
  - exact Math_round_neg_spec.
Qed.

(** ** The order of strings *)

Lemma ascii_compare_Lt_trans (a b c : ascii) :
  Ascii.compare a b = Lt -> Ascii.compare b c = Lt -> Ascii.compare a c = Lt.
Proof.
  unfold Ascii.compare. rewrite !N.compare_lt_iff. apply N.lt_trans.
Qed.

Lemma string_compare_Lt_trans (s1 s2 s3 : string) :
  String.compare s1 s2 = Lt -> String.compare s2 s3 = Lt ->
  String.compare s1 s3 = Lt.
Proof.
  revert s2 s3.
  induction s1 as [|a s1 IH]; intros [|b s2] [|c s3]; simpl;
    try congruence.
  destruct (Ascii.compare a b) eqn:Eab; try discriminate;
    destruct (Ascii.compare b c) eqn:Ebc; try discriminate; intros H1 H2.
  - apply Ascii.compare_eq_iff in Eab, Ebc. subst.
    assert (E : Ascii.compare c c = Eq)
      by (unfold Ascii.compare; apply N.compare_refl).
    rewrite E. eauto.
  - apply Ascii.compare_eq_iff in Eab. subst. now rewrite Ebc.
  - apply Ascii.compare_eq_iff in Ebc. subst. now rewrite Eab.
  - now rewrite (ascii_compare_Lt_trans _ _ _ Eab Ebc).
Qed.

#[export] Instance strLt_Transitive : Transitive strLt.
Proof.
  intros a b c. unfold strLt, String.ltb.
  destruct (String.compare a b) eqn:Eab; try discriminate.
  destruct (String.compare b c) eqn:Ebc; try discriminate.
  now rewrite (string_compare_Lt_trans _ _ _ Eab Ebc).
Qed.

Lemma string_compare_refl (a : string) : String.compare a a = Eq.
Proof.
  induction a as [|c a IH]; simpl; auto.
  unfold Ascii.compare. now rewrite N.compare_refl.
Qed.

Lemma strLt_irrefl (a : string) : ~ strLt a a.
Proof.
  unfold strLt, String.ltb. rewrite string_compare_refl. discriminate.
Qed.

Lemma ltb_false_strLe (a b : string) : String.ltb a b = false -> strLe b a.
Proof.
  unfold strLe, String.ltb, String.leb. rewrite (String.compare_antisym b a).
  destruct (String.compare a b); simpl; congruence.
Qed.

Lemma strLt_strLe (a b : string) : strLt a b -> strLe a b.
Proof.
  unfold strLt, strLe, String.ltb, String.leb.
  destruct (String.compare a b); congruence.
Qed.

Lemma strLe_neq_strLt (a b : string) : strLe a b -> a <> b -> strLt a b.
Proof.
  unfold strLt, strLe, String.ltb, String.leb. intros Hle Hne.
  destruct (String.compare a b) eqn:E; try congruence.
  now apply String.compare_eq_iff in E.
Qed.

(** ** The default sort of the dates *)

Lemma insertString_Permutation (x : string) (l : list string) :
  Permutation (insertString x l) (x :: l).
Proof.
  induction l as [|y l IH]; simpl; auto.
  destruct (String.ltb y x); auto.
  rewrite IH. apply perm_swap.
Qed.

Lemma sortStrings_Permutation (l : list string) :
  Permutation (sortStrings l) l.
Proof.
  induction l as [|x l IH]; simpl; auto.
  rewrite insertString_Permutation. now constructor.
Qed.

Lemma insertString_HdRel (a x : string) (l : list string) :
  strLe a x -> HdRel strLe a l -> HdRel strLe a (insertString x l).
Proof.
  intros Hax Hal. destruct l as [|y l]; simpl.
  - now constructor.
  - inversion Hal; subst. destruct (String.ltb y x); now constructor.
Qed.

Lemma insertString_Sorted (x : string) (l : list string) :
  Sorted strLe l -> Sorted strLe (insertString x l).
Proof.
  induction l as [|y l IH]; intro Hs; simpl.
  - repeat constructor.
  - inversion Hs as [|? ? Hs' Hhd]; subst.
    destruct (String.ltb y x) eqn:E.
    + constructor; auto.
      apply insertString_HdRel; auto. now apply strLt_strLe.
    + constructor; auto. constructor. now apply ltb_false_strLe.
Qed.

Lemma sortStrings_Sorted (l : list string) : Sorted strLe (sortStrings l).
Proof.
  induction l as [|x l IH]; simpl.
  - constructor.
  - now apply insertString_Sorted.
Qed.

Lemma Sorted_NoDup_strict (l : list string) :
  Sorted strLe l -> NoDup l -> StronglySorted strLt l.
Proof.
  intros Hs Hnd. apply Sorted_StronglySorted; [exact strLt_Transitive|].
  induction Hs as [|a l Hs IH Hhd]; [constructor|].
  inversion Hnd as [|? ? Ha Hnd']; subst.
  constructor; auto.
  destruct Hhd as [|b l Hab]; constructor.
  apply strLe_neq_strLt; auto.
  intros ->. apply Ha. now left.
Qed.

(** ** Grouping the trades by date *)

Lemma groupByDate_snoc (l : list TradeRecord) (t : TradeRecord) :
  groupByDate (l ++ [t])
  = mapSet (date t) (tradesOn (groupByDate l) (date t) ++ [t]) (groupByDate l).
Proof. unfold groupByDate. now rewrite fold_left_app. Qed.

Lemma In_mapKeys_groupByDate (l : list TradeRecord) (d : string) :
  In d (mapKeys (groupByDate l)) <-> In d (map date l).
Proof.
  induction l as [|t l IH] using rev_ind.
  - simpl. tauto.
  - rewrite groupByDate_snoc, In_mapKeys_mapSet, IH, map_app, in_app_iff.
    simpl. intuition.
Qed.

Lemma NoDup_groupByDate (l : list TradeRecord) :
  NoDup (mapKeys (groupByDate l)).
Proof.
  induction l as [|t l IH] using rev_ind.
  - constructor.
  - rewrite groupByDate_snoc. now apply NoDup_mapKeys_mapSet.
Qed.

(** The trades filed under a date are the trades of that date, in the order
    of the list that was grouped. *)
Lemma tradesOn_groupByDate (l : list TradeRecord) (d : string) :
  tradesOn (groupByDate l) d = filter (fun t => String.eqb (date t) d) l.
Proof.
  induction l as [|t l IH] using rev_ind; auto.
  rewrite groupByDate_snoc, filter_app. simpl. unfold tradesOn at 1.
  destruct (String.eqb (date t) d) eqn:E.
  - apply String.eqb_eq in E. subst d.
    now rewrite mapGet_mapSet_eq, IH.
  - apply String.eqb_neq in E.
    rewrite mapGet_mapSet_neq by congruence.
    fold (tradesOn (groupByDate l) d). now rewrite IH, app_nil_r.
Qed.

(** ** The loop over the dates *)

Lemma fst_growthDays (tradesByDate : JsMap (list TradeRecord))
    (livePrices : JsMap StockPrice) (ds : list string)
    (st : JsMap Lot * list GrowthPoint) :
  fst (fold_left (growthDay tradesByDate livePrices) ds st)
  = runningMapAfter tradesByDate (fst st) ds.
Proof.
  revert st. induction ds as [|d ds IH]; intro st; simpl; [reflexivity|].
  apply IH.
Qed.

Lemma dates_growthDays (tradesByDate : JsMap (list TradeRecord))
    (livePrices : JsMap StockPrice) (ds : list string)
    (st : JsMap Lot * list GrowthPoint) :
  map gp_date (snd (fold_left (growthDay tradesByDate livePrices) ds st))
  = map gp_date (snd st) ++ ds.
Proof.
  revert st. induction ds as [|d ds IH]; intro st; simpl.
  - now rewrite app_nil_r.
  - rewrite IH. simpl. rewrite map_app. simpl. now rewrite <- app_assoc.
Qed.

Section GrowthFacts.
Variable getTime : string -> number.

Lemma sortTradesByDate_Permutation (ts : list TradeRecord) :
  Permutation (sortTradesByDate getTime ts) ts.
Proof. apply sortBy_Permutation. Qed.

Lemma In_growthDates (ts : list TradeRecord) (d : string) :
  In d (growthDates getTime ts) <-> In d (map date ts).
Proof.
  unfold growthDates. split; intro H.
  - apply (Permutation_in _ (sortStrings_Permutation _)) in H.
    apply In_mapKeys_groupByDate in H.
    revert H. apply Permutation_in, Permutation_map.
    apply sortTradesByDate_Permutation.
  - apply (Permutation_in _ (Permutation_sym (sortStrings_Permutation _))).
    apply In_mapKeys_groupByDate.
    revert H. apply Permutation_in, Permutation_map, Permutation_sym.
    apply sortTradesByDate_Permutation.
Qed.

Lemma NoDup_growthDates (ts : list TradeRecord) :
  NoDup (growthDates getTime ts).
Proof.
  unfold growthDates.
  apply (Permutation_NoDup (Permutation_sym (sortStrings_Permutation _))).
  apply NoDup_groupByDate.
Qed.

Lemma growthDates_strict (ts : list TradeRecord) :
  StronglySorted strLt (growthDates getTime ts).
Proof.
  apply Sorted_NoDup_strict.
  - apply sortStrings_Sorted.
  - apply NoDup_growthDates.
Qed.

Lemma dates_of_series (ts : list TradeRecord)
    (livePrices : JsMap StockPrice) :
  map gp_date (calculatePortfolioGrowthOverTime getTime ts livePrices)
  = growthDates getTime ts.
Proof.
  unfold calculatePortfolioGrowthOverTime, growthLoop.
  destruct ts as [|t ts]; [reflexivity|].
  cbn [List.length Nat.eqb]. now rewrite dates_growthDays.
Qed.

(** C4.  The dates of the growth series are the dates of the ledger, each
    once: a date is in the series exactly when a trade of the ledger bears
    it, no date occurs twice, and the series is as long as the ledger has
    distinct dates.  The dates are strictly ascending in the order the
    code sorts them by, the order of strings; whenever that order agrees
    with time on the dates of the ledger (as it does for dates written
    yyyy-mm-dd), the series is strictly ascending in time.  An empty ledger
    gives an empty series. *)
Theorem growth_series_dates (ts : list TradeRecord)
    (livePrices : JsMap StockPrice) :
  let series := calculatePortfolioGrowthOverTime getTime ts livePrices in
  (forall d, In d (map gp_date series) <-> In d (map date ts))
  /\ NoDup (map gp_date series)
  /\ List.length series
     = List.length (nodup string_dec (map date ts))
  /\ StronglySorted strLt (map gp_date series)
  /\ ((forall a b, In a (map date ts) -> In b (map date ts) -> strLt a b ->
       (getTime b >? getTime a)%num = true) ->
      StronglySorted (fun a b => (getTime b >? getTime a)%num = true)
                     (map gp_date series))
  /\ calculatePortfolioGrowthOverTime getTime [] livePrices = [].
Proof.
  intro series. subst series. rewrite dates_of_series.
  split; [|split; [|split; [|split; [|split]]]].
  - intro d. apply In_growthDates.
  - apply NoDup_growthDates.
  - rewrite <- (length_map gp_date), dates_of_series.
    apply Permutation_length, NoDup_Permutation.
    + apply NoDup_growthDates.
    + apply NoDup_nodup.
    + intro d. rewrite In_growthDates, nodup_In. tauto.
  - apply growthDates_strict.
  - intro Hmono.
    assert (Hin : forall d, In d (growthDates getTime ts) ->
                            In d (map date ts))
      by (intro d; apply In_growthDates).
    pose proof (growthDates_strict ts) as Hs.
    induction Hs as [|a l Hs IH Hall]; constructor.
    + apply IH. intros d Hd. apply Hin. now right.
    + rewrite Forall_forall in *. intros b Hb.
      apply Hmono; [apply Hin; now left | apply Hin; now right | auto].
  - reflexivity.
Qed.
End GrowthFacts.

(** ** The running map of the growth reconstruction *)

Lemma Forall_mapSet {V : Type} (P : string * V -> Prop) (k : string) (v : V)
    (m : JsMap V) :
  P (k, v) -> Forall P m -> Forall P (mapSet k v m).
Proof.
  intros Hv Hm. induction Hm as [|[k0 v0] m H0 Hm IH]; simpl.
  - now constructor.
  - destruct (String.eqb k k0); constructor; auto.
Qed.

Lemma Forall_mapDelete {V : Type} (P : string * V -> Prop) (k : string)
    (m : JsMap V) :
  Forall P m -> Forall P (mapDelete k m).
Proof.
  intro Hm. induction Hm as [|[k0 v0] m H0 Hm IH]; simpl; auto.
  destruct (String.eqb k k0); auto.
Qed.

Lemma growthTrade_inv (hs : JsMap Lot) (t : TradeRecord) :
  runningInv hs -> runningInv (growthTrade hs t).
Proof.
  intros [Hpos Hnd]. unfold growthTrade.
  destruct (accountTrade _ _ t) as [q c].
  destruct (q >? lit 0)%num eqn:E; split.
  - apply Forall_mapSet; auto.
  - now apply NoDup_mapKeys_mapSet.
  - now apply Forall_mapDelete.
  - now apply NoDup_mapKeys_mapDelete.
Qed.

Lemma growthTrades_inv (l : list TradeRecord) (hs : JsMap Lot) :
  runningInv hs -> runningInv (fold_left growthTrade l hs).
Proof.
  revert hs. induction l as [|t l IH]; intros hs H; simpl; auto.
  apply IH. now apply growthTrade_inv.
Qed.

Lemma runningMapAfter_inv (tradesByDate : JsMap (list TradeRecord))
    (ds : list string) (hs : JsMap Lot) :
  runningInv hs -> runningInv (runningMapAfter tradesByDate hs ds).
Proof.
  revert hs. induction ds as [|d ds IH]; intros hs H; simpl; auto.
  apply IH. now apply growthTrades_inv.
Qed.

(** A trade that leaves its symbol with a quantity not greater than 0 takes
    the symbol out of the running map. *)
Lemma growthTrade_removes (hs : JsMap Lot) (t : TradeRecord) :
  NoDup (mapKeys hs) ->
  (fst (accountTrade (lot_quantity (existingLot hs (symbol t)))
                     (lot_totalCost (existingLot hs (symbol t))) t)
   >? lit 0)%num = false ->
  mapGet (symbol t) (growthTrade hs t) = None.
Proof.
  intros Hnd Hq. unfold growthTrade.
  destruct (accountTrade _ _ t) as [q c]. cbn [fst] in Hq. rewrite Hq.
  now apply mapGet_mapDelete_eq.
Qed.

(** C5, counterexample.  X is bought and the price lookup is empty: X has no
    quote, and yet after the date of the purchase the running map of the
    growth reconstruction holds X with its 10 shares.  Only the value of the
    point, 0, leaves X out. *)
Lemma unquoted_symbol_stays_in_running_map :
  mapGet "X" ([] : JsMap StockPrice) = None
  /\ exists lot,
       lot_quantity lot =n= lit 10
       /\ (forall getTime,
             mapGet "X"
               (fst (growthLoop getTime unquotedLedger []
                       (growthDates getTime unquotedLedger)))
             = Some lot)
       /\ (forall getTime,
             exists v,
               calculatePortfolioGrowthOverTime getTime unquotedLedger []
               = [mkGrowthPoint "2024-01-02" v]
               /\ v =n= lit 0).
Proof.
  split; [reflexivity|]. eexists. split; [|split].
  2: { intro getTime. vm_compute. reflexivity. }
  - vm_compute. reflexivity.
  - intro getTime. eexists. split; vm_compute; reflexivity.
Qed.

(** The removal is from the map and not only from the output: once X has been
    oversold and removed, a later purchase starts again from nothing, where
    [calculateHoldings] carries the negative quantity on. *)
Example removed_lot_restarts_from_zero :
  let ledger :=
    [ mkTrade "2024-01-02" "X" (lit 10) (lit 5) buy;
      mkTrade "2024-01-03" "X" (lit 20) (lit 5) sell;
      mkTrade "2024-01-04" "X" (lit 5) (lit 5) buy ] in
  (exists lot,
     mapGet "X"
       (runningMapAfter (groupByDate ledger) []
          ["2024-01-02"; "2024-01-03"; "2024-01-04"]%string)
     = Some lot
     /\ lot_quantity lot =n= lit 5)
  /\ mapGet "X"
       (runningMapAfter (groupByDate ledger) []
          ["2024-01-02"; "2024-01-03"]%string)
     = None
  /\ exists p,
       mapGet "X" (fst (accumulateHoldings ledger)) = Some p
       /\ pos_quantity p =n= lit (-5).
Proof.
  split; [|split].
  - eexists. split; vm_compute; reflexivity.
  - reflexivity.
  - eexists. split; vm_compute; reflexivity.
Qed.

Section RunningMap.
Variable getTime : string -> number.

(** C5, as amended.  After any number [n] of dates of the loop, every symbol
    of the running map has a quantity greater than 0 (and is there once): a
    symbol whose quantity has settled at 0 or below is not in the map.  It
    leaves the map at the very trade that takes its quantity there.  The
    price lookup plays no part in the map: with other quotes, or none, the
    map is the same, so a symbol without a quote stays in it and is left out
    of the value of the point only. *)
Theorem running_map_keeps_positive_lots (ts : list TradeRecord)
    (livePrices : JsMap StockPrice) (n : nat) :
  let ds := firstn n (growthDates getTime ts) in
  let running := fst (growthLoop getTime ts livePrices ds) in
  Forall (fun kv => (lot_quantity (snd kv) >? lit 0)%num = true) running
  /\ NoDup (mapKeys running)
  /\ (forall otherPrices : JsMap StockPrice,
        fst (growthLoop getTime ts otherPrices ds) = running)
  /\ (forall t : TradeRecord,
        (fst (accountTrade (lot_quantity (existingLot running (symbol t)))
                           (lot_totalCost (existingLot running (symbol t))) t)
         >? lit 0)%num = false ->
        mapGet (symbol t) (growthTrade running t) = None).
Proof.
  intros ds running.
  assert (Hrun : running
                 = runningMapAfter (groupByDate (sortTradesByDate getTime ts))
                                   [] ds).
  { subst running. unfold growthLoop. now rewrite fst_growthDays. }
  assert (Hinv : runningInv running).
  { rewrite Hrun. apply runningMapAfter_inv. split; constructor. }
  destruct Hinv as [Hpos Hnd].
  split; [exact Hpos|]. split; [exact Hnd|]. split.
  - intro otherPrices. rewrite Hrun. unfold growthLoop.
    now rewrite fst_growthDays.
  - intros t Hq. now apply growthTrade_removes.
Qed.
End RunningMap.

(** ** Guarded divisions and finite outputs *)
















Section Guards.
Variable getTime : string -> number.


End Guards.

(** ** The average price of a symbol that was only bought *)


Lemma tradesOf_snoc (sym : string) (ts : list TradeRecord) (t : TradeRecord) :
  tradesOf sym (ts ++ [t])
  = tradesOf sym ts ++ (if String.eqb (symbol t) sym then [t] else []).
Proof. unfold tradesOf. now rewrite filter_app. Qed.

Lemma validTrade_Fin (t : TradeRecord) :
  validTrade t ->
  quantity t = Fin (toQ (quantity t)) /\ price t = Fin (toQ (price t))
  /\ 0 < toQ (quantity t) /\ 0 < toQ (price t).
Proof.
  intros [Hq Hp]. destruct (quantity t), (price t); simpl in *; tauto.
Qed.

Lemma existingPosition_step (st : JsMap Position * list string)
    (t : TradeRecord) (sym : string) :
  existingPosition (fst (holdingsStep st t)) sym
  = if String.eqb (symbol t) sym
    then
      let existing := existingPosition (fst st) (symbol t) in
      mkPosition
        (fst (accountTrade (pos_quantity existing) (totalCost existing) t))
        (snd (accountTrade (pos_quantity existing) (totalCost existing) t))
        (trades existing ++ [t])
    else existingPosition (fst st) sym.
Proof.
  rewrite fst_holdingsStep. cbv zeta. unfold existingPosition at 1.
  destruct (String.eqb (symbol t) sym) eqn:E.
  - apply String.eqb_eq in E. subst sym. now rewrite mapGet_mapSet_eq.
  - apply String.eqb_neq in E.
    rewrite mapGet_mapSet_neq by congruence. reflexivity.
Qed.

Lemma accumulateHoldings_bought (sym : string) (ts : list TradeRecord) :
  onlyBought sym ts ->
  pos_quantity (existingPosition (fst (accumulateHoldings ts)) sym)
  = boughtQuantity sym ts
  /\ totalCost (existingPosition (fst (accumulateHoldings ts)) sym)
     = boughtValue sym ts.
Proof.
  unfold onlyBought, boughtQuantity, boughtValue.
  induction ts as [|t ts IH] using rev_ind; intro H.
  - split; reflexivity.
  - apply Forall_app in H. destruct H as [Hts Ht].
    inversion Ht as [|? ? Ht' _]; subst.
    destruct (IH Hts) as [IHq IHc].
    rewrite accumulateHoldings_snoc, existingPosition_step, tradesOf_snoc.
    destruct (String.eqb (symbol t) sym) eqn:E.
    + apply String.eqb_eq in E. subst sym.
      destruct (Ht' eq_refl) as [Hbuy _].
      cbv zeta. cbn [pos_quantity totalCost].
      unfold accountTrade. rewrite Hbuy. cbn [fst snd].
      rewrite !fold_left_app. cbn [fold_left]. now rewrite IHq, IHc.
    + rewrite !app_nil_r. now split.
Qed.

Lemma In_mapKeys_accumulateHoldings (sym : string) (ts : list TradeRecord) :
  In sym (mapKeys (fst (accumulateHoldings ts))) <-> In sym (map symbol ts).
Proof.
  induction ts as [|t ts IH] using rev_ind.
  - simpl. tauto.
  - rewrite accumulateHoldings_snoc, fst_holdingsStep. cbv zeta.
    rewrite In_mapKeys_mapSet, IH, map_app, in_app_iff. simpl. intuition.
Qed.

Lemma sumQ_positive (l : list Q) :
  Forall (fun x => 0 < x) l -> l <> [] -> 0 < sumQ l.
Proof.
  intros H Hne. destruct H as [|x l Hx Hl]; [congruence|]. clear Hne.
  simpl. assert (0 <= sumQ l); [|lra].
  induction Hl as [|y l Hy Hl IH]; simpl; lra.
Qed.

Lemma tradedQuantity_positive (sym : string) (ts : list TradeRecord) :
  onlyBought sym ts -> (exists t, In t ts /\ symbol t = sym) ->
  0 < tradedQuantity sym ts.
Proof.
  intros H [t [Hin Hsym]]. unfold tradedQuantity.
  apply sumQ_positive.
  - apply Forall_forall. intros x Hx. apply in_map_iff in Hx.
    destruct Hx as [t' [<- Ht']]. apply filter_In in Ht'.
    destruct Ht' as [Ht' E]. apply String.eqb_eq in E.
    unfold onlyBought in H. rewrite Forall_forall in H.
    destruct (H _ Ht' E) as [_ Hv]. now apply validTrade_Fin in Hv.
  - intro Hnil. apply map_eq_nil in Hnil.
    assert (Hin' : In t (tradesOf sym ts)).
    { apply filter_In. split; auto. now apply String.eqb_eq. }
    rewrite Hnil in Hin'. contradiction.
Qed.

Lemma fold_add_Fin {A : Type} (f : A -> number) (g : A -> Q) (l : list A)
    (a : Q) :
  Forall (fun x => f x = Fin (g x)) l ->
  fold_left (fun sum x => (sum + f x)%num) l (Fin a)
  =n= Fin (a + sumQ (map g l)).
Proof.
  intro H. revert a.
  induction H as [|x l Hx Hl IH]; intro a; simpl.
  - ring.
  - rewrite Hx. cbn [add]. rewrite IH. cbn [num_eq]. ring.
Qed.

Lemma bought_sums (sym : string) (ts : list TradeRecord) :
  onlyBought sym ts ->
  boughtQuantity sym ts =n= Fin (tradedQuantity sym ts)
  /\ boughtValue sym ts =n= Fin (tradedValue sym ts).
Proof.
  intro H.
  assert (Hfin : Forall (fun t => quantity t = Fin (toQ (quantity t))
                                  /\ price t = Fin (toQ (price t)))
                        (tradesOf sym ts)).
  { apply Forall_forall. intros t Hin. apply filter_In in Hin.
    destruct Hin as [Hin E]. apply String.eqb_eq in E.
    unfold onlyBought in H. rewrite Forall_forall in H.
    destruct (H _ Hin E) as [_ Hv]. apply validTrade_Fin in Hv. tauto. }
  rewrite Forall_forall in Hfin.
  unfold boughtQuantity, boughtValue, tradedQuantity, tradedValue. split.
  - etransitivity.
    + apply (fold_add_Fin quantity (fun t => toQ (quantity t)) _ 0).
      apply Forall_forall. intros t Hin.
      now destruct (Hfin _ Hin) as [Eq _].
    + cbn [num_eq]. ring.
  - etransitivity.
    + apply (fold_add_Fin (fun t => (quantity t * price t)%num)
               (fun t => toQ (quantity t) * toQ (price t)) _ 0).
      apply Forall_forall. intros t Hin.
      destruct (Hfin _ Hin) as [Eq Ep]. rewrite Eq, Ep. reflexivity.
    + cbn [num_eq]. ring.
Qed.

Lemma boughtQuantity_positive (sym : string) (ts : list TradeRecord) :
  onlyBought sym ts -> (exists t, In t ts /\ symbol t = sym) ->
  (boughtQuantity sym ts >? lit 0)%num = true.
Proof.
  intros H Hex.
  rewrite (gt_Proper _ _ (proj1 (bought_sums sym ts H)) _ _
             (num_eq_refl (lit 0))).
  apply gt_Fin. now apply tradedQuantity_positive.
Qed.

Lemma tradedValue_nonneg (sym : string) (ts : list TradeRecord) :
  onlyBought sym ts -> 0 <= tradedValue sym ts.
Proof.
  intro H. unfold tradedValue.
  assert (Hpos : Forall (fun t => 0 < toQ (quantity t) /\ 0 < toQ (price t))
                        (tradesOf sym ts)).
  { apply Forall_forall. intros t Hin. apply filter_In in Hin.
    destruct Hin as [Hin E]. apply String.eqb_eq in E.
    unfold onlyBought in H. rewrite Forall_forall in H.
    destruct (H _ Hin E) as [_ Hv]. apply validTrade_Fin in Hv. tauto. }
  induction Hpos as [|t l [Hq Hp] _ IH]; simpl; [lra|].
  pose proof (Qmult_lt_0_compat _ _ Hq Hp). lra.
Qed.

Lemma calculateAveragePrice_bought (sym : string) (ts : list TradeRecord) :
  onlyBought sym ts -> (exists t, In t ts /\ symbol t = sym) ->
  calculateAveragePrice sym ts
  = (boughtValue sym ts / boughtQuantity sym ts)%num.
Proof.
  intros H Hex.
  pose proof (boughtQuantity_positive sym ts H Hex) as Hg.
  unfold calculateAveragePrice.
  assert (Efilter :
            filter (fun trade => String.eqb (symbol trade) sym && isBuy trade)
                   ts
            = tradesOf sym ts).
  { apply filter_ext_in. intros t Hin.
    destruct (String.eqb (symbol t) sym) eqn:E; auto.
    apply String.eqb_eq in E. unfold onlyBought in H.
    rewrite Forall_forall in H. destruct (H _ Hin E) as [Hbuy _].
    unfold isBuy. now rewrite Hbuy. }
  rewrite Efilter. cbv zeta.
  destruct (tradesOf sym ts) as [|t0 l] eqn:El.
  { destruct Hex as [t [Hin Hsym]].
    assert (Hin' : In t (tradesOf sym ts)).
    { apply filter_In. split; auto. now apply String.eqb_eq. }
    rewrite El in Hin'. contradiction. }
  cbn [List.length Nat.eqb]. rewrite <- El.
  fold (boughtQuantity sym ts). fold (boughtValue sym ts).
  now rewrite Hg.
Qed.

(** C8, counterexample.  One share of X bought at 1 and two at 2: the
    weighted mean of the prices is 5/3.  The [averagePrice] of the holding is
    1.67.  And on binary64, 199 shares bought at 1 and one at 2: the weighted
    mean of the prices is 201/200; what [calculateAveragePrice] returns is
    the float next below it, and the [averagePrice] of the holding is 1. *)
Lemma average_price_is_rounded :
  (exists h,
     holdings (calculatePortfolioSummary twoBuysLedger []) = [h]
     /\ h_symbol h = "X"%string
     /\ weightedMeanPrice "X" twoBuysLedger == 5 # 3
     /\ averagePrice h =n= dec 167 100
     /\ num_eqb (averagePrice h) (Fin (weightedMeanPrice "X" twoBuysLedger))
        = false)
  /\ exists h,
       Binary64.holdings
         (Binary64.calculatePortfolioSummary Binary64.halfCentMeanLedger [])
       = [h]
       /\ Prim2SF (Binary64.calculateAveragePrice "X"
                     Binary64.halfCentMeanLedger)
          = S754_finite false 4526117625507348 (-52)
       /\ (4526117625507348 * 200 < 201 * 2 ^ 52)%Z
       /\ Binary64.averagePrice h = 1%float.
Proof.
  split.
  - eexists. split; [vm_compute; reflexivity|].
    repeat split; vm_compute; reflexivity.
  - eexists. split; [vm_compute; reflexivity|].
    repeat split; vm_compute; reflexivity.
Qed.

(** C8, as amended.  When every trade of a symbol in the ledger is a buy, at
    a positive quantity and price, and there is at least one, the position of
    the symbol holds the sum of the quantities at the sum of the
    [quantity * price], both taken from 0 in the order of the ledger; the
    first is above zero, so that its unrounded average price, and what
    [calculateAveragePrice] returns, is the second divided by the first: the
    quantity-weighted mean of the prices as the arithmetic of the language
    computes it.  The symbol is listed, and the [averagePrice] of its
    [Holding] is that quotient put through [Math.round(x * 100) / 100]. *)
Theorem average_price_weighted_mean (ts : list TradeRecord) (sym : string)
    (livePrices : JsMap StockPrice) :
  onlyBought sym ts ->
  (exists t, In t ts /\ symbol t = sym) ->
  let totalQuantity := boughtQuantity sym ts in
  let totalValue := boughtValue sym ts in
  (totalQuantity >? lit 0)%num = true
  /\ calculateAveragePrice sym ts = (totalValue / totalQuantity)%num
  /\ (exists p,
        mapGet sym (calculateHoldings ts) = Some p
        /\ pos_quantity p = totalQuantity
        /\ totalCost p = totalValue
        /\ rawAveragePrice p = (totalValue / totalQuantity)%num)
  /\ Forall (fun h => h_symbol h = sym ->
                      averagePrice h
                      = roundCents (totalValue / totalQuantity)%num)
            (holdings (calculatePortfolioSummary ts livePrices))
  /\ exists h,
       In h (holdings (calculatePortfolioSummary ts livePrices))
       /\ h_symbol h = sym.
Proof.
  intros H Hex totalQuantity totalValue. subst totalQuantity totalValue.
  pose proof (boughtQuantity_positive sym ts H Hex) as Hg.
  destruct (accumulateHoldings_bought sym ts H) as [Hq Hc].
  assert (Hraw : exists p, mapGet sym (fst (accumulateHoldings ts)) = Some p).
  { destruct (mapGet sym (fst (accumulateHoldings ts))) as [p|] eqn:E;
      [now exists p|].
    apply mapGet_None in E. exfalso. apply E.
    apply In_mapKeys_accumulateHoldings.
    destruct Hex as [t [Hin <-]]. now apply in_map. }
  destruct Hraw as [p Hp].
  unfold existingPosition in Hq, Hc. rewrite Hp in Hq, Hc.
  assert (Hview : mapGet sym (calculateHoldings ts) = Some p).
  { rewrite calculateHoldings_filter.
    rewrite (mapGet_filter heldPositive) by apply NoDup_accumulateHoldings.
    rewrite Hp. unfold heldPositive. cbn [snd]. now rewrite Hq, Hg. }
  assert (Havg : rawAveragePrice p
                 = (boughtValue sym ts / boughtQuantity sym ts)%num).
  { unfold rawAveragePrice. now rewrite Hq, Hc, Hg. }
  split; [exact Hg|].
  split; [now apply calculateAveragePrice_bought|].
  split; [exists p; auto|].
  split.
  - apply Forall_forall. intros h Hin Hsym.
    destruct (summary_holding_inv _ _ _ Hin) as [sym' [p' [Hget ->]]].
    cbn [h_symbol makeHolding] in Hsym. subst sym'.
    rewrite Hview in Hget. injection Hget as <-.
    cbn [averagePrice makeHolding]. now rewrite Havg.
  - exists (makeHolding livePrices (sym, p)). split; [|reflexivity].
    apply (Permutation_in _
             (Permutation_sym (summary_holdings_Permutation ts livePrices))).
    apply in_map. now apply mapGet_Some_In.
Qed.

(** The ledger of two purchases of X satisfies the hypotheses. *)
Lemma average_price_weighted_mean_witness :
  onlyBought "X" twoBuysLedger
  /\ (exists t, In t twoBuysLedger /\ symbol t = "X"%string)
  /\ calculateAveragePrice "X" twoBuysLedger
     = (boughtValue "X" twoBuysLedger / boughtQuantity "X" twoBuysLedger)%num.
Proof.
  assert (H1 : onlyBought "X" twoBuysLedger).
  { repeat constructor. }
  assert (H2 : exists t, In t twoBuysLedger /\ symbol t = "X"%string).
  { eexists. split; [left; reflexivity | reflexivity]. }
  split; [exact H1|]. split; [exact H2|].
  exact (proj1 (proj2 (average_price_weighted_mean twoBuysLedger "X" []
                         H1 H2))).
Defined.

(** ** The cost basis of a holding *)

Lemma roundCents_of_nonneg (c : Q) :
  0 <= c ->
  exists v, roundCents (Fin c) = Fin v /\ 0 <= v /\ ((1 # 200) <= c -> 0 < v).
Proof.
  intro Hc. eexists. split; [apply roundCents_Fin|].
  set (x := c * inject_Z 100 + (1 # 2)).
  assert (Hx : 0 <= x) by (subst x; change (inject_Z 100) with 100; lra).
  apply Qfloor_resp_le in Hx. change (Qfloor 0) with 0%Z in Hx.
  split.
  - rewrite Zle_Qle in Hx. change (inject_Z 0) with 0 in Hx.
    unfold Qdiv. change (/ inject_Z 100) with (1 # 100). lra.
  - intro Hc'.
    assert (Hx1 : 1 <= x) by (subst x; change (inject_Z 100) with 100; lra).
    apply Qfloor_resp_le in Hx1. change (Qfloor 1) with 1%Z in Hx1.
    rewrite Zle_Qle in Hx1. change (inject_Z 1) with 1 in Hx1.
    unfold Qdiv. change (/ inject_Z 100) with (1 # 100). lra.
Qed.

(** C7, counterexample.  Ten shares of X are bought at 5 and twenty sold,
    which leaves -10 shares at a cost of -50; twenty more are then bought at
    1.  X is in the view with 10 shares, the ledger has buy trades of X, and
    the invested value of the holding is -30.  One share bought at a tenth of
    a cent is listed at an invested value of 0.  And on binary64, 0.3 shares
    bought at 1, 1.1 at 7 and 1.4 sold: no warning is written, X is listed at
    the quantity [0.3 + 1.1 - 1.4], which is above zero, and its cost and
    invested value are 0. *)
Lemma rebought_after_oversell_negative_cost :
  (exists h,
     holdings (calculatePortfolioSummary reboughtLedger []) = [h]
     /\ h_symbol h = "X"%string
     /\ (h_quantity h >? lit 0)%num = true
     /\ existsb (fun t => String.eqb (symbol t) "X" && isBuy t) reboughtLedger
        = true
     /\ investedValue h =n= lit (-30)
     /\ (investedValue h >? lit 0)%num = false)
  /\ (exists h,
        holdings
          (calculatePortfolioSummary
             [ mkTrade "2024-01-02" "X" (lit 1) (dec 1 1000) buy ] [])
        = [h]
        /\ (h_quantity h >? lit 0)%num = true
        /\ investedValue h =n= lit 0
        /\ (investedValue h >? lit 0)%num = false)
  /\ exists h,
       Binary64.holdings
         (Binary64.calculatePortfolioSummary Binary64.cancellingLedger [])
       = [h]
       /\ Binary64.calculateHoldings_console Binary64.cancellingLedger = []
       /\ Binary64.h_symbol h = "X"%string
       /\ Binary64.gt (Binary64.h_quantity h) 0 = true
       /\ existsb (fun t => String.eqb (Binary64.symbol t) "X"
                            && Binary64.isBuy t)
                  Binary64.cancellingLedger = true
       /\ Binary64.totalCost
            (Binary64.existingPosition
               (Binary64.calculateHoldings Binary64.cancellingLedger) "X")
          = 0%float
       /\ Binary64.investedValue h = 0%float
       /\ Binary64.gt (Binary64.investedValue h) 0 = false.
Proof.
  split; [|split].
  - eexists. split; [vm_compute; reflexivity|].
    repeat split; vm_compute; reflexivity.
  - eexists. split; [vm_compute; reflexivity|].
    repeat split; vm_compute; reflexivity.
  - eexists. split; [vm_compute; reflexivity|].
    repeat split; vm_compute; reflexivity.
Qed.

(** C7, as amended.  Every holding of the summary comes from a position of
    the view, of a quantity above zero, and its [investedValue] is the cost
    basis of that position put through [Math.round(x * 100) / 100].  When
    every trade of the symbol in the ledger is a buy, at a positive quantity
    and price, the cost basis is the sum of the [quantity * price] of these
    trades, taken from 0 in the order of the ledger: it is not below zero,
    nor is the [investedValue], which is above zero as soon as the cost is
    not below half a cent. *)
Theorem invested_value_of_holding (ts : list TradeRecord)
    (livePrices : JsMap StockPrice) (h : Holding) :
  In h (holdings (calculatePortfolioSummary ts livePrices)) ->
  exists p,
    mapGet (h_symbol h) (calculateHoldings ts) = Some p
    /\ (pos_quantity p >? lit 0)%num = true
    /\ investedValue h = roundCents (totalCost p)
    /\ (onlyBought (h_symbol h) ts ->
        totalCost p = boughtValue (h_symbol h) ts
        /\ (totalCost p <? lit 0)%num = false
        /\ (investedValue h <? lit 0)%num = false
        /\ ((totalCost p <? dec 5 1000)%num = false ->
            (investedValue h >? lit 0)%num = true)).
Proof.
  intro Hin.
  destruct (summary_holding_inv _ _ _ Hin) as [sym [p [Hget ->]]].
  exists p. cbn [h_symbol makeHolding investedValue]. split; [exact Hget|].
  pose proof Hget as Hacc.
  rewrite calculateHoldings_filter in Hacc.
  rewrite (mapGet_filter heldPositive) in Hacc
    by apply NoDup_accumulateHoldings.
  destruct (mapGet sym (fst (accumulateHoldings ts))) as [p'|] eqn:Ep;
    [|discriminate].
  destruct (heldPositive (sym, p')) eqn:Hpos; [|discriminate].
  injection Hacc as ->. unfold heldPositive in Hpos. cbn [snd] in Hpos.
  split; [exact Hpos|]. split; [reflexivity|].
  intro H.
  destruct (accumulateHoldings_bought sym ts H) as [_ Hc].
  unfold existingPosition in Hc. rewrite Ep in Hc.
  pose proof (proj2 (bought_sums sym ts H)) as Hsum.
  pose proof (tradedValue_nonneg sym ts H) as Hnn.
  rewrite <- Hc in Hsum.
  destruct (totalCost p) as [c| | |] eqn:Ec; cbn [num_eq] in Hsum;
    try contradiction.
  assert (Hc0 : 0 <= c) by lra.
  destruct (roundCents_of_nonneg c Hc0) as [v [Ev [Hv Hv']]].
  rewrite Ev.
  split; [now rewrite <- Hc|].
  split; [apply gt_Fin_false; exact Hc0|].
  split; [apply gt_Fin_false; exact Hv|].
  intro Hge. apply gt_Fin_false in Hge. apply gt_Fin. apply Hv'.
  revert Hge. unfold dec, Qdiv. change (/ inject_Z 1000) with (1 # 1000).
  change (inject_Z 5) with 5. lra.
Qed.

(** The ledger of two purchases of X: its holding is listed at a cost basis
    that is the sum of the two [quantity * price]. *)
Lemma invested_value_of_holding_witness :
  In (makeHolding []
        ("X"%string, existingPosition (calculateHoldings twoBuysLedger) "X"))
     (holdings (calculatePortfolioSummary twoBuysLedger []))
  /\ exists p,
       mapGet "X" (calculateHoldings twoBuysLedger) = Some p
       /\ (onlyBought "X" twoBuysLedger ->
           totalCost p = boughtValue "X" twoBuysLedger).
Proof.
  assert (H1 : In (makeHolding []
                     ("X"%string,
                      existingPosition (calculateHoldings twoBuysLedger) "X"))
                  (holdings (calculatePortfolioSummary twoBuysLedger []))).
  { vm_compute. left. reflexivity. }
  split; [exact H1|].
  destruct (invested_value_of_holding twoBuysLedger [] _ H1)
    as [p [Hget [_ [_ Hb]]]].
  exists p. split; [exact Hget|].
  intro H. exact (proj1 (Hb H)).
Defined.

(** ** Aggregate totals *)




(** *** A ledger without sales *)


Lemma filter_all {A : Type} (P : A -> bool) (l : list A) :
  Forall (fun x => P x = true) l -> filter P l = l.
Proof.
  intro H. induction H as [|x l Hx Hl IH]; simpl; auto.
  now rewrite Hx, IH.
Qed.






(* ================================================================== *)
(** * Further properties of the module and of its callers *)
(* ================================================================== *)

(** ** Sums of rationals *)




(** ** Sorting in descending order of a finite key *)

Section Descending.
Context {A : Type} (key : A -> number).

Lemma descending_Transitive : Transitive (descending key).
Proof. intros a b c. unfold descending. intros H1 H2. lra. Qed.

Lemma gt_sub_finite (x y : A) :
  finite (key x) -> finite (key y) ->
  ((key y - key x >? lit 0)%num = true <-> toQ (key x) < toQ (key y)).
Proof.
  destruct (key x) as [a| | |], (key y) as [b| | |];
    cbn [sub add neg toQ finite]; try tauto.
  intros _ _. unfold lit. rewrite gt_Fin. change (inject_Z 0) with 0.
  split; intro H; lra.
Qed.

Lemma insertBy_desc_HdRel (a x : A) (l : list A) :
  descending key a x -> HdRel (descending key) a l ->
  HdRel (descending key) a (insertBy (fun u v => (key v - key u)%num) x l).
Proof.
  intros Hax Hal. destruct l as [|y l]; simpl.
  - now constructor.
  - inversion Hal; subst.
    destruct (key y - key x >? lit 0)%num; now constructor.
Qed.

Lemma insertBy_desc_Sorted (x : A) (l : list A) :
  finite (key x) -> Forall (fun y => finite (key y)) l ->
  Sorted (descending key) l ->
  Sorted (descending key) (insertBy (fun u v => (key v - key u)%num) x l).
Proof.
  intros Hx Hl Hs. induction Hs as [|y l Hs IH Hhd]; simpl.
  - repeat constructor.
  - inversion Hl as [|? ? Hy Hl']; subst.
    destruct (key y - key x >? lit 0)%num eqn:E.
    + apply (gt_sub_finite x y Hx Hy) in E.
      constructor; auto.
      apply insertBy_desc_HdRel; auto. unfold descending. lra.
    + constructor; [now constructor|]. constructor.
      unfold descending.
      destruct (Qlt_le_dec (toQ (key x)) (toQ (key y))) as [Hlt | Hle]; auto.
      apply (gt_sub_finite x y Hx Hy) in Hlt. congruence.
Qed.

(** [sort((a, b) => key(b) - key(a))] puts a list of finite keys in
    descending order. *)
Lemma sortBy_desc_Sorted (l : list A) :
  Forall (fun y => finite (key y)) l ->
  StronglySorted (descending key) (sortBy (fun u v => (key v - key u)%num) l).
Proof.
  intro Hl. apply Sorted_StronglySorted; [exact descending_Transitive|].
  induction Hl as [|x l Hx Hl IH]; simpl.
  - constructor.
  - apply insertBy_desc_Sorted; auto.
    apply (Permutation_Forall (Permutation_sym (sortBy_Permutation _ l))).
    exact Hl.
Qed.
End Descending.

(** ** Sector allocation *)

Lemma sector_eqb_eq (a b : SectorKey) : sector_eqb a b = true <-> a = b.
Proof.
  destruct a, b; simpl; rewrite ?String.eqb_eq;
    split; intro H; try discriminate; congruence.
Qed.




Lemma sectorGet_Some_In (k : SectorKey) (v : number) (m : SectorTotals) :
  sectorGet k m = Some v -> In (k, v) m.
Proof.
  induction m as [|[k0 v0] m IH]; simpl; [discriminate|].
  destruct (sector_eqb k k0) eqn:E.
  - apply sector_eqb_eq in E. intros [= ->]. subst. now left.
  - auto.
Qed.

Lemma keys_sectorSet (k : SectorKey) (v : number) (m : SectorTotals) :
  map fst (sectorSet k v m)
  = match sectorGet k m with
    | Some _ => map fst m
    | None => map fst m ++ [k]
    end.
Proof.
  induction m as [|[k0 v0] m IH]; simpl; auto.
  destruct (sector_eqb k k0) eqn:E; simpl.
  - apply sector_eqb_eq in E. now subst.
  - rewrite IH. now destruct (sectorGet k m).
Qed.



Lemma orZero_Some_finite (v : number) (a : Q) :
  v =n= Fin a -> orZero (Some v) =n= Fin a.
Proof.
  destruct v as [b| | |]; simpl; try tauto. intro H.
  destruct (Qeq_bool b 0) eqn:E; simpl; auto.
  apply Qeq_bool_iff in E. rewrite <- H, E. reflexivity.
Qed.





Lemma num_eq_Fin_inv (v : number) (a : Q) :
  v =n= Fin a -> exists b, v = Fin b /\ b == a.
Proof. destruct v as [b| | |]; simpl; try tauto. intro H. now exists b. Qed.






(** ** The list of holdings of the summary *)

Lemma summary_symbols (ts : list TradeRecord) (livePrices : JsMap StockPrice) :
  Permutation (map h_symbol (holdings (calculatePortfolioSummary ts livePrices)))
              (mapKeys (calculateHoldings ts)).
Proof.
  rewrite (Permutation_map h_symbol (summary_holdings_Permutation ts livePrices)).
  rewrite map_map. unfold mapKeys.
  erewrite map_ext; [reflexivity|]. now intros [k p].
Qed.

(** X3.  The summary lists a symbol at most once, and lists only symbols
    that trades of the ledger bear. *)
Theorem summary_symbols_distinct (ts : list TradeRecord)
    (livePrices : JsMap StockPrice) :
  let hs := holdings (calculatePortfolioSummary ts livePrices) in
  NoDup (map h_symbol hs)
  /\ Forall (fun h => exists t, In t ts /\ symbol t = h_symbol h) hs.
Proof.
  intro hs. subst hs. split.
  - apply (Permutation_NoDup (Permutation_sym (summary_symbols ts livePrices))).
    apply NoDup_calculateHoldings.
  - apply Forall_forall. intros h Hin.
    destruct (summary_holding_inv _ _ _ Hin) as [sym [p [Hget ->]]].
    cbn [h_symbol makeHolding].
    apply mapGet_Some_In in Hget. rewrite calculateHoldings_filter in Hget.
    apply filter_In in Hget. destruct Hget as [Hraw _].
    assert (Hkey : In sym (mapKeys (fst (accumulateHoldings ts)))).
    { unfold mapKeys. change sym with (fst (sym, p)). now apply in_map. }
    apply In_mapKeys_accumulateHoldings in Hkey.
    apply in_map_iff in Hkey. destruct Hkey as [t [Hs Ht]]. eauto.
Qed.



(** ** Symbols do not interfere *)

Lemma mapGet_accumulate_tradesOf (sym : string) (ts : list TradeRecord) :
  mapGet sym (fst (accumulateHoldings ts))
  = mapGet sym (fst (accumulateHoldings (tradesOf sym ts))).
Proof.
  induction ts as [|t ts IH] using rev_ind; [reflexivity|].
  rewrite tradesOf_snoc, accumulateHoldings_snoc, fst_holdingsStep.
  cbv zeta.
  destruct (String.eqb (symbol t) sym) eqn:E.
  - apply String.eqb_eq in E. subst sym.
    rewrite accumulateHoldings_snoc, fst_holdingsStep. cbv zeta.
    rewrite !mapGet_mapSet_eq. unfold existingPosition. now rewrite IH.
  - apply String.eqb_neq in E. rewrite app_nil_r.
    rewrite mapGet_mapSet_neq by congruence. exact IH.
Qed.

Lemma trades_of_position (sym : string) (ts : list TradeRecord) :
  trades (existingPosition (fst (accumulateHoldings ts)) sym)
  = tradesOf sym ts.
Proof.
  induction ts as [|t ts IH] using rev_ind; [reflexivity|].
  rewrite accumulateHoldings_snoc, existingPosition_step, tradesOf_snoc.
  destruct (String.eqb (symbol t) sym) eqn:E.
  - apply String.eqb_eq in E. subst sym. cbv zeta. cbn [trades].
    now rewrite IH.
  - now rewrite app_nil_r.
Qed.

(** X5.  The position of a symbol depends on the trades of that symbol only:
    the accumulator, and so the public view, give the symbol what they would
    give it on the ledger stripped of every other symbol, and the position
    records exactly those trades, in the order of the ledger. *)
Theorem position_depends_on_own_trades (ts : list TradeRecord) (sym : string) :
  mapGet sym (fst (accumulateHoldings ts))
  = mapGet sym (fst (accumulateHoldings (tradesOf sym ts)))
  /\ mapGet sym (calculateHoldings ts)
     = mapGet sym (calculateHoldings (tradesOf sym ts))
  /\ trades (existingPosition (fst (accumulateHoldings ts)) sym)
     = tradesOf sym ts.
Proof.
  split; [apply mapGet_accumulate_tradesOf|]. split.
  - rewrite !calculateHoldings_filter.
    rewrite !(mapGet_filter heldPositive) by apply NoDup_accumulateHoldings.
    now rewrite mapGet_accumulate_tradesOf.
  - apply trades_of_position.
Qed.

(** ** Sales under the average-cost rule *)

Lemma snd_holdingsStep (st : JsMap Position * list string) (t : TradeRecord) :
  snd (holdingsStep st t)
  = let existing := existingPosition (fst st) (symbol t) in
    match transactionType t with
    | buy => snd st
    | sell =>
        if (fst (accountTrade (pos_quantity existing) (totalCost existing) t)
            <? lit 0)%num
        then snd st ++ [negativeQuantityWarning (symbol t)]
        else snd st
    end.
Proof.
  destruct st as [hs console]. unfold holdingsStep. cbn [fst snd].
  destruct (accountTrade _ _ t) as [q c]. reflexivity.
Qed.

(** What a sale of [tq] shares does to a position of [q > 0] shares at a cost
    of [c]. *)
Lemma sale_from_held (ts : list TradeRecord) (t : TradeRecord) (p : Position)
    (q c tq : Q) :
  mapGet (symbol t) (fst (accumulateHoldings ts)) = Some p ->
  pos_quantity p = Fin q -> totalCost p = Fin c ->
  transactionType t = sell -> quantity t = Fin tq ->
  0 < q ->
  mapGet (symbol t) (fst (accumulateHoldings (ts ++ [t])))
  = Some (mkPosition (Fin (q - tq)) (Fin (c - tq * (c / q)))
                     (trades p ++ [t]))
  /\ calculateHoldings_console (ts ++ [t])
     = if (Fin (q - tq) <? lit 0)%num
       then calculateHoldings_console ts
            ++ [negativeQuantityWarning (symbol t)]
       else calculateHoldings_console ts.
Proof.
  intros Hget Eq Ec Hsell Etq Hq.
  assert (Hex : existingPosition (fst (accumulateHoldings ts)) (symbol t) = p)
    by (unfold existingPosition; now rewrite Hget).
  assert (Hacc : accountTrade (Fin q) (Fin c) t
                 = (Fin (q - tq), Fin (c - tq * (c / q)))).
  { unfold accountTrade, avgCostPerShare. rewrite Hsell, Etq.
    assert (Hg : (Fin q >? lit 0)%num = true) by (apply gt_Fin; exact Hq).
    rewrite Hg, div_Fin by lra. reflexivity. }
  unfold calculateHoldings_console.
  rewrite accumulateHoldings_snoc, fst_holdingsStep, snd_holdingsStep.
  cbv zeta. rewrite Hex, Eq, Ec, Hacc, Hsell. cbn [fst snd].
  split; [apply mapGet_mapSet_eq | reflexivity].
Qed.

Lemma view_lookup (ts : list TradeRecord) (sym : string) :
  mapGet sym (calculateHoldings ts)
  = match mapGet sym (fst (accumulateHoldings ts)) with
    | Some p => if (pos_quantity p >? lit 0)%num then Some p else None
    | None => None
    end.
Proof.
  rewrite calculateHoldings_filter.
  apply (mapGet_filter heldPositive), NoDup_accumulateHoldings.
Qed.

(** X6.  Selling part of what is held takes the shares sold out of the
    position at its average cost: after a sale of fewer shares than the
    position holds, the position holds the quantity less the quantity sold,
    which is above zero, at the cost less the quantity sold times
    [cost / quantity]; the sale is added to its trades, the symbol stays in
    the view and no warning is written. *)
Theorem partial_sale_reduces_position (ts : list TradeRecord)
    (t : TradeRecord) (p : Position) (q c tq : Q) :
  mapGet (symbol t) (fst (accumulateHoldings ts)) = Some p ->
  pos_quantity p = Fin q -> totalCost p = Fin c ->
  transactionType t = sell -> quantity t = Fin tq ->
  0 < tq -> tq < q ->
  exists p',
    mapGet (symbol t) (calculateHoldings (ts ++ [t])) = Some p'
    /\ pos_quantity p' = (pos_quantity p - quantity t)%num
    /\ (pos_quantity p' >? lit 0)%num = true
    /\ totalCost p'
       = (totalCost p - quantity t * (totalCost p / pos_quantity p))%num
    /\ trades p' = trades p ++ [t]
    /\ calculateHoldings_console (ts ++ [t]) = calculateHoldings_console ts.
Proof.
  intros Hget Eq Ec Hsell Etq Htq Hlt.
  assert (Hq : 0 < q) by lra.
  destruct (sale_from_held ts t p q c tq Hget Eq Ec Hsell Etq Hq)
    as [Hget' Hcon].
  assert (Hg' : (Fin (q - tq) >? lit 0)%num = true)
    by (apply gt_Fin; change (inject_Z 0) with 0; lra).
  eexists. split.
  { rewrite view_lookup, Hget'. cbn [pos_quantity]. rewrite Hg'.
    reflexivity. }
  cbn [pos_quantity totalCost trades]. rewrite Eq, Ec, Etq.
  split; [reflexivity|]. split; [exact Hg'|].
  split; [now rewrite div_Fin by lra|]. split; [reflexivity|].
  rewrite Hcon.
  assert (Hl : (Fin (q - tq) <? lit 0)%num = false).
  { unfold lt. apply gt_Fin_false. change (inject_Z 0) with 0. lra. }
  now rewrite Hl.
Qed.

Lemma partial_sale_reduces_position_witness :
  exists p',
    mapGet "AAPL" (calculateHoldings exampleLedger) = Some p'
    /\ (pos_quantity p' >? lit 0)%num = true.
Proof.
  destruct (partial_sale_reduces_position
              [ mkTrade "2024-01-15" "AAPL" (lit 100) (dec 15050 100) buy ]
              (mkTrade "2024-02-01" "AAPL" (lit 50) (lit 155) sell)
              (mkPosition (Fin (0 + inject_Z 100))
                 (Fin (0 + inject_Z 100 * (15050 # 100)))
                 [ mkTrade "2024-01-15" "AAPL" (lit 100) (dec 15050 100) buy ])
              (0 + inject_Z 100) (0 + inject_Z 100 * (15050 # 100)) (inject_Z 50))
    as [p' [Hget [_ [Hpos _]]]];
    try reflexivity.
  exists p'. split; [exact Hget|exact Hpos].
Defined.

(** X7.  Selling all that is held empties the position: the quantity comes
    to 0, the cost to what the subtraction of the quantity times
    [cost / quantity] leaves of it, the symbol leaves the public view, and no
    warning is written. *)
Theorem full_sale_clears_position (ts : list TradeRecord) (t : TradeRecord)
    (p : Position) (q c tq : Q) :
  mapGet (symbol t) (fst (accumulateHoldings ts)) = Some p ->
  pos_quantity p = Fin q -> totalCost p = Fin c ->
  transactionType t = sell -> quantity t = Fin tq ->
  0 < q -> tq == q ->
  (exists p',
     mapGet (symbol t) (fst (accumulateHoldings (ts ++ [t]))) = Some p'
     /\ pos_quantity p' = (pos_quantity p - quantity t)%num
     /\ pos_quantity p' =n= lit 0
     /\ totalCost p'
        = (totalCost p - quantity t * (totalCost p / pos_quantity p))%num)
  /\ mapGet (symbol t) (calculateHoldings (ts ++ [t])) = None
  /\ calculateHoldings_console (ts ++ [t]) = calculateHoldings_console ts.
Proof.
  intros Hget Eq Ec Hsell Etq Hq Heq.
  destruct (sale_from_held ts t p q c tq Hget Eq Ec Hsell Etq Hq)
    as [Hget' Hcon].
  assert (Hg' : (Fin (q - tq) >? lit 0)%num = false)
    by (apply gt_Fin_false; change (inject_Z 0) with 0; lra).
  split; [|split].
  - eexists. split; [exact Hget'|]. cbn [pos_quantity totalCost].
    rewrite Eq, Ec, Etq. split; [reflexivity|].
    split; [|now rewrite div_Fin by lra].
    cbn [num_eq lit]. change (inject_Z 0) with 0. lra.
  - rewrite view_lookup, Hget'. cbn [pos_quantity]. now rewrite Hg'.
  - rewrite Hcon.
    assert (Hl : (Fin (q - tq) <? lit 0)%num = false).
    { unfold lt. apply gt_Fin_false. change (inject_Z 0) with 0. lra. }
    now rewrite Hl.
Qed.

Lemma full_sale_clears_position_witness :
  mapGet "AAPL"
    (calculateHoldings
       [ mkTrade "2024-01-15" "AAPL" (lit 100) (dec 15050 100) buy;
         mkTrade "2024-02-01" "AAPL" (lit 100) (lit 155) sell ])
  = None.
Proof.
  refine (proj1 (proj2
    (full_sale_clears_position
       [ mkTrade "2024-01-15" "AAPL" (lit 100) (dec 15050 100) buy ]
       (mkTrade "2024-02-01" "AAPL" (lit 100) (lit 155) sell)
       (mkPosition (Fin (0 + inject_Z 100))
          (Fin (0 + inject_Z 100 * (15050 # 100)))
          [ mkTrade "2024-01-15" "AAPL" (lit 100) (dec 15050 100) buy ])
       (0 + inject_Z 100) (0 + inject_Z 100 * (15050 # 100)) (inject_Z 100)
       _ _ _ _ _ _ _))); reflexivity.
Defined.

(** ** A holding without a quote *)



(** ** Rounded figures side by side *)









(** ** Values are never negative *)

Lemma nonneg_finite (x : number) : nonneg x -> finite x.
Proof. destruct x; simpl; tauto. Qed.






Lemma nonnegQuote_finite (livePrices : JsMap StockPrice) :
  Forall nonnegQuote livePrices -> Forall finiteQuote livePrices.
Proof.
  apply Forall_impl. intros kv. apply nonneg_finite.
Qed.




Section NeverNegative.
Variable getTime : string -> number.

End NeverNegative.


(* ================================================================== *)
(** ** The charts *)
(* ================================================================== *)

Lemma mapIndexed_proj {A B C : Type} (f : A -> nat -> B) (g : B -> C)
    (g' : A -> C) (l : list A) (i : nat) :
  (forall x j, g (f x j) = g' x) -> map g (mapIndexed f i l) = map g' l.
Proof.
  intro H. revert i.
  induction l as [|x l IH]; intro i; simpl; [reflexivity|].
  now rewrite H, IH.
Qed.

Lemma mapIndexed_seq {A B C : Type} (f : A -> nat -> B) (g : B -> C)
    (c : nat -> C) (l : list A) (i : nat) :
  (forall x j, g (f x j) = c j) ->
  map g (mapIndexed f i l) = map c (seq i (List.length l)).
Proof.
  intro H. revert i.
  induction l as [|x l IH]; intro i; simpl; [reflexivity|].
  now rewrite H, IH.
Qed.

Lemma mapIndexed_length {A B : Type} (f : A -> nat -> B) (l : list A)
    (i : nat) :
  List.length (mapIndexed f i l) = List.length l.
Proof.
  revert i. induction l as [|x l IH]; intro i; simpl; [reflexivity|].
  now rewrite IH.
Qed.

Lemma mapIndexed_In {A B : Type} (f : A -> nat -> B) (l : list A) (i : nat)
    (y : B) :
  In y (mapIndexed f i l) -> exists x j, In x l /\ y = f x j.
Proof.
  revert i. induction l as [|x l IH]; intros i Hin; simpl in Hin.
  - contradiction.
  - destruct Hin as [<-|Hin].
    + exists x, i. split; [now left|reflexivity].
    + destruct (IH _ Hin) as [x' [j [H1 H2]]].
      exists x', j. split; [now right|exact H2].
Qed.

(** The early return of an empty [holdings] gives what the general path would
    give. *)
Lemma pieChartData_eq (hs : list Holding) :
  pieChartData hs
  = sortBy (fun a b => (pie_value b - pie_value a)%num)
      (mapIndexed
         (makePieSlice
            (fold_left (fun sum holding => (sum + currentValue holding)%num)
                       hs (lit 0)))
         0 (shownInPie hs)).
Proof. destruct hs; reflexivity. Qed.


Lemma COLORS_NoDup : NoDup (map Some COLORS).
Proof.
  apply Finite.Injective_map_NoDup.
  - intros a b H. now injection H.
  - assert (E : nodup string_dec COLORS = COLORS) by (vm_compute; reflexivity).
    rewrite <- E. apply NoDup_nodup.
Qed.

(** X12.  The pie shows exactly the holdings whose current value is above
    zero, each under its symbol with its value, quantity and average price,
    in descending order of value; every slice gets one of the fifteen colours
    (never [undefined]), and up to fifteen slices no colour is used twice. *)
Theorem pie_slices (hs : list Holding) :
  finiteValues hs ->
  let slices := pieChartData hs in
  Permutation
    (map (fun s => (pie_name s, pie_value s, pie_quantity s, pie_avgPrice s))
         slices)
    (map (fun h => (h_symbol h, currentValue h, h_quantity h, averagePrice h))
         (shownInPie hs))
  /\ Forall (fun s => isPositive (pie_value s)) slices
  /\ StronglySorted (descending pie_value) slices
  /\ Forall (fun s => exists c, pie_color s = Some c /\ In c COLORS) slices
  /\ ((List.length slices <= 15)%nat -> NoDup (map pie_color slices)).
Proof.
  intros Hfin slices. subst slices. rewrite pieChartData_eq.
  set (total := fold_left _ hs (lit 0)).
  set (cmp := fun a b : PieSlice => (pie_value b - pie_value a)%num).
  set (raw := mapIndexed (makePieSlice total) 0 (shownInPie hs)).
  pose proof (sortBy_Permutation cmp raw) as Hperm.
  assert (Hshown : forall h, In h (shownInPie hs) ->
                             isPositive (currentValue h)).
  { intros h Hin. apply filter_In in Hin. destruct Hin as [Hin Hgt].
    unfold finiteValues in Hfin. rewrite Forall_forall in Hfin.
    specialize (Hfin h Hin).
    destruct (currentValue h) as [q| | |]; try contradiction.
    apply gt_Fin in Hgt. exact Hgt. }
  assert (Hraw : Forall (fun s => isPositive (pie_value s)) raw).
  { apply Forall_forall. intros s Hin.
    destruct (mapIndexed_In _ _ _ _ Hin) as [h [j [Hh ->]]].
    cbn [pie_value makePieSlice]. now apply Hshown. }
  split; [|split; [|split; [|split]]].
  - rewrite (Permutation_map _ Hperm). subst raw.
    erewrite mapIndexed_proj; [reflexivity|]. reflexivity.
  - apply Forall_forall. intros s Hin.
    rewrite Forall_forall in Hraw. apply Hraw.
    now apply (Permutation_in _ Hperm).
  - apply sortBy_desc_Sorted.
    apply Forall_forall. intros s Hin.
    rewrite Forall_forall in Hraw. specialize (Hraw s Hin).
    destruct (pie_value s); try contradiction. exact I.
  - apply Forall_forall. intros s Hin.
    apply (Permutation_in _ Hperm) in Hin.
    destruct (mapIndexed_In _ _ _ _ Hin) as [h [j [Hh ->]]].
    cbn [pie_color makePieSlice].
    destruct (nth_error COLORS (j mod List.length COLORS)) as [c|] eqn:E.
    + exists c. split; [reflexivity|]. exact (nth_error_In _ _ E).
    + apply nth_error_None in E.
      pose proof (Nat.mod_upper_bound j (List.length COLORS)) as Hb.
      cbn in Hb, E. lia.
  - intro Hlen.
    apply (Permutation_NoDup (Permutation_map pie_color (Permutation_sym Hperm))).
    rewrite (Permutation_length Hperm) in Hlen.
    subst raw.
    rewrite (mapIndexed_seq _ pie_color
               (fun j => nth_error COLORS (j mod List.length COLORS)))
      by reflexivity.
    rewrite mapIndexed_length in Hlen.
    set (n := List.length (shownInPie hs)) in *.
    assert (H15 : NoDup (map (fun j => nth_error COLORS (j mod List.length COLORS))
                             (seq 0 15))) by exact COLORS_NoDup.
    replace 15%nat with (n + (15 - n))%nat in H15 by lia.
    rewrite seq_app, map_app in H15.
    exact (NoDup_app_remove_r _ _ H15).
Qed.

Lemma pie_slices_witness :
  finiteValues (holdings (calculatePortfolioSummary exampleLedger examplePrices))
  /\ Forall (fun s => isPositive (pie_value s))
       (pieChartData
          (holdings (calculatePortfolioSummary exampleLedger examplePrices))).
Proof.
  assert (H : finiteValues
                (holdings
                   (calculatePortfolioSummary exampleLedger examplePrices))).
  { vm_compute. repeat constructor. }
  split; [exact H|].
  exact (proj1 (proj2 (pie_slices _ H))).
Defined.




(** *** The statistics of the profit and loss bars *)

Lemma countIf_cons {A : Type} (test : A -> bool) (x : A) (l : list A) :
  countIf test (x :: l)
  = ((if test x then 1 else 0) + countIf test l)%nat.
Proof. unfold countIf. cbn [filter]. now destruct (test x). Qed.

Lemma countIf_map {A B : Type} (g : A -> B) (test : B -> bool) (l : list A) :
  countIf test (map g l) = countIf (fun x => test (g x)) l.
Proof.
  induction l as [|x l IH]; [reflexivity|].
  cbn [map]. now rewrite !countIf_cons, IH.
Qed.

Lemma countIf_Permutation {A : Type} (test : A -> bool) (l l' : list A) :
  Permutation l l' -> countIf test l = countIf test l'.
Proof.
  induction 1 as [|x l l' _ IH|x y l|l l' l'' _ IH1 _ IH2].
  - reflexivity.
  - now rewrite !countIf_cons, IH.
  - rewrite !countIf_cons. lia.
  - now rewrite IH1.
Qed.

Lemma countIf_le {A : Type} (test : A -> bool) (l : list A) :
  (countIf test l <= List.length l)%nat.
Proof.
  induction l as [|x l IH]; [apply Nat.le_refl|].
  rewrite countIf_cons. cbn [List.length]. destruct (test x); lia.
Qed.

(** A number is above zero, below zero, equal to zero or [NaN], and only one
    of the four. *)
Lemma sign_cases (x : number) :
  ((if (x >? lit 0)%num then 1 else 0)
   + (if (x <? lit 0)%num then 1 else 0)
   + (if strictEq x (lit 0) then 1 else 0)
   + (if isNaN x then 1 else 0) = 1)%nat.
Proof.
  destruct x as [q| | |]; try reflexivity.
  unfold lt, gt, strictEq, isNaN, lit.
  destruct (Qeq_bool q (inject_Z 0)) eqn:E.
  - apply Qeq_bool_iff in E.
    destruct (Qcompare_spec q (inject_Z 0)) as [H|H|H];
      destruct (Qcompare_spec (inject_Z 0) q) as [H'|H'|H'];
      try reflexivity; exfalso; lra.
  - apply Qeq_bool_neq in E.
    destruct (Qcompare_spec q (inject_Z 0)) as [H|H|H];
      destruct (Qcompare_spec (inject_Z 0) q) as [H'|H'|H'];
      try reflexivity; exfalso; try lra; contradiction.
Qed.

Lemma count_partition {A : Type} (f : A -> number) (l : list A) :
  (countIf (fun x => (f x >? lit 0)%num) l
   + countIf (fun x => (f x <? lit 0)%num) l
   + countIf (fun x => strictEq (f x) (lit 0)) l
   + countIf (fun x => isNaN (f x)) l
   = List.length l)%nat.
Proof.
  induction l as [|x l IH]; [reflexivity|].
  rewrite !countIf_cons. cbn [List.length].
  pose proof (sign_cases (f x)). lia.
Qed.

Lemma barChartData_Permutation (localeCompare : string -> string -> number)
    (hs : list Holding) (k : SortKey) :
  Permutation (barChartData localeCompare hs k) (map makeBarDatum hs).
Proof.
  unfold barChartData.
  destruct hs as [|h hs]; [constructor|].
  cbn [List.length Nat.eqb].
  apply Permutation_map.
  destruct k; apply sortBy_Permutation.
Qed.

(** The element [reduce] keeps when it looks for the largest [key]: one of
    the list, that no other exceeds. *)
Lemma reduce_max {A : Type} (key : A -> number) (rest : list A) (first : A) :
  Forall (fun x => finite (key x)) (first :: rest) ->
  let r :=
    reduceFrom (fun max item => if (key item >? key max)%num then item else max)
               first rest in
  In r (first :: rest)
  /\ forall x, In x (first :: rest) -> toQ (key x) <= toQ (key r).
Proof.
  unfold reduceFrom. revert first.
  induction rest as [|y rest IH]; intros first Hfin.
  - cbn [fold_left]. split; [now left|].
    intros x [<-|[]]. lra.
  - cbn [fold_left].
    set (first' := if (key y >? key first)%num then y else first).
    inversion Hfin as [|? ? Hf Hrest]; subst.
    inversion Hrest as [|? ? Hy Hrest']; subst.
    assert (Hpick : (first' = first \/ first' = y)
                    /\ toQ (key first) <= toQ (key first')
                    /\ toQ (key y) <= toQ (key first')).
    { subst first'.
      destruct (key first) as [a| | |] eqn:Ea; try contradiction.
      destruct (key y) as [b| | |] eqn:Eb; try contradiction.
      destruct (Fin b >? Fin a)%num eqn:G.
      - apply gt_Fin in G. rewrite Eb. cbn [toQ].
        split; [now right|]. lra.
      - apply gt_Fin_false in G. rewrite Ea. cbn [toQ].
        split; [now left|]. lra. }
    destruct Hpick as [Hor [H1 H2]].
    assert (Hfin' : Forall (fun x => finite (key x)) (first' :: rest)).
    { constructor; [|exact Hrest'].
      destruct Hor as [->| ->]; assumption. }
    destruct (IH first' Hfin') as [Hin Hmax].
    split.
    + destruct Hin as [Hin|Hin].
      * destruct Hor as [E|E]; [left|right; left]; rewrite <- E; exact Hin.
      * right. now right.
    + intros x [<-|[<-|Hx]].
      * specialize (Hmax first' (or_introl eq_refl)). lra.
      * specialize (Hmax first' (or_introl eq_refl)). lra.
      * apply Hmax. now right.
Qed.

Lemma reduce_min {A : Type} (key : A -> number) (rest : list A) (first : A) :
  Forall (fun x => finite (key x)) (first :: rest) ->
  let r :=
    reduceFrom (fun min item => if (key item <? key min)%num then item else min)
               first rest in
  In r (first :: rest)
  /\ forall x, In x (first :: rest) -> toQ (key r) <= toQ (key x).
Proof.
  unfold reduceFrom. revert first.
  induction rest as [|y rest IH]; intros first Hfin.
  - cbn [fold_left]. split; [now left|].
    intros x [<-|[]]. lra.
  - cbn [fold_left].
    set (first' := if (key y <? key first)%num then y else first).
    inversion Hfin as [|? ? Hf Hrest]; subst.
    inversion Hrest as [|? ? Hy Hrest']; subst.
    assert (Hpick : (first' = first \/ first' = y)
                    /\ toQ (key first') <= toQ (key first)
                    /\ toQ (key first') <= toQ (key y)).
    { subst first'. unfold lt.
      destruct (key first) as [a| | |] eqn:Ea; try contradiction.
      destruct (key y) as [b| | |] eqn:Eb; try contradiction.
      destruct (Fin a >? Fin b)%num eqn:G.
      - apply gt_Fin in G. rewrite Eb. cbn [toQ].
        split; [now right|]. lra.
      - apply gt_Fin_false in G. rewrite Ea. cbn [toQ].
        split; [now left|]. lra. }
    destruct Hpick as [Hor [H1 H2]].
    assert (Hfin' : Forall (fun x => finite (key x)) (first' :: rest)).
    { constructor; [|exact Hrest'].
      destruct Hor as [->| ->]; assumption. }
    destruct (IH first' Hfin') as [Hin Hmax].
    split.
    + destruct Hin as [Hin|Hin].
      * destruct Hor as [E|E]; [left|right; left]; rewrite <- E; exact Hin.
      * right. now right.
    + intros x [<-|[<-|Hx]].
      * specialize (Hmax first' (or_introl eq_refl)). lra.
      * specialize (Hmax first' (or_introl eq_refl)). lra.
      * apply Hmax. now right.
Qed.

(** X14.  The counts of the bar chart and its win rate are the same whatever
    the order the bars are sorted in, and every holding is counted once: the
    winners (profit above zero), the losers (below zero), the break-even ones
    (equal to zero) and the holdings whose profit is [NaN], which are in none
    of the three, add up to the number of holdings.  The win rate is the
    number of winners divided by the number of holdings, times 100: a finite
    number between 0 and 100.  The statistics are [null] for no holding
    only. *)
Theorem bar_stats_counts (localeCompare : string -> string -> number)
    (hs : list Holding) (k : SortKey) :
  match barStats (barChartData localeCompare hs k) with
  | None => hs = []
  | Some st =>
      hs <> []
      /\ st_winners st = countIf (fun h => (pnl h >? lit 0)%num) hs
      /\ st_losers st = countIf (fun h => (pnl h <? lit 0)%num) hs
      /\ st_breakeven st = countIf (fun h => strictEq (pnl h) (lit 0)) hs
      /\ (st_winners st + st_losers st + st_breakeven st
          + countIf (fun h => isNaN (pnl h)) hs = List.length hs)%nat
      /\ st_winRate st
         = (lit (Z.of_nat (st_winners st))
            / lit (Z.of_nat (List.length hs)) * lit 100)%num
      /\ finite (st_winRate st)
      /\ 0 <= toQ (st_winRate st) <= inject_Z 100
  end.
Proof.
  assert (Hcase : hs = [] \/ hs <> [])
    by (destruct hs; [now left|right; discriminate]).
  destruct Hcase as [->|Hne]; [reflexivity|].
  pose proof (barChartData_Permutation localeCompare hs k) as Hperm.
  pose proof (Permutation_length Hperm) as Hlen. rewrite length_map in Hlen.
  unfold barStats.
  set (data := barChartData localeCompare hs k) in *.
  assert (Hn : (0 < List.length hs)%nat).
  { destruct hs; [contradiction|]. cbn [List.length]. lia. }
  destruct (Nat.eqb (List.length data) 0) eqn:E0.
  { apply Nat.eqb_eq in E0. lia. }
  assert (E1 : Nat.ltb 0 (List.length data) = true)
    by (apply Nat.ltb_lt; lia).
  rewrite E1.
  cbn [st_winners st_losers st_breakeven st_winRate].
  fold (countIf (fun item => (bar_pnl item >? lit 0)%num) data).
  fold (countIf (fun item => (bar_pnl item <? lit 0)%num) data).
  fold (countIf (fun item => strictEq (bar_pnl item) (lit 0)) data).
  rewrite !(countIf_Permutation _ _ _ Hperm), !countIf_map.
  cbn [bar_pnl makeBarDatum].
  pose proof (count_partition pnl hs) as Hpart.
  pose proof (countIf_le (fun h => (pnl h >? lit 0)%num) hs) as Hle.
  set (w := countIf (fun h => (pnl h >? lit 0)%num) hs) in *.
  rewrite Hlen.
  set (n := List.length hs) in *.
  assert (HnQ : 0 < inject_Z (Z.of_nat n)).
  { change 0 with (inject_Z 0). rewrite <- Zlt_Qlt. lia. }
  assert (HwQ : 0 <= inject_Z (Z.of_nat w) <= inject_Z (Z.of_nat n)).
  { change 0 with (inject_Z 0). rewrite <- !Zle_Qle. lia. }
  split; [exact Hne|].
  split; [reflexivity|]. split; [reflexivity|]. split; [reflexivity|].
  split; [exact Hpart|]. split; [reflexivity|].
  unfold lit. rewrite div_Fin by lra. cbn [mul toQ finite].
  split; [exact I|].
  change (inject_Z 100) with 100.
  split.
  - apply Qmult_le_0_compat; [|lra]. apply Qle_shift_div_l; lra.
  - setoid_replace 100 with (1 * 100) at 2 by ring.
    apply Qmult_le_compat_r; [|lra]. apply Qle_shift_div_r; lra.
Qed.

Lemma barChartData_In (localeCompare : string -> string -> number)
    (hs : list Holding) (k : SortKey) (item : BarDatum) :
  In item (barChartData localeCompare hs k)
  <-> exists h, In h hs /\ item = makeBarDatum h.
Proof.
  pose proof (barChartData_Permutation localeCompare hs k) as Hperm.
  split.
  - intro Hin. apply (Permutation_in _ Hperm) in Hin.
    apply in_map_iff in Hin. destruct Hin as [h [E Hin]].
    exists h. split; [exact Hin|now symmetry].
  - intros [h [Hin ->]].
    apply (Permutation_in _ (Permutation_sym Hperm)).
    now apply in_map.
Qed.

Lemma finite_toQ (x : number) : finite x -> x = Fin (toQ x).
Proof. destruct x; try contradiction. reflexivity. Qed.

Lemma gt_zero_finite (x : number) :
  finite x -> ((x >? lit 0)%num = true <-> 0 < toQ x).
Proof.
  intro H. rewrite (finite_toQ x H) at 1. unfold lit. rewrite gt_Fin.
  reflexivity.
Qed.

Lemma lt_zero_finite (x : number) :
  finite x -> ((x <? lit 0)%num = true <-> toQ x < 0).
Proof.
  intro H. unfold lt. rewrite (finite_toQ x H) at 1. unfold lit.
  rewrite gt_Fin. reflexivity.
Qed.

(** X15.  When the profit of every holding is finite, the biggest winner of
    the bar chart is a holding of positive profit that no holding exceeds,
    and there is none exactly when no profit is above zero; likewise the
    biggest loser for the profits below zero. *)
Theorem bar_stats_extremes (localeCompare : string -> string -> number)
    (hs : list Holding) (k : SortKey) :
  finitePnl hs -> hs <> [] ->
  exists st,
    barStats (barChartData localeCompare hs k) = Some st
    /\ match st_biggestWinner st with
       | Some w =>
           (exists h, In h hs /\ w = makeBarDatum h)
           /\ 0 < toQ (bar_pnl w)
           /\ forall h, In h hs -> toQ (pnl h) <= toQ (bar_pnl w)
       | None => forall h, In h hs -> toQ (pnl h) <= 0
       end
    /\ match st_biggestLoser st with
       | Some l =>
           (exists h, In h hs /\ l = makeBarDatum h)
           /\ toQ (bar_pnl l) < 0
           /\ forall h, In h hs -> toQ (bar_pnl l) <= toQ (pnl h)
       | None => forall h, In h hs -> 0 <= toQ (pnl h)
       end.
Proof.
  intros Hfin Hne.
  pose proof (barChartData_Permutation localeCompare hs k) as Hperm.
  pose proof (Permutation_length Hperm) as Hlen. rewrite length_map in Hlen.
  pose proof (barChartData_In localeCompare hs k) as HIn.
  unfold barStats.
  set (data := barChartData localeCompare hs k) in *.
  assert (Hn : (0 < List.length hs)%nat).
  { destruct hs; [contradiction|]. cbn [List.length]. lia. }
  destruct (Nat.eqb (List.length data) 0) eqn:E0.
  { apply Nat.eqb_eq in E0. lia. }
  unfold finitePnl in Hfin. rewrite Forall_forall in Hfin.
  assert (Hdata : forall item, In item data -> finite (bar_pnl item)).
  { intros item Hin. apply HIn in Hin. destruct Hin as [h [Hh ->]].
    cbn [bar_pnl makeBarDatum]. now apply Hfin. }
  eexists. split; [reflexivity|].
  cbn [st_biggestWinner st_biggestLoser].
  split.
  - destruct (filter (fun item => (bar_pnl item >? lit 0)%num) data)
      as [|first rest] eqn:Ew.
    + intros h Hh.
      assert (Hin : In (makeBarDatum h) data)
        by (apply HIn; exists h; now split).
      destruct (bar_pnl (makeBarDatum h) >? lit 0)%num eqn:G.
      * assert (Hc : In (makeBarDatum h)
                        (filter (fun item => (bar_pnl item >? lit 0)%num) data))
          by (apply filter_In; now split).
        rewrite Ew in Hc. contradiction.
      * cbn [bar_pnl makeBarDatum] in G.
        specialize (Hfin h Hh). rewrite (finite_toQ _ Hfin) in G.
        unfold lit in G. apply gt_Fin_false in G. exact G.
    + assert (Hw : forall item, In item (first :: rest) <->
                                In item data
                                /\ (bar_pnl item >? lit 0)%num = true).
      { intro item. rewrite <- Ew. apply filter_In. }
      assert (Hwfin : Forall (fun x => finite (bar_pnl x)) (first :: rest)).
      { apply Forall_forall. intros x Hx. apply Hw in Hx. now apply Hdata. }
      destruct (reduce_max bar_pnl rest first Hwfin) as [Hr Hmax].
      set (r := reduceFrom _ first rest) in *.
      apply Hw in Hr. destruct Hr as [Hr Hg].
      apply (gt_zero_finite _ (Hdata _ Hr)) in Hg.
      split; [now apply HIn|]. split; [exact Hg|].
      intros h Hh.
      assert (Hin : In (makeBarDatum h) data)
        by (apply HIn; exists h; now split).
      destruct (bar_pnl (makeBarDatum h) >? lit 0)%num eqn:G.
      * apply (Hmax (makeBarDatum h)). apply Hw. now split.
      * cbn [bar_pnl makeBarDatum] in G.
        specialize (Hfin h Hh). rewrite (finite_toQ _ Hfin) in G.
        unfold lit in G. apply gt_Fin_false in G.
        change (inject_Z 0) with 0 in G. lra.
  - destruct (filter (fun item => (bar_pnl item <? lit 0)%num) data)
      as [|first rest] eqn:El.
    + intros h Hh.
      assert (Hin : In (makeBarDatum h) data)
        by (apply HIn; exists h; now split).
      destruct (bar_pnl (makeBarDatum h) <? lit 0)%num eqn:G.
      * assert (Hc : In (makeBarDatum h)
                        (filter (fun item => (bar_pnl item <? lit 0)%num) data))
          by (apply filter_In; now split).
        rewrite El in Hc. contradiction.
      * cbn [bar_pnl makeBarDatum] in G. unfold lt in G.
        specialize (Hfin h Hh). rewrite (finite_toQ _ Hfin) in G.
        unfold lit in G. apply gt_Fin_false in G. exact G.
    + assert (Hw : forall item, In item (first :: rest) <->
                                In item data
                                /\ (bar_pnl item <? lit 0)%num = true).
      { intro item. rewrite <- El. apply filter_In. }
      assert (Hwfin : Forall (fun x => finite (bar_pnl x)) (first :: rest)).
      { apply Forall_forall. intros x Hx. apply Hw in Hx. now apply Hdata. }
      destruct (reduce_min bar_pnl rest first Hwfin) as [Hr Hmin].
      set (r := reduceFrom _ first rest) in *.
      apply Hw in Hr. destruct Hr as [Hr Hg].
      apply (lt_zero_finite _ (Hdata _ Hr)) in Hg.
      split; [now apply HIn|]. split; [exact Hg|].
      intros h Hh.
      assert (Hin : In (makeBarDatum h) data)
        by (apply HIn; exists h; now split).
      destruct (bar_pnl (makeBarDatum h) <? lit 0)%num eqn:G.
      * apply (Hmin (makeBarDatum h)). apply Hw. now split.
      * cbn [bar_pnl makeBarDatum] in G. unfold lt in G.
        specialize (Hfin h Hh). rewrite (finite_toQ _ Hfin) in G.
        unfold lit in G. apply gt_Fin_false in G.
        change (inject_Z 0) with 0 in G. lra.
Qed.

Lemma bar_stats_extremes_witness :
  finitePnl (holdings (calculatePortfolioSummary exampleLedger examplePrices))
  /\ holdings (calculatePortfolioSummary exampleLedger examplePrices) <> []
  /\ exists st,
       barStats
         (barChartData (fun _ _ => lit 0)
            (holdings (calculatePortfolioSummary exampleLedger examplePrices))
            ByPnl)
       = Some st.
Proof.
  set (hs := holdings (calculatePortfolioSummary exampleLedger examplePrices)).
  assert (H1 : finitePnl hs) by (vm_compute; repeat constructor).
  assert (H2 : hs <> []) by (vm_compute; discriminate).
  split; [exact H1|]. split; [exact H2|].
  destruct (bar_stats_extremes (fun _ _ => lit 0) hs ByPnl H1 H2)
    as [st [E _]].
  exists st. exact E.
Defined.

(** *** The statistics of the growth line *)

Lemma max2_fold_finite (rest : list number) (first : number) :
  Forall finite (first :: rest) ->
  fold_left max2 rest first
  = reduceFrom (fun max item => if (item >? max)%num then item else max)
               first rest.
Proof.
  unfold reduceFrom. revert first.
  induction rest as [|y rest IH]; intros first H; [reflexivity|].
  cbn [fold_left].
  inversion H as [|? ? Hf Hr]; subst. inversion Hr as [|? ? Hy Hr']; subst.
  assert (E : max2 first y = if (y >? first)%num then y else first).
  { destruct first; try contradiction. destruct y; try contradiction.
    reflexivity. }
  rewrite E. apply IH. constructor; [|exact Hr'].
  destruct (y >? first)%num; assumption.
Qed.

Lemma min2_fold_finite (rest : list number) (first : number) :
  Forall finite (first :: rest) ->
  fold_left min2 rest first
  = reduceFrom (fun min item => if (item <? min)%num then item else min)
               first rest.
Proof.
  unfold reduceFrom. revert first.
  induction rest as [|y rest IH]; intros first H; [reflexivity|].
  cbn [fold_left].
  inversion H as [|? ? Hf Hr]; subst. inversion Hr as [|? ? Hy Hr']; subst.
  assert (E : min2 first y = if (y <? first)%num then y else first).
  { destruct first; try contradiction. destruct y; try contradiction.
    reflexivity. }
  rewrite E. apply IH. constructor; [|exact Hr'].
  destruct (y <? first)%num; assumption.
Qed.

Lemma Math_max_spec (values : list number) :
  Forall finite values -> values <> [] ->
  In (Math_max values) values
  /\ forall v, In v values -> toQ v <= toQ (Math_max values).
Proof.
  intros Hfin Hne. destruct values as [|first rest]; [contradiction|].
  unfold Math_max. cbn [fold_left].
  assert (E : max2 NegInf first = first).
  { inversion Hfin; subst. destruct first; try contradiction; reflexivity. }
  rewrite E, (max2_fold_finite rest first Hfin).
  exact (reduce_max (fun x => x) rest first Hfin).
Qed.

Lemma Math_min_spec (values : list number) :
  Forall finite values -> values <> [] ->
  In (Math_min values) values
  /\ forall v, In v values -> toQ (Math_min values) <= toQ v.
Proof.
  intros Hfin Hne. destruct values as [|first rest]; [contradiction|].
  unfold Math_min. cbn [fold_left].
  assert (E : min2 PosInf first = first).
  { inversion Hfin; subst. destruct first; try contradiction; reflexivity. }
  rewrite E, (min2_fold_finite rest first Hfin).
  exact (reduce_min (fun x => x) rest first Hfin).
Qed.

Lemma orZero_Some_Fin (a : Q) :
  exists a', orZero (Some (Fin a)) = Fin a' /\ a' == a.
Proof.
  apply num_eq_Fin_inv. apply orZero_Some_finite. reflexivity.
Qed.

Section LineStats.
Variable getTime : string -> number.
Variable formatDate : string -> string.

Lemma growthSeries_nonempty (ts : list TradeRecord)
    (livePrices : JsMap StockPrice) :
  ts <> [] ->
  (0 < List.length (calculatePortfolioGrowthOverTime getTime ts livePrices))%nat.
Proof.
  intro Hne.
  rewrite <- (length_map gp_date), dates_of_series.
  destruct ts as [|t ts']; [contradiction|].
  assert (Hin : In (date t) (growthDates getTime (t :: ts')))
    by (apply In_growthDates; now left).
  destruct (growthDates getTime (t :: ts')); [contradiction|].
  cbn [List.length]. lia.
Qed.

(** X16.  On a ledger that is not empty and whose growth series has finite
    values, the statistics under the growth line are defined: there is one
    data point per date of the ledger, the first and the last value are those
    of the first and of the last date, the maximum and the minimum are values
    of the series that bound all the others, the total growth is the last
    value minus the first, and the growth in percent is that growth divided
    by the first value, times 100, or 0 when the first value is not above
    zero. *)
Theorem line_stats (ts : list TradeRecord) (livePrices : JsMap StockPrice) :
  ts <> [] ->
  Forall (fun p => finite (gp_value p))
         (calculatePortfolioGrowthOverTime getTime ts livePrices) ->
  let series := calculatePortfolioGrowthOverTime getTime ts livePrices in
  exists st p0 pn,
    portfolioStats (lineChartData getTime formatDate ts livePrices) = Some st
    /\ ls_dataPoints st = List.length (growthDates getTime ts)
    /\ nth_error series 0 = Some p0
    /\ nth_error series (List.length series - 1) = Some pn
    /\ ls_firstValue st =n= gp_value p0
    /\ ls_lastValue st =n= gp_value pn
    /\ (exists p, In p series /\ ls_maxValue st = gp_value p)
    /\ (exists p, In p series /\ ls_minValue st = gp_value p)
    /\ (forall p, In p series ->
          toQ (ls_minValue st) <= toQ (gp_value p) <= toQ (ls_maxValue st))
    /\ ls_totalGrowth st = (ls_lastValue st - ls_firstValue st)%num
    /\ ls_totalGrowthPercent st
       = if (ls_firstValue st >? lit 0)%num
         then (ls_totalGrowth st / ls_firstValue st * lit 100)%num
         else lit 0.
Proof.
  intros Hne Hfin series.
  pose proof (growthSeries_nonempty ts livePrices Hne) as Hpos.
  pose proof (dates_of_series getTime ts livePrices) as Hdates.
  fold series in Hfin, Hpos, Hdates.
  unfold lineChartData. fold series.
  assert (E0 : Nat.eqb (List.length ts) 0 = false).
  { apply Nat.eqb_neq. destruct ts; [contradiction|]. discriminate. }
  rewrite E0.
  set (mk := fun item : GrowthPoint =>
               mkLinePoint (gp_date item) (gp_value item)
                           (formatDate (gp_date item))).
  unfold portfolioStats. rewrite length_map.
  assert (E1 : Nat.eqb (List.length series) 0 = false)
    by (apply Nat.eqb_neq; lia).
  rewrite E1.
  rewrite !nth_error_map, map_map.
  change (map (fun x => lp_value (mk x)) series) with (map gp_value series).
  destruct (nth_error series 0) as [p0|] eqn:N0;
    [|apply nth_error_None in N0; lia].
  destruct (nth_error series (List.length series - 1)) as [pn|] eqn:Nn;
    [|apply nth_error_None in Nn; lia].
  cbn [option_map]. change (lp_value (mk p0)) with (gp_value p0).
  change (lp_value (mk pn)) with (gp_value pn).
  rewrite Forall_forall in Hfin.
  pose proof (Hfin p0 (nth_error_In _ _ N0)) as Hf0.
  pose proof (Hfin pn (nth_error_In _ _ Nn)) as Hfn.
  rewrite (finite_toQ _ Hf0), (finite_toQ _ Hfn).
  set (a := toQ (gp_value p0)). set (b := toQ (gp_value pn)).
  destruct (orZero_Some_Fin a) as [a' [-> Ha]].
  destruct (orZero_Some_Fin b) as [b' [-> Hb]].
  subst a b.
  assert (Hvals : Forall finite (map gp_value series)).
  { apply Forall_forall. intros v Hin. apply in_map_iff in Hin.
    destruct Hin as [p [<- Hp]]. now apply Hfin. }
  assert (Hvne : map gp_value series <> []).
  { destruct series; [cbn in Hpos; lia|discriminate]. }
  destruct (Math_max_spec _ Hvals Hvne) as [Hmax1 Hmax2].
  destruct (Math_min_spec _ Hvals Hvne) as [Hmin1 Hmin2].
  eexists. exists p0, pn. split; [reflexivity|].
  cbn [ls_dataPoints ls_firstValue ls_lastValue ls_maxValue ls_minValue
       ls_totalGrowth ls_totalGrowthPercent toQ].
  split; [now rewrite <- Hdates, length_map|].
  split; [reflexivity|]. split; [reflexivity|].
  split; [rewrite (finite_toQ _ Hf0); exact Ha|].
  split; [rewrite (finite_toQ _ Hfn); exact Hb|].
  split.
  { apply in_map_iff in Hmax1. destruct Hmax1 as [p [E Hp]].
    exists p. split; [exact Hp|now symmetry]. }
  split.
  { apply in_map_iff in Hmin1. destruct Hmin1 as [p [E Hp]].
    exists p. split; [exact Hp|now symmetry]. }
  split.
  { intros p Hp. split.
    - apply Hmin2. now apply in_map.
    - apply Hmax2. now apply in_map. }
  split; reflexivity.
Qed.
End LineStats.

Lemma line_stats_witness :
  exampleLedger <> []
  /\ Forall (fun p => finite (gp_value p))
       (calculatePortfolioGrowthOverTime exampleGetTime exampleLedger
          examplePrices)
  /\ exists st,
       portfolioStats
         (lineChartData exampleGetTime (fun s => s) exampleLedger
            examplePrices)
       = Some st
       /\ ls_dataPoints st
          = List.length (growthDates exampleGetTime exampleLedger).
Proof.
  assert (H1 : exampleLedger <> []) by discriminate.
  assert (H2 : Forall (fun p => finite (gp_value p))
                 (calculatePortfolioGrowthOverTime exampleGetTime
                    exampleLedger examplePrices))
    by (vm_compute; repeat constructor).
  split; [exact H1|]. split; [exact H2|].
  destruct (line_stats exampleGetTime (fun s => s) exampleLedger examplePrices
              H1 H2) as [st [p0 [pn [E [Hd _]]]]].
  exists st. split; [exact E|exact Hd].
Defined.

(* ================================================================== *)
(** ** The price feed *)
(* ================================================================== *)

Lemma runEvents_snoc (m : Manager) (events : list SocketEvent)
    (e : SocketEvent) :
  runEvents m (events ++ [e])
  = (fst (handle (fst (runEvents m events)) e),
     snd (runEvents m events) ++ snd (handle (fst (runEvents m events)) e)).
Proof.
  unfold runEvents. rewrite fold_left_app. cbn [fold_left].
  now destruct (handle _ e).
Qed.

Lemma timeouts_app (l l' : list Effect) :
  timeouts (l ++ l') = timeouts l ++ timeouts l'.
Proof. unfold timeouts. apply flat_map_app. Qed.

Lemma close_timeouts (m : Manager) (wasClean : bool) :
  managerInv m ->
  timeouts (snd (handle m (Close wasClean)))
  = if negb wasClean && (reconnectAttempts m <? 5)%Z
    then [(1000 * 2 ^ reconnectAttempts m)%Z]
    else [].
Proof.
  intros [Ha [Hmax Hd]].
  cbn [handle]. unfold onclose, scheduleReconnect.
  cbn [reconnectAttempts maxReconnectAttempts reconnectDelay isConnecting].
  rewrite Hmax, Hd.
  destruct wasClean; cbn [negb andb]; [reflexivity|].
  destruct (Z.ltb_spec (reconnectAttempts m) 5) as [Hlt|Hge];
    [|reflexivity].
  cbn [snd timeouts flat_map app]. f_equal.
  replace (reconnectAttempts m + 1 - 1)%Z with (reconnectAttempts m) by lia.
  assert (Hcase : reconnectAttempts m = 0%Z \/ reconnectAttempts m = 1%Z
                  \/ reconnectAttempts m = 2%Z \/ reconnectAttempts m = 3%Z
                  \/ reconnectAttempts m = 4%Z) by lia.
  destruct Hcase as [E|[E|[E|[E|E]]]]; rewrite E; reflexivity.
Qed.

Lemma handle_inv (m : Manager) (e : SocketEvent) :
  managerInv m ->
  managerInv (fst (handle m e))
  /\ Forall (fun d => In d backoffDelays) (timeouts (snd (handle m e))).
Proof.
  intro Hinv. split.
  - destruct Hinv as [Ha [Hmax Hd]]. unfold managerInv.
    destruct e as [socketOpen| |wasClean|]; cbn [handle].
    + unfold connect. destruct socketOpen; [now cbn|].
      destruct (isConnecting m); now cbn.
    + unfold onopen. cbn. repeat split; try lia; assumption.
    + unfold onclose, scheduleReconnect.
      cbn [reconnectAttempts maxReconnectAttempts reconnectDelay
           isConnecting].
      destruct wasClean; cbn [negb andb]; [now cbn|].
      rewrite Hmax.
      destruct (Z.ltb_spec (reconnectAttempts m) 5) as [Hlt|Hge];
        cbn [fst reconnectAttempts maxReconnectAttempts reconnectDelay];
        repeat split; try lia; assumption.
    + unfold onerror. now cbn.
  - destruct e as [socketOpen| |wasClean|].
    + cbn [handle]. unfold connect. destruct socketOpen; [constructor|].
      destruct (isConnecting m); constructor.
    + constructor.
    + rewrite (close_timeouts m wasClean Hinv).
      destruct (negb wasClean && (reconnectAttempts m <? 5)%Z) eqn:E;
        [|constructor].
      apply andb_true_iff in E. destruct E as [_ E].
      apply Z.ltb_lt in E. destruct Hinv as [Ha _].
      constructor; [|constructor].
      assert (Hcase : reconnectAttempts m = 0%Z \/ reconnectAttempts m = 1%Z
                      \/ reconnectAttempts m = 2%Z \/ reconnectAttempts m = 3%Z
                      \/ reconnectAttempts m = 4%Z) by lia.
      unfold backoffDelays.
      destruct Hcase as [E'|[E'|[E'|[E'|E']]]]; rewrite E'; cbn; tauto.
    + constructor.
Qed.

Lemma runEvents_inv (events : list SocketEvent) :
  managerInv (fst (runEvents newManager events))
  /\ Forall (fun d => In d backoffDelays)
            (timeouts (snd (runEvents newManager events))).
Proof.
  induction events as [|e events IH] using rev_ind.
  - split; [|constructor]. unfold managerInv. cbn. lia.
  - destruct IH as [IH1 IH2]. rewrite runEvents_snoc. cbn [fst snd].
    destruct (handle_inv _ e IH1) as [H1 H2].
    split; [exact H1|]. rewrite timeouts_app. apply Forall_app. now split.
Qed.

(** X17.  However the socket opens, closes and fails, the manager never
    counts more than 5 reconnection attempts, and every timer it arms waits
    1000, 2000, 4000, 8000 or 16000 milliseconds: the cap of 30000 is never
    reached.  A close that is not clean arms one timer of
    [1000 * 2 ^ attempts] milliseconds while fewer than 5 attempts were made
    since the socket last opened, and none after that; a clean close arms
    none. *)
Theorem reconnect_backoff (events : list SocketEvent) :
  let m := fst (runEvents newManager events) in
  (0 <= reconnectAttempts m <= 5)%Z
  /\ Forall (fun d => In d backoffDelays)
            (timeouts (snd (runEvents newManager events)))
  /\ forall wasClean,
       timeouts (snd (handle m (Close wasClean)))
       = if negb wasClean && (reconnectAttempts m <? 5)%Z
         then [(1000 * 2 ^ reconnectAttempts m)%Z]
         else [].
Proof.
  intro m. destruct (runEvents_inv events) as [Hinv Hd].
  split; [exact (proj1 Hinv)|]. split; [exact Hd|].
  intro wasClean. now apply close_timeouts.
Qed.

(** *** A price update *)

Lemma makeHolding_symbol (livePrices : JsMap StockPrice)
    (kv : string * Position) :
  h_symbol (makeHolding livePrices kv) = fst kv.
Proof. now destruct kv. Qed.

Lemma makeHolding_costColumns (livePrices livePrices' : JsMap StockPrice)
    (kv : string * Position) :
  costColumns (makeHolding livePrices kv)
  = costColumns (makeHolding livePrices' kv).
Proof. now destruct kv. Qed.

Lemma makeHolding_other (livePrices : JsMap StockPrice) (q : StockPrice)
    (kv : string * Position) :
  fst kv <> sp_symbol q ->
  makeHolding (onPriceUpdate livePrices q) kv = makeHolding livePrices kv.
Proof.
  destruct kv as [sym p]. cbn [fst]. intro Hne.
  unfold makeHolding, rawCurrentValue, onPriceUpdate.
  now rewrite (mapGet_mapSet_neq _ _ _ _ Hne).
Qed.

(** X18.  A price update for one symbol, as the dashboard applies it, leaves
    every other holding of the summary as it was, changes neither
    [totalInvested] nor the symbol, quantity, average price and invested value
    of any holding, and values the holding of that symbol at its quantity
    times the new price, rounded to cents. *)
Theorem price_update_isolated (ts : list TradeRecord)
    (livePrices : JsMap StockPrice) (stockPrice : StockPrice) :
  let s := calculatePortfolioSummary ts livePrices in
  let s' := calculatePortfolioSummary ts (onPriceUpdate livePrices stockPrice) in
  totalInvested s' = totalInvested s
  /\ (forall h, h_symbol h <> sp_symbol stockPrice ->
                (In h (holdings s') <-> In h (holdings s)))
  /\ Permutation (map costColumns (holdings s'))
                 (map costColumns (holdings s))
  /\ (forall h, In h (holdings s') -> h_symbol h = sp_symbol stockPrice ->
                currentValue h
                = roundCents (h_quantity h * sp_price stockPrice)%num).
Proof.
  intros s s'.
  pose proof (summary_holdings_Permutation ts livePrices) as Hp.
  pose proof (summary_holdings_Permutation ts
                (onPriceUpdate livePrices stockPrice)) as Hp'.
  fold s in Hp. fold s' in Hp'.
  split; [reflexivity|]. split; [|split].
  - intros h Hne. split; intro Hin.
    + apply (Permutation_in _ Hp') in Hin. apply in_map_iff in Hin.
      destruct Hin as [kv [E Hkv]]. subst h.
      rewrite makeHolding_symbol in Hne.
      rewrite (makeHolding_other _ _ _ Hne).
      apply (Permutation_in _ (Permutation_sym Hp)). now apply in_map.
    + apply (Permutation_in _ Hp) in Hin. apply in_map_iff in Hin.
      destruct Hin as [kv [E Hkv]]. subst h.
      rewrite makeHolding_symbol in Hne.
      rewrite <- (makeHolding_other _ stockPrice _ Hne).
      apply (Permutation_in _ (Permutation_sym Hp')). now apply in_map.
  - rewrite (Permutation_map costColumns Hp'),
            (Permutation_map costColumns Hp), !map_map.
    erewrite map_ext; [reflexivity|].
    intro kv. apply makeHolding_costColumns.
  - intros h Hin Hsym.
    apply (Permutation_in _ Hp') in Hin. apply in_map_iff in Hin.
    destruct Hin as [[sym p] [E Hkv]]. subst h.
    cbn [makeHolding h_symbol] in Hsym. subst sym.
    cbn [makeHolding currentValue h_quantity].
    unfold rawCurrentValue, onPriceUpdate.
    now rewrite mapGet_mapSet_eq.
Qed.

(** *** The mock feed *)

(** Rounding to cents does not leave an interval whose ends are whole
    cents. *)
Lemma roundCents_between (a : Q) (l u : Z) :
  inject_Z l / inject_Z 100 <= a <= inject_Z u / inject_Z 100 ->
  inject_Z l / inject_Z 100 <= toQ (roundCents (Fin a))
                            <= inject_Z u / inject_Z 100.
Proof.
  intros [Hl Hu]. rewrite roundCents_Fin. cbn [toQ].
  change (inject_Z 100) with 100 in *.
  unfold Qdiv in *. change (/ 100) with (1 # 100) in *.
  set (z := a * 100 + (1 # 2)).
  assert (H1 : (l <= Qfloor z)%Z).
  { rewrite <- (Qfloor_Z l). apply Qfloor_resp_le. subst z. lra. }
  assert (H2 : (Qfloor z <= u)%Z).
  { pose proof (Qfloor_le z) as Hf.
    assert (Hlt : inject_Z (Qfloor z) < inject_Z (u + 1)).
    { rewrite inject_Z_plus. change (inject_Z 1) with 1. subst z. lra. }
    rewrite <- Zlt_Qlt in Hlt. lia. }
  rewrite Zle_Qle in H1, H2. split; lra.
Qed.

Lemma baseOf_mockSymbols (symbol : string) :
  In symbol mockSymbols ->
  exists base : Z,
    mapGet symbol basePrice = Some (lit base)
    /\ baseOf symbol = lit base /\ (150 <= base)%Z.
Proof.
  unfold mockSymbols. cbn [In].
  intros [<-|[<-|[<-|[<-|[<-|[<-|[<-|[<-|[]]]]]]]]];
    eexists; (split; [reflexivity|split; [reflexivity|lia]]).
Qed.

Lemma mockQuote_spec (random now : number) (symbol : string) :
  unitInterval random -> In symbol mockSymbols ->
  let q := mockQuote random now symbol in
  exists base : Z,
    mapGet (sp_symbol q) basePrice = Some (lit base)
    /\ isPositive (sp_price q)
    /\ inject_Z base - 5 <= toQ (sp_price q) <= inject_Z base + 5
    /\ finite (change q) /\ -5 <= toQ (change q) <= 5
    /\ finite (changePercent q).
Proof.
  intros Hr Hin q. subst q.
  destruct (baseOf_mockSymbols symbol Hin) as [base [Hget [Hbase Hb]]].
  exists base. unfold mockQuote. rewrite Hbase.
  cbn [sp_symbol sp_price change changePercent].
  destruct random as [r| | |]; try contradiction. cbn [unitInterval] in Hr.
  split; [exact Hget|].
  assert (HbQ : 150 <= inject_Z base).
  { change 150 with (inject_Z 150). rewrite <- Zle_Qle. exact Hb. }
  unfold lit, dec. cbn [sub add neg mul].
  assert (Hprice : inject_Z (base * 100 + -500) / inject_Z 100
                   <= toQ (roundCents
                             (Fin (inject_Z base
                                   + (r + - (5 # 10)) * inject_Z 10)))
                   <= inject_Z (base * 100 + 500) / inject_Z 100).
  { apply roundCents_between.
    rewrite !inject_Z_plus, !inject_Z_mult.
    change (inject_Z 100) with 100. change (inject_Z 10) with 10.
    change (inject_Z (-500)) with (-500). change (inject_Z 500) with 500.
    unfold Qdiv. change (/ 100) with (1 # 100). split; lra. }
  assert (Hchange : inject_Z (-500) / inject_Z 100
                    <= toQ (roundCents (Fin ((r + - (5 # 10)) * inject_Z 10)))
                    <= inject_Z 500 / inject_Z 100).
  { apply roundCents_between.
    change (inject_Z 100) with 100. change (inject_Z 10) with 10.
    change (inject_Z (-500)) with (-500). change (inject_Z 500) with 500.
    unfold Qdiv. change (/ 100) with (1 # 100). split; lra. }
  rewrite !inject_Z_plus, !inject_Z_mult in Hprice.
  rewrite ?roundCents_Fin in *. cbn [toQ] in Hprice, Hchange.
  cbn [isPositive toQ finite].
  rewrite div_Fin by lra. cbn [mul Math_round].
  rewrite div_Fin by (change (inject_Z 100) with 100; lra).
  cbn [finite].
  change (inject_Z 100) with 100 in *. change (inject_Z 10) with 10 in *.
  change (inject_Z (-500)) with (-500) in *.
  change (inject_Z 500) with 500 in *.
  unfold Qdiv in *. change (/ 100) with (1 # 100) in *.
  repeat split; try lra; exact I.
Qed.

Lemma fold_onPriceUpdate_other (qs : list StockPrice)
    (prev : JsMap StockPrice) (sym : string) :
  ~ In sym (map sp_symbol qs) ->
  mapGet sym (fold_left onPriceUpdate qs prev) = mapGet sym prev.
Proof.
  revert prev. induction qs as [|q qs IH]; intros prev Hnin; [reflexivity|].
  cbn [fold_left]. rewrite IH.
  - unfold onPriceUpdate. apply mapGet_mapSet_neq.
    intro E. apply Hnin. left. now symmetry.
  - intro H. apply Hnin. now right.
Qed.

Lemma fold_onPriceUpdate_get (qs : list StockPrice)
    (prev : JsMap StockPrice) (q : StockPrice) :
  NoDup (map sp_symbol qs) -> In q qs ->
  mapGet (sp_symbol q) (fold_left onPriceUpdate qs prev) = Some q.
Proof.
  revert prev. induction qs as [|q0 qs IH]; intros prev Hnd Hin.
  - contradiction.
  - cbn [map] in Hnd. inversion Hnd as [|? ? Hnin Hnd']; subst.
    cbn [fold_left]. destruct Hin as [->|Hin].
    + rewrite (fold_onPriceUpdate_other _ _ _ Hnin).
      unfold onPriceUpdate. apply mapGet_mapSet_eq.
    + now apply IH.
Qed.

Lemma fold_onPriceUpdate_nonneg (qs : list StockPrice)
    (prev : JsMap StockPrice) :
  Forall (fun q => nonneg (sp_price q)) qs ->
  Forall nonnegQuote prev ->
  Forall nonnegQuote (fold_left onPriceUpdate qs prev).
Proof.
  intro Hqs. revert prev.
  induction Hqs as [|q qs Hq _ IH]; intros prev Hprev; [exact Hprev|].
  cbn [fold_left]. apply IH. unfold onPriceUpdate.
  apply Forall_mapSet; [exact Hq|exact Hprev].
Qed.

(** X19.  Whatever [Math.random()] returns in [[0, 1)], the mock feed
    produces one quote for each of its eight symbols, in the order of the
    list, at a positive price within 5 of the base price of the symbol, with
    a change between -5 and 5 and a finite percentage.  After a tick of the
    feed, the dashboard holds each of these quotes under its symbol, and its
    prices, if none was negative before, are still not negative. *)
Theorem mock_quotes (random now : nat -> number) :
  (forall i, unitInterval (random i)) ->
  let quotes := generateMockStockData random now in
  map sp_symbol quotes = mockSymbols
  /\ Forall (fun q =>
               exists base : Z,
                 mapGet (sp_symbol q) basePrice = Some (lit base)
                 /\ isPositive (sp_price q)
                 /\ inject_Z base - 5 <= toQ (sp_price q) <= inject_Z base + 5
                 /\ finite (change q) /\ -5 <= toQ (change q) <= 5
                 /\ finite (changePercent q))
            quotes
  /\ forall prev,
       (forall q, In q quotes ->
                  mapGet (sp_symbol q) (mockTick random now prev) = Some q)
       /\ (Forall nonnegQuote prev ->
           Forall nonnegQuote (mockTick random now prev)).
Proof.
  intros Hr quotes.
  assert (Hsym : map sp_symbol quotes = mockSymbols) by reflexivity.
  assert (Hall : Forall (fun q =>
               exists base : Z,
                 mapGet (sp_symbol q) basePrice = Some (lit base)
                 /\ isPositive (sp_price q)
                 /\ inject_Z base - 5 <= toQ (sp_price q) <= inject_Z base + 5
                 /\ finite (change q) /\ -5 <= toQ (change q) <= 5
                 /\ finite (changePercent q))
            quotes).
  { apply Forall_forall. intros q Hin.
    destruct (mapIndexed_In _ _ _ _ Hin) as [symbol [j [Hs ->]]].
    exact (mockQuote_spec (random j) (now j) symbol (Hr j) Hs). }
  split; [exact Hsym|]. split; [exact Hall|].
  intro prev. unfold mockTick. fold quotes. split.
  - intros q Hin. apply fold_onPriceUpdate_get; [|exact Hin].
    rewrite Hsym. unfold mockSymbols.
    assert (E : nodup string_dec
                  [ "AAPL"; "GOOGL"; "MSFT"; "AMZN"; "TSLA"; "META"; "NVDA";
                    "NFLX" ]%string
                = [ "AAPL"; "GOOGL"; "MSFT"; "AMZN"; "TSLA"; "META"; "NVDA";
                    "NFLX" ]%string) by (vm_compute; reflexivity).
    rewrite <- E. apply NoDup_nodup.
  - apply fold_onPriceUpdate_nonneg.
    eapply Forall_impl; [|exact Hall].
    intros q [base [_ [Hpos _]]].
    destruct (sp_price q); try contradiction.
    cbn [isPositive nonneg] in *. lra.
Qed.

Lemma mock_quotes_witness :
  (forall i : nat, unitInterval ((fun _ => dec 25 100) i))
  /\ map sp_price (generateMockStockData (fun _ => dec 25 100) (fun _ => lit 0))
     = [ dec 14750 100; dec 279750 100; dec 29750 100; dec 319750 100;
         dec 79750 100; dec 34750 100; dec 89750 100; dec 39750 100 ]
  /\ map sp_symbol
       (generateMockStockData (fun _ => dec 25 100) (fun _ => lit 0))
     = mockSymbols.
Proof.
  assert (H : forall i : nat, unitInterval ((fun _ => dec 25 100) i)).
  { intro i. cbn. split; [discriminate|reflexivity]. }
  split; [exact H|]. split; [reflexivity|].
  exact (proj1 (mock_quotes (fun _ => dec 25 100) (fun _ => lit 0) H)).
Defined.

(* ================================================================== *)
(** ** The end of the growth series and the total of the summary *)
(* ================================================================== *)

#[export] Instance Fin_Proper : Proper (Qeq ==> num_eq) Fin.
Proof. intros a b H. exact H. Qed.

Lemma runningMapAfter_flat_map (tradesByDate : JsMap (list TradeRecord))
    (hs : JsMap Lot) (ds : list string) :
  runningMapAfter tradesByDate hs ds
  = fold_left growthTrade (flat_map (tradesOn tradesByDate) ds) hs.
Proof.
  unfold runningMapAfter. revert hs.
  induction ds as [|d ds IH]; intro hs; [reflexivity|].
  cbn [fold_left flat_map]. now rewrite fold_left_app, IH.
Qed.

Lemma flat_map_ext_In {A B : Type} (f g : A -> list B) (l : list A) :
  (forall a, In a l -> f a = g a) -> flat_map f l = flat_map g l.
Proof.
  induction l as [|a l IH]; intro H; [reflexivity|].
  cbn [flat_map]. rewrite (H a (or_introl eq_refl)), IH; [reflexivity|].
  intros x Hx. apply H. now right.
Qed.

Lemma growthDays_last (tradesByDate : JsMap (list TradeRecord))
    (livePrices : JsMap StockPrice) (ds : list string) (d : string)
    (st : JsMap Lot * list GrowthPoint) :
  snd (fold_left (growthDay tradesByDate livePrices) (ds ++ [d]) st)
  = snd (fold_left (growthDay tradesByDate livePrices) ds st)
    ++ [mkGrowthPoint d
          (roundCents
             (portfolioValueOf livePrices
                (fst (fold_left (growthDay tradesByDate livePrices)
                        (ds ++ [d]) st))))].
Proof. rewrite fold_left_app. reflexivity. Qed.

Lemma nth_error_last {A : Type} (l : list A) (x : A) :
  nth_error (l ++ [x]) (List.length (l ++ [x]) - 1) = Some x.
Proof.
  rewrite length_app. cbn [List.length].
  replace (List.length l + 1 - 1)%nat with (List.length l) by lia.
  rewrite nth_error_app2 by apply Nat.le_refl.
  now rewrite Nat.sub_diag.
Qed.

(* ================================================================== *)
(** ** What the sort by time changes in the growth series *)
(* ================================================================== *)

(** A number less itself is not above zero, be it [NaN]. *)
Lemma sub_self_not_gt (v : number) : ((v - v)%num >? lit 0)%num = false.
Proof.
  destruct v as [a| | |]; try reflexivity.
  cbn [sub add neg]. apply gt_Fin_false. change (inject_Z 0) with 0. lra.
Qed.

Section SameDate.
Variable getTime : string -> number.

Lemma filter_date_insertBy (d : string) (x : TradeRecord)
    (l : list TradeRecord) :
  filter (fun t => String.eqb (date t) d)
         (insertBy (fun a b => (getTime (date a) - getTime (date b))%num) x l)
  = if String.eqb (date x) d
    then x :: filter (fun t => String.eqb (date t) d) l
    else filter (fun t => String.eqb (date t) d) l.
Proof.
  induction l as [|y l IH].
  - cbn [insertBy filter]. now destruct (String.eqb (date x) d).
  - cbn [insertBy].
    destruct ((getTime (date x) - getTime (date y))%num >? lit 0)%num eqn:G.
    + assert (Hne : date x <> date y).
      { intro E. rewrite E, sub_self_not_gt in G. discriminate. }
      cbn [filter]. rewrite IH.
      destruct (String.eqb (date y) d) eqn:Ey; [|reflexivity].
      destruct (String.eqb (date x) d) eqn:Ex; [|reflexivity].
      apply String.eqb_eq in Ex, Ey. exfalso. apply Hne. congruence.
    + cbn [filter]. now destruct (String.eqb (date x) d).
Qed.

(** The trades of one date come out of the sort in the order of the
    ledger. *)
Lemma filter_date_sortTradesByDate (d : string) (ts : list TradeRecord) :
  filter (fun t => String.eqb (date t) d) (sortTradesByDate getTime ts)
  = filter (fun t => String.eqb (date t) d) ts.
Proof.
  unfold sortTradesByDate, sortBy.
  induction ts as [|t ts IH]; [reflexivity|].
  cbn [fold_right]. rewrite filter_date_insertBy, IH. reflexivity.
Qed.
End SameDate.

Lemma strLt_sorted_unique (l l' : list string) :
  StronglySorted strLt l -> StronglySorted strLt l' ->
  (forall x, In x l <-> In x l') -> l = l'.
Proof.
  intro Hl. revert l'.
  induction Hl as [|a l Hl IH Ha]; intros l' Hl' Hin.
  - destruct l' as [|b l']; [reflexivity|].
    exfalso. apply (proj2 (Hin b)). now left.
  - destruct Hl' as [|b l' Hl' Hb].
    + exfalso. apply (proj1 (Hin a)). now left.
    + rewrite Forall_forall in Ha, Hb.
      assert (Hab : a = b).
      { destruct (proj1 (Hin a) (or_introl eq_refl)) as [E|Ha'];
          [now symmetry|].
        destruct (proj2 (Hin b) (or_introl eq_refl)) as [E|Hb'];
          [exact E|].
        exfalso. apply (strLt_irrefl a).
        transitivity b; [now apply Ha|now apply Hb]. }
      subst b. f_equal. apply IH; [exact Hl'|].
      intro x. split; intro Hx.
      * destruct (proj1 (Hin x) (or_intror Hx)) as [E|Hx']; [|exact Hx'].
        subst x. exfalso. apply (strLt_irrefl a). now apply Ha.
      * destruct (proj2 (Hin x) (or_intror Hx)) as [E|Hx']; [|exact Hx'].
        subst x. exfalso. apply (strLt_irrefl a). now apply Hb.
Qed.

Lemma growthDays_ext (tradesByDate tradesByDate' : JsMap (list TradeRecord))
    (livePrices : JsMap StockPrice) (ds : list string)
    (st : JsMap Lot * list GrowthPoint) :
  (forall d, tradesOn tradesByDate d = tradesOn tradesByDate' d) ->
  fold_left (growthDay tradesByDate livePrices) ds st
  = fold_left (growthDay tradesByDate' livePrices) ds st.
Proof.
  intro H. revert st.
  induction ds as [|d ds IH]; intro st; [reflexivity|].
  cbn [fold_left]. rewrite IH. f_equal.
  unfold growthDay. now rewrite H.
Qed.

(** X21.  So long as [new Date(date).getTime()] returns a number for every
    date of the ledger, the growth series does not depend on which: the dates
    are visited in the order of their strings, and the trades of a date are
    replayed in the order of the ledger.  The sort by time at line 127
    changes nothing in the result.  (On a date it cannot read [getTime]
    returns [NaN]; the comparator of the sort is then inconsistent and the
    order of its result is left to the implementation.) *)
Theorem growth_ignores_getTime (getTime getTime' : string -> number)
    (ts : list TradeRecord) (livePrices : JsMap StockPrice) :
  Forall (fun t => finite (getTime (date t)) /\ finite (getTime' (date t)))
         ts ->
  calculatePortfolioGrowthOverTime getTime ts livePrices
  = calculatePortfolioGrowthOverTime getTime' ts livePrices
  /\ growthDates getTime ts = growthDates getTime' ts
  /\ forall d,
       tradesOn (groupByDate (sortTradesByDate getTime ts)) d
       = filter (fun t => String.eqb (date t) d) ts.
Proof.
  intros _.
  assert (Hday : forall (gt : string -> number) d,
             tradesOn (groupByDate (sortTradesByDate gt ts)) d
             = filter (fun t => String.eqb (date t) d) ts).
  { intros gt d. rewrite tradesOn_groupByDate.
    apply filter_date_sortTradesByDate. }
  assert (Hdates : growthDates getTime ts = growthDates getTime' ts).
  { apply strLt_sorted_unique; try apply growthDates_strict.
    intro x. now rewrite !In_growthDates. }
  split; [|split; [exact Hdates|apply Hday]].
  unfold calculatePortfolioGrowthOverTime, growthLoop.
  destruct (Nat.eqb (List.length ts) 0); [reflexivity|].
  rewrite Hdates. f_equal. apply growthDays_ext.
  intro d. now rewrite !Hday.
Qed.

(** The times of the worked example, and the same times counted backwards:
    both are numbers on the dates of the ledger. *)
Lemma growth_ignores_getTime_witness :
  Forall (fun t => finite (exampleGetTime (date t))
                   /\ finite (neg (exampleGetTime (date t))))
         exampleLedger
  /\ calculatePortfolioGrowthOverTime exampleGetTime exampleLedger
       examplePrices
     = calculatePortfolioGrowthOverTime (fun s => neg (exampleGetTime s))
         exampleLedger examplePrices.
Proof.
  assert (H : Forall (fun t => finite (exampleGetTime (date t))
                               /\ finite (neg (exampleGetTime (date t))))
                     exampleLedger)
    by (repeat constructor).
  split; [exact H|].
  exact (proj1 (growth_ignores_getTime exampleGetTime
                  (fun s => neg (exampleGetTime s)) exampleLedger
                  examplePrices H)).
Defined.

(* ================================================================== *)
(** ** The signs of a profit and of its percentage *)
(* ================================================================== *)

Lemma roundCents_sign (a : Q) :
  (0 <= a -> 0 <= toQ (roundCents (Fin a)))
  /\ (a <= 0 -> toQ (roundCents (Fin a)) <= 0).
Proof.
  split; intro Ha.
  - destruct (roundCents_between a 0 (Qceiling (a * inject_Z 100))) as [H _];
      [|change (inject_Z 0 / inject_Z 100) with (0 # 100) in H; lra].
    pose proof (Qle_ceiling (a * inject_Z 100)) as Hc.
    change (inject_Z 100) with 100 in *. change (inject_Z 0) with 0.
    unfold Qdiv. change (/ 100) with (1 # 100). split; lra.
  - destruct (roundCents_between a (Qfloor (a * inject_Z 100)) 0) as [_ H];
      [|change (inject_Z 0 / inject_Z 100) with (0 # 100) in H; lra].
    pose proof (Qfloor_le (a * inject_Z 100)) as Hf.
    change (inject_Z 100) with 100 in *. change (inject_Z 0) with 0.
    unfold Qdiv. change (/ 100) with (1 # 100). split; lra.
Qed.

Lemma calculatePnL_signs (invested current : number) :
  finite invested -> finite current ->
  let r := calculatePnL invested current in
  finite (absolute r) /\ finite (percentage r)
  /\ (0 < toQ (absolute r) -> 0 <= toQ (percentage r))
  /\ (toQ (absolute r) < 0 -> toQ (percentage r) <= 0).
Proof.
  intros Hi Hc r. subst r. unfold calculatePnL. cbn [absolute percentage].
  destruct invested as [i| | |]; try contradiction.
  destruct current as [c| | |]; try contradiction.
  cbn [sub add neg].
  destruct (roundCents_sign (c + - i)) as [Hpos Hneg].
  assert (Habs : finite (roundCents (Fin (c + - i))))
    by (rewrite roundCents_Fin; exact I).
  destruct (Fin i >? lit 0)%num eqn:G.
  - apply gt_Fin in G. change (inject_Z 0) with 0 in G.
    rewrite div_Fin by lra. cbn [mul lit].
    destruct (roundCents_sign ((c + - i) / i * inject_Z 100)) as [Hp Hn].
    split; [exact Habs|]. split; [rewrite roundCents_Fin; exact I|].
    change (inject_Z 100) with 100 in *.
    split; intro H.
    + apply Hp.
      assert (Hge : 0 <= c + - i).
      { destruct (Qlt_le_dec (c + - i) 0) as [Hlt|Hge]; [|exact Hge].
        assert (toQ (roundCents (Fin (c + - i))) <= 0) by (apply Hneg; lra).
        lra. }
      assert (Hd : 0 <= (c + - i) / i) by (apply Qle_shift_div_l; lra).
      apply Qmult_le_0_compat; [exact Hd|lra].
    + apply Hn.
      assert (Hle : c + - i <= 0).
      { destruct (Qlt_le_dec 0 (c + - i)) as [Hlt|Hle]; [|exact Hle].
        assert (0 <= toQ (roundCents (Fin (c + - i)))) by (apply Hpos; lra).
        lra. }
      assert (Hd : (c + - i) / i <= 0) by (apply Qle_shift_div_r; lra).
      setoid_replace 0 with (0 * 100) by ring.
      apply Qmult_le_compat_r; [exact Hd|lra].
  - split; [exact Habs|].
    assert (E : roundCents (lit 0) = Fin (0 / inject_Z 100)) by reflexivity.
    rewrite E. cbn [finite toQ].
    split; [exact I|].
    change (0 / inject_Z 100) with (0 # 100).
    split; intros _; vm_compute; discriminate.
Qed.

(** X23.  For finite amounts, the profit [calculatePnL] returns and its
    percentage are never of opposite signs: a profit above zero comes with a
    percentage that is not below zero, and a loss with a percentage that is
    not above zero.  (Either may round to zero on its own.) *)
Theorem pnl_signs_agree (invested current : number) :
  finite invested -> finite current ->
  let r := calculatePnL invested current in
  ((absolute r >? lit 0)%num = true -> (percentage r <? lit 0)%num = false)
  /\ ((absolute r <? lit 0)%num = true -> (percentage r >? lit 0)%num = false).
Proof.
  intros Hi Hc r.
  destruct (calculatePnL_signs invested current Hi Hc)
    as [Ha [Hp [Hpos Hneg]]].
  fold r in Ha, Hp, Hpos, Hneg.
  rewrite (finite_toQ _ Ha), (finite_toQ _ Hp).
  unfold lt, lit. rewrite !gt_Fin, !gt_Fin_false.
  change (inject_Z 0) with 0. split; intro H.
  - now apply Hpos.
  - now apply Hneg.
Qed.

Lemma pnl_signs_agree_witness :
  finite (lit 7525) /\ finite (lit 8000)
  /\ ((absolute (calculatePnL (lit 7525) (lit 8000)) >? lit 0)%num = true ->
      (percentage (calculatePnL (lit 7525) (lit 8000)) <? lit 0)%num = false).
Proof.
  split; [exact I|]. split; [exact I|].
  exact (proj1 (pnl_signs_agree (lit 7525) (lit 8000) I I)).
Defined.

(** ** Lists of dates *)

Lemma growthDays_snd_prefix (tradesByDate : JsMap (list TradeRecord))
    (livePrices : JsMap StockPrice) (ds : list string)
    (st : JsMap Lot * list GrowthPoint) :
  exists rest,
    snd (fold_left (growthDay tradesByDate livePrices) ds st)
    = snd st ++ rest.
Proof.
  revert st. induction ds as [|d ds IH]; intro st.
  - exists []. now rewrite app_nil_r.
  - cbn [fold_left]. destruct (IH (growthDay tradesByDate livePrices st d))
      as [rest Hrest].
    rewrite Hrest. unfold growthDay at 1. cbn [snd].
    rewrite <- app_assoc. eexists. reflexivity.
Qed.

Lemma sorted_split (ds1 ds2 : list string) (d : string) :
  StronglySorted strLt (ds1 ++ d :: ds2) ->
  Forall (fun k => strLt k d) ds1 /\ Forall (strLt d) ds2.
Proof.
  induction ds1 as [|a ds1 IH]; cbn [app]; intro H;
    inversion H as [|? ? Hs Ha]; subst.
  - split; [constructor|exact Ha].
  - destruct (IH Hs) as [H1 H2]. split; [|exact H2].
    constructor; [|exact H1].
    apply Forall_app in Ha. destruct Ha as [_ Ha].
    now inversion Ha.
Qed.

Lemma strLe_strLt_absurd (a b : string) : strLe a b -> strLt b a -> False.
Proof.
  unfold strLe, strLt, String.leb, String.ltb.
  rewrite (String.compare_antisym b a).
  destruct (String.compare a b); simpl; congruence.
Qed.

Lemma strLe_refl (a : string) : strLe a a.
Proof. unfold strLe, String.leb. now rewrite string_compare_refl. Qed.

Lemma filter_filter_implied {A : Type} (f g : A -> bool) (l : list A) :
  (forall x, f x = true -> g x = true) ->
  filter f (filter g l) = filter f l.
Proof.
  intro H. induction l as [|x l IH]; [reflexivity|].
  cbn [filter]. destruct (g x) eqn:G; cbn [filter].
  - now rewrite IH.
  - destruct (f x) eqn:F; [|exact IH].
    rewrite (H x F) in G. discriminate.
Qed.

(* ================================================================== *)
(** ** The growth series and the summary *)
(* ================================================================== *)

Lemma strLe_trans (a b c : string) : strLe a b -> strLe b c -> strLe a c.
Proof.
  intros Hab Hbc.
  destruct (string_dec a b) as [->|Nab]; [exact Hbc|].
  destruct (string_dec b c) as [<-|Nbc]; [exact Hab|].
  apply strLt_strLe. transitivity b; now apply strLe_neq_strLt.
Qed.

Lemma filter_none {A : Type} (P : A -> bool) (l : list A) :
  (forall x, In x l -> P x = false) -> filter P l = [].
Proof.
  induction l as [|x l IH]; intro H; [reflexivity|].
  cbn [filter]. rewrite (H x (or_introl eq_refl)).
  apply IH. intros y Hy. apply H. now right.
Qed.

Lemma inDateOrder_filter (P : TradeRecord -> bool) (ts : list TradeRecord) :
  inDateOrder ts -> inDateOrder (filter P ts).
Proof.
  unfold inDateOrder.
  induction 1 as [|t ts Hs IH Ht]; cbn [filter]; [constructor|].
  destruct (P t); [|exact IH].
  constructor; [exact IH|].
  apply Forall_forall. intros x Hx. apply filter_In in Hx.
  rewrite Forall_forall in Ht. now apply Ht.
Qed.

(** In a ledger in date order, the trades that pass a test which holds of
    every trade dated before one it holds of come first. *)
Lemma inDateOrder_split (P : TradeRecord -> bool) (ts : list TradeRecord) :
  inDateOrder ts ->
  (forall a b, In a ts -> In b ts ->
               strLe (date a) (date b) -> P b = true -> P a = true) ->
  ts = filter P ts ++ filter (fun t => negb (P t)) ts.
Proof.
  unfold inDateOrder.
  induction 1 as [|t ts Hs IH Ht]; intro HP; [reflexivity|].
  cbn [filter]. destruct (P t) eqn:E; cbn [negb app].
  - f_equal. apply IH. intros a b Ha Hb. apply HP; now right.
  - assert (Hnone : forall x, In x ts -> P x = false).
    { intros x Hx. destruct (P x) eqn:Ex; [|reflexivity].
      rewrite Forall_forall in Ht.
      rewrite (HP t x (or_introl eq_refl) (or_intror Hx) (Ht x Hx) Ex) in E.
      discriminate. }
    rewrite (filter_none P ts Hnone). cbn [app]. f_equal.
    symmetry. apply filter_all. apply Forall_forall. intros x Hx.
    now rewrite (Hnone x Hx).
Qed.

(** The trades of a ledger in date order, taken date after date, are the
    ledger. *)
Lemma flat_map_dates (ks : list string) (l : list TradeRecord) :
  StronglySorted strLt ks -> inDateOrder l ->
  (forall t, In t l -> In (date t) ks) ->
  flat_map (fun k => filter (fun t => String.eqb (date t) k) l) ks = l.
Proof.
  intro Hks. revert l.
  induction Hks as [|k ks Hs IH Hk]; intros l Hl Hin.
  - destruct l as [|t l]; [reflexivity|].
    destruct (Hin t (or_introl eq_refl)).
  - cbn [flat_map]. rewrite Forall_forall in Hk.
    set (P := fun t : TradeRecord => String.eqb (date t) k).
    assert (Hsplit : l = filter P l ++ filter (fun t => negb (P t)) l).
    { apply inDateOrder_split; [exact Hl|].
      intros a b Ha Hb Hle Eb. subst P. cbv beta in *.
      apply String.eqb_eq in Eb. apply String.eqb_eq.
      destruct (Hin a Ha) as [E|Hka]; [now symmetry|].
      exfalso. rewrite Eb in Hle.
      exact (strLe_strLt_absurd _ _ Hle (Hk _ Hka)). }
    etransitivity; [|symmetry; exact Hsplit]. f_equal.
    erewrite flat_map_ext_In.
    2:{ intros k' Hk'.
        rewrite <- (filter_filter_implied _ (fun t => negb (P t))).
        - reflexivity.
        - intros t E. apply String.eqb_eq in E. subst P. cbv beta.
          apply Bool.negb_true_iff. apply String.eqb_neq. intro Ek.
          pose proof (Hk _ Hk') as Hlt. rewrite <- E, Ek in Hlt.
          exact (strLt_irrefl _ Hlt). }
    apply IH.
    + now apply inDateOrder_filter.
    + intros t Ht. apply filter_In in Ht. destruct Ht as [Ht Hne].
      destruct (Hin t Ht) as [E|Hks']; [|exact Hks'].
      subst P. cbv beta in Hne. apply Bool.negb_true_iff in Hne.
      apply String.eqb_neq in Hne. now symmetry in E.
Qed.

Lemma StronglySorted_app_l {A : Type} (R : A -> A -> Prop) (l l' : list A) :
  StronglySorted R (l ++ l') -> StronglySorted R l.
Proof.
  induction l as [|x l IH]; cbn [app]; intro H; [constructor|].
  inversion H as [|? ? Hs Hx]; subst.
  constructor; [now apply IH|].
  apply Forall_app in Hx. tauto.
Qed.

Lemma alwaysHeld_prefix (l l' : list TradeRecord) :
  alwaysHeld (l ++ l') -> alwaysHeld l.
Proof.
  intros H n.
  specialize (H (Nat.min n (List.length l))).
  rewrite firstn_app in H.
  replace (Nat.min n (List.length l) - List.length l)%nat with 0%nat in H
    by lia.
  cbn [firstn] in H. rewrite app_nil_r in H.
  destruct (Nat.le_ge_cases n (List.length l)) as [Hle|Hge].
  - now rewrite Nat.min_l in H by exact Hle.
  - rewrite Nat.min_r in H by exact Hge.
    rewrite firstn_all in H. now rewrite firstn_all2 by exact Hge.
Qed.

Lemma alwaysHeld_all (l : list TradeRecord) :
  alwaysHeld l ->
  Forall (fun kv => heldPositive kv = true) (fst (accumulateHoldings l)).
Proof. intro H. specialize (H (List.length l)). now rewrite firstn_all in H. Qed.

Lemma mapGet_lotEntry (k : string) (m : JsMap Position) :
  mapGet k (map lotEntry m)
  = option_map (fun p => mkLot (pos_quantity p) (totalCost p)) (mapGet k m).
Proof.
  induction m as [|[k' v] m IH]; [reflexivity|].
  cbn [map mapGet]. unfold lotEntry at 1. cbn [fst snd].
  destruct (String.eqb k k'); [reflexivity|exact IH].
Qed.

Lemma mapSet_lotEntry (k : string) (p : Position) (m : JsMap Position) :
  mapSet k (mkLot (pos_quantity p) (totalCost p)) (map lotEntry m)
  = map lotEntry (mapSet k p m).
Proof.
  induction m as [|[k' v] m IH]; [reflexivity|].
  cbn [map mapSet]. unfold lotEntry at 1. cbn [fst snd].
  destruct (String.eqb k k'); cbn [map]; [reflexivity|].
  now rewrite IH.
Qed.

(** As long as every position stays above zero, the running map of the
    growth series holds, key for key and in the same order, the quantities
    and costs of the map of [calculateHoldings]. *)
Lemma replay_exact (tr : list TradeRecord) :
  alwaysHeld tr ->
  fold_left growthTrade tr [] = map lotEntry (fst (accumulateHoldings tr)).
Proof.
  induction tr as [|t tr IH] using rev_ind; intro H; [reflexivity|].
  pose proof (alwaysHeld_all _ H) as Hall.
  rewrite fold_left_app, (IH (alwaysHeld_prefix _ _ H)). cbn [fold_left].
  rewrite accumulateHoldings_snoc, fst_holdingsStep in *. cbv zeta in *.
  set (acc := fst (accumulateHoldings tr)) in *.
  unfold growthTrade.
  assert (E : existingLot (map lotEntry acc) (symbol t)
              = mkLot (pos_quantity (existingPosition acc (symbol t)))
                      (totalCost (existingPosition acc (symbol t)))).
  { unfold existingLot, existingPosition. rewrite mapGet_lotEntry.
    destruct (mapGet (symbol t) acc); reflexivity. }
  rewrite E. cbn [lot_quantity lot_totalCost].
  set (e := existingPosition acc (symbol t)) in *.
  set (r := accountTrade (pos_quantity e) (totalCost e) t) in *.
  assert (Hq : (fst r >? lit 0)%num = true).
  { rewrite Forall_forall in Hall.
    exact (Hall _ (mapGet_Some_In _ _ _ (mapGet_mapSet_eq _ _ _))). }
  rewrite (surjective_pairing r), Hq.
  exact (mapSet_lotEntry (symbol t)
           (mkPosition (fst r) (snd r) (trades e ++ [t])) acc).
Qed.

Lemma portfolioValueOf_lotEntry (livePrices : JsMap StockPrice)
    (m : JsMap Position) :
  portfolioValueOf livePrices (map lotEntry m)
  = calculateCurrentValue livePrices m.
Proof.
  unfold portfolioValueOf, calculateCurrentValue.
  generalize (lit 0) at 2 4.
  induction m as [|[k v] m IH]; intro a; [reflexivity|].
  cbn [map fold_left]. apply IH.
Qed.

(** The value of the trades replayed, when every position stays above
    zero: what the summary of these trades adds up, term for term. *)
Lemma replay_value (tr : list TradeRecord) (livePrices : JsMap StockPrice) :
  alwaysHeld tr ->
  portfolioValueOf livePrices (fold_left growthTrade tr [])
  = calculateCurrentValue livePrices (calculateHoldings tr).
Proof.
  intro H.
  rewrite (replay_exact tr H), portfolioValueOf_lotEntry.
  rewrite calculateHoldings_filter.
  now rewrite (filter_all heldPositive) by (now apply alwaysHeld_all).
Qed.

Section GrowthPoints.
Variable getTime : string -> number.

(** On a ledger in date order, the trades replayed up to a date are the
    trades of the ledger dated that date or before, in the order of the
    ledger. *)
Lemma replay_to_date (ts : list TradeRecord) (ds1 ds2 : list string)
    (d : string) :
  inDateOrder ts ->
  growthDates getTime ts = ds1 ++ d :: ds2 ->
  flat_map (tradesOn (groupByDate (sortTradesByDate getTime ts)))
           (ds1 ++ [d])
  = tradesUpTo d ts.
Proof.
  intros Hord Eds.
  pose proof (growthDates_strict getTime ts) as Hsorted.
  rewrite Eds in Hsorted.
  destruct (sorted_split _ _ _ Hsorted) as [H1 H2].
  rewrite Forall_forall in H1, H2.
  assert (Hle : forall k, In k (ds1 ++ [d]) -> strLe k d).
  { intros k Hk. apply in_app_or in Hk. destruct Hk as [Hk|[<-|[]]].
    - apply strLt_strLe. now apply H1.
    - apply strLe_refl. }
  erewrite flat_map_ext_In.
  2:{ intros k Hk. rewrite tradesOn_groupByDate, filter_date_sortTradesByDate.
      rewrite <- (filter_filter_implied _ (fun t => String.leb (date t) d)).
      - reflexivity.
      - intros t E. apply String.eqb_eq in E. rewrite E. now apply Hle. }
  apply flat_map_dates.
  - replace (ds1 ++ d :: ds2) with ((ds1 ++ [d]) ++ ds2) in Hsorted
      by (now rewrite <- app_assoc).
    exact (StronglySorted_app_l _ _ _ Hsorted).
  - now apply inDateOrder_filter.
  - intros t Hin. apply filter_In in Hin. destruct Hin as [Hin Hleb].
    assert (Hd : In (date t) (growthDates getTime ts))
      by (apply In_growthDates; now apply in_map).
    rewrite Eds in Hd. apply in_app_or in Hd.
    destruct Hd as [Hd|[Hd|Hd]].
    + apply in_or_app. now left.
    + apply in_or_app. right. now left.
    + exfalso. exact (strLe_strLt_absurd _ _ Hleb (H2 _ Hd)).
Qed.

Lemma tradesUpTo_prefix (ts : list TradeRecord) (d : string) :
  inDateOrder ts ->
  ts = tradesUpTo d ts
       ++ filter (fun t => negb (String.leb (date t) d)) ts.
Proof.
  intro Hord. unfold tradesUpTo.
  apply (inDateOrder_split (fun t => String.leb (date t) d)); [exact Hord|].
  intros a b _ _ Hab Hb. exact (strLe_trans _ _ _ Hab Hb).
Qed.

(** X24.  On a ledger in date order (with dates that [getTime] reads) on
    which every position stays above zero after each trade, the point of the
    growth series at a date is worth what the summary of the trades dated
    that date or before is worth: at the live prices of now, not at the
    prices of the date.  The two values are the same sum of the same terms
    in the same order, rounded the same way. *)
Theorem growth_point_is_value_to_date (ts : list TradeRecord)
    (livePrices : JsMap StockPrice) (d : string) :
  Forall (fun t => finite (getTime (date t))) ts ->
  inDateOrder ts -> alwaysHeld ts -> In d (map date ts) ->
  exists p,
    In p (calculatePortfolioGrowthOverTime getTime ts livePrices)
    /\ gp_date p = d
    /\ gp_value p
       = totalCurrentValue
           (calculatePortfolioSummary (tradesUpTo d ts) livePrices).
Proof.
  intros _ Hord Hheld Hd.
  apply (In_growthDates getTime) in Hd.
  destruct (in_split _ _ Hd) as [ds1 [ds2 Eds]].
  pose proof (replay_to_date ts ds1 ds2 d Hord Eds) as Hreplay.
  assert (Hheld' : alwaysHeld (tradesUpTo d ts)).
  { apply (alwaysHeld_prefix _
             (filter (fun t => negb (String.leb (date t) d)) ts)).
    now rewrite <- tradesUpTo_prefix. }
  unfold calculatePortfolioGrowthOverTime.
  assert (E0 : Nat.eqb (List.length ts) 0 = false).
  { apply Nat.eqb_neq. destruct ts; [|discriminate].
    apply In_growthDates in Hd. contradiction. }
  rewrite E0. unfold growthLoop.
  set (tbd := groupByDate (sortTradesByDate getTime ts)) in *.
  rewrite Eds.
  replace (ds1 ++ d :: ds2) with ((ds1 ++ [d]) ++ ds2)
    by (now rewrite <- app_assoc).
  rewrite fold_left_app.
  destruct (growthDays_snd_prefix tbd livePrices ds2
              (fold_left (growthDay tbd livePrices) (ds1 ++ [d]) ([], [])))
    as [rest ->].
  rewrite growthDays_last.
  assert (Hmap : fst (fold_left (growthDay tbd livePrices) (ds1 ++ [d])
                        ([], []))
                 = fold_left growthTrade (tradesUpTo d ts) []).
  { rewrite fst_growthDays, runningMapAfter_flat_map. cbn [fst].
    now rewrite Hreplay. }
  rewrite Hmap.
  exists (mkGrowthPoint d
            (roundCents
               (portfolioValueOf livePrices
                  (fold_left growthTrade (tradesUpTo d ts) [])))).
  split; [|split; [reflexivity|]].
  - apply in_or_app. left. apply in_or_app. right. now left.
  - cbn [gp_value totalCurrentValue calculatePortfolioSummary].
    now rewrite (replay_value _ livePrices Hheld').
Qed.

(** X20.  On a ledger in date order (with dates that [getTime] reads) that
    is not empty and on which every position stays above zero after each
    trade, the last point of the growth series is worth the total current
    value of the summary: the line ends where the summary stands. *)
Theorem growth_ends_at_total (ts : list TradeRecord)
    (livePrices : JsMap StockPrice) :
  ts <> [] ->
  Forall (fun t => finite (getTime (date t))) ts ->
  inDateOrder ts -> alwaysHeld ts ->
  let series := calculatePortfolioGrowthOverTime getTime ts livePrices in
  exists p,
    nth_error series (List.length series - 1) = Some p
    /\ gp_value p = totalCurrentValue (calculatePortfolioSummary ts livePrices).
Proof.
  intros Hne _ Hord Hheld series.
  subst series. unfold calculatePortfolioGrowthOverTime.
  assert (E0 : Nat.eqb (List.length ts) 0 = false).
  { apply Nat.eqb_neq. destruct ts; [contradiction|]. discriminate. }
  rewrite E0. unfold growthLoop.
  set (tbd := groupByDate (sortTradesByDate getTime ts)).
  assert (Hds : growthDates getTime ts <> []).
  { destruct ts as [|t ts']; [contradiction|].
    assert (Hin : In (date t) (growthDates getTime (t :: ts')))
      by (apply In_growthDates; now left).
    intro E. rewrite E in Hin. contradiction. }
  assert (Hreplay : flat_map (tradesOn tbd) (growthDates getTime ts) = ts).
  { erewrite flat_map_ext_In.
    2:{ intros k Hk. subst tbd.
        rewrite tradesOn_groupByDate, filter_date_sortTradesByDate.
        reflexivity. }
    apply flat_map_dates.
    - apply growthDates_strict.
    - exact Hord.
    - intros t Hin. apply In_growthDates. now apply in_map. }
  assert (Hmap : fst (fold_left (growthDay tbd livePrices)
                        (growthDates getTime ts) ([], []))
                 = fold_left growthTrade ts []).
  { rewrite fst_growthDays, runningMapAfter_flat_map. cbn [fst].
    now rewrite Hreplay. }
  destruct (exists_last Hds) as [ds [d Eds]].
  rewrite Eds in Hmap |- *. rewrite growthDays_last, Hmap.
  eexists. split; [apply nth_error_last|]. cbn [gp_value].
  cbn [totalCurrentValue calculatePortfolioSummary].
  now rewrite (replay_value _ livePrices Hheld).
Qed.
End GrowthPoints.

Lemma exampleLedger_alwaysHeld : alwaysHeld exampleLedger.
Proof.
  intro n. destruct n as [|[|[|n]]]; vm_compute; repeat constructor.
Qed.

Lemma exampleLedger_inDateOrder : inDateOrder exampleLedger.
Proof. repeat constructor. Qed.

Lemma growth_point_is_value_to_date_witness :
  Forall (fun t => finite (exampleGetTime (date t))) exampleLedger
  /\ inDateOrder exampleLedger
  /\ alwaysHeld exampleLedger
  /\ In "2024-01-15"%string (map date exampleLedger)
  /\ exists p,
       In p (calculatePortfolioGrowthOverTime exampleGetTime exampleLedger
               examplePrices)
       /\ gp_date p = "2024-01-15"%string
       /\ gp_value p
          = totalCurrentValue
              (calculatePortfolioSummary
                 (tradesUpTo "2024-01-15" exampleLedger) examplePrices).
Proof.
  assert (H1 : Forall (fun t => finite (exampleGetTime (date t)))
                      exampleLedger) by (repeat constructor).
  assert (H4 : In "2024-01-15"%string (map date exampleLedger))
    by (left; reflexivity).
  split; [exact H1|]. split; [exact exampleLedger_inDateOrder|].
  split; [exact exampleLedger_alwaysHeld|]. split; [exact H4|].
  exact (growth_point_is_value_to_date exampleGetTime exampleLedger
           examplePrices "2024-01-15" H1 exampleLedger_inDateOrder
           exampleLedger_alwaysHeld H4).
Defined.

Lemma growth_ends_at_total_witness :
  exampleLedger <> []
  /\ Forall (fun t => finite (exampleGetTime (date t))) exampleLedger
  /\ inDateOrder exampleLedger
  /\ alwaysHeld exampleLedger
  /\ exists p,
       nth_error
         (calculatePortfolioGrowthOverTime exampleGetTime exampleLedger
            examplePrices)
         (List.length
            (calculatePortfolioGrowthOverTime exampleGetTime exampleLedger
               examplePrices) - 1)
       = Some p
       /\ gp_value p
          = totalCurrentValue
              (calculatePortfolioSummary exampleLedger examplePrices).
Proof.
  assert (H0 : exampleLedger <> []) by discriminate.
  assert (H1 : Forall (fun t => finite (exampleGetTime (date t)))
                      exampleLedger) by (repeat constructor).
  split; [exact H0|]. split; [exact H1|].
  split; [exact exampleLedger_inDateOrder|].
  split; [exact exampleLedger_alwaysHeld|].
  exact (growth_ends_at_total exampleGetTime exampleLedger examplePrices
           H0 H1 exampleLedger_inDateOrder exampleLedger_alwaysHeld).
Defined.
